(** * aph: stamp parsing and hash orchestration

    A shallow embedding of package [aph] (file [aph.go]): the two stamp
    parsers [ParseTime] and [ParseMemory], with the regular expressions and
    the binary64 arithmetic they rest on, and the three functions that drive
    the external Argon2id package, [generateHash], [GenerateHash] and
    [GenerateHashWithSalt]; and of the command that calls them, [main]
    with [printAndExit] (file [cmd/main.go]).

    Go's [int] is taken to be 64 bits wide.  A Go [string] is a [string] of
    bytes, a [[]byte] is a [list byte], a [float64] is a binary64 number in
    the sense of the standard library's [SpecFloat] (precision 53, infinite
    exponent 1024), a pair [(T, error)] is a pair [T * option error].  What
    the package calls outside itself, the clock and the Argon2id
    primitive, is a call answered by an environment: the hash functions
    are computations over such calls, and every property of them holds in
    every environment, or in every one that keeps the contract it names.

    The file has four parts: the program; the vocabulary of the
    specification and of the proofs; the properties of the patterns, of
    binary64 and of the hash functions; and the claims of the
    specification about the package, each with its theorem. *)

From Stdlib Require Import ZArith List Bool Lia.
From Stdlib Require Import Strings.String Strings.Ascii Strings.Byte.
From Stdlib Require Import DecimalString.
From Stdlib Require Import Floats.SpecFloat.
Import ListNotations.

Local Open Scope string_scope.
Local Open Scope Z_scope.

Set Implicit Arguments.

(* ################################################################# *)
(** * The program *)

(* ================================================================= *)
(** ** Strings *)

(** The byte [c] is one of ['0'] .. ['9']. *)
Definition is_digit (c : ascii) : bool :=
  ((48 <=? N_of_ascii c) && (N_of_ascii c <=? 57))%N.

Definition digit_val (c : ascii) : Z := Z.of_N (N_of_ascii c) - 48.

(** [all_digits s]: every byte of [s] is a decimal digit. *)
Fixpoint all_digits (s : string) : bool :=
  match s with
  | EmptyString => true
  | String c s' => is_digit c && all_digits s'
  end.

(** The value of a string of decimal digits, most significant first. *)
Fixpoint dec_value (acc : Z) (s : string) : Z :=
  match s with
  | EmptyString => acc
  | String c s' => dec_value (10 * acc + digit_val c) s'
  end.

(** The longest prefix of decimal digits, and what follows it. *)
Fixpoint span_digits (s : string) : string * string :=
  match s with
  | String c s' =>
      if is_digit c
      then let (ds, rest) := span_digits s' in (String c ds, rest)
      else (EmptyString, s)
  | EmptyString => (EmptyString, EmptyString)
  end.

(** [strip_prefix p s] is [Some t] when [s = p ++ t]. *)
Fixpoint strip_prefix (p s : string) : option string :=
  match p, s with
  | EmptyString, _ => Some s
  | String a p', String b s' =>
      if Ascii.eqb a b then strip_prefix p' s' else None
  | String _ _, EmptyString => None
  end.

(** The part of [s] read when [rest] is what remains of it. *)
Definition consumed (s rest : string) : string :=
  substring 0 (String.length s - String.length rest) s.

(** [len(s)] and [len(b)] as Go [int]s. *)
Definition len_string (s : string) : Z := Z.of_nat (String.length s).
Definition len_bytes (b : list byte) : Z := Z.of_nat (List.length b).

(* ================================================================= *)
(** ** Package [math]: binary64 *)

Module math.

Definition prec : Z := 53.
Definition emax : Z := 1024.

Definition float64 : Type := spec_float.

(** The binary64 number nearest to the integer [n] (ties to even). *)
Definition of_Z (n : Z) : float64 := binary_normalize prec emax n 0 false.

(** The binary64 number nearest to the positive rational [n / d], ties to
    even; [+Inf] when the rounded value is beyond the largest finite
    binary64. *)
Definition of_ratio (n d : Z) : float64 :=
  match n with
  | Z0 => S754_zero false
  | _ =>
      let '(q, e, l) := SFdiv_core_binary prec emax n 0 d 0 in
      binary_round_aux prec emax false q e l
  end.

(** [x * y] on [float64]. *)
Definition mul (x y : float64) : float64 := SFmul prec emax x y.

(** [x != y] on [float64]. *)
Definition neq (x y : float64) : bool := negb (SFeqb x y).

Definition IsInf (x : float64) : bool :=
  match x with S754_infinity _ => true | _ => false end.

(** [math.Trunc]: the integer part of [x]; zeros, infinities and NaN are
    returned as they are. *)
Definition Trunc (x : float64) : float64 :=
  match x with
  | S754_finite s m e =>
      if 0 <=? e then x
      else binary_normalize prec emax
             (cond_Zopp s (Z.shiftr (Zpos m) (- e))) 0 s
  | _ => x
  end.

Definition minInt64 : Z := - 2 ^ 63.
Definition maxInt64 : Z := 2 ^ 63 - 1.

(** The integer part of a finite [x], as a mathematical integer. *)
Definition int_part (x : float64) : Z :=
  match x with
  | S754_finite s m e =>
      cond_Zopp s
        (if 0 <=? e then Z.shiftl (Zpos m) e else Z.shiftr (Zpos m) (- e))
  | _ => 0
  end.

(** The conversion [int(x)]: the fraction is discarded.  When the integer
    part does not fit an [int] (or [x] is infinite or NaN) Go leaves the
    result to the implementation; the value here is the one amd64
    produces. *)
Definition int (x : float64) : Z :=
  match x with
  | S754_zero _ => 0
  | S754_finite _ _ _ =>
      let v := int_part x in
      if (minInt64 <=? v) && (v <=? maxInt64) then v else minInt64
  | _ => minInt64
  end.

End math.

(* ================================================================= *)
(** ** Package [strconv]: [ParseFloat] *)

Module strconv.

Inductive Err : Type := ErrSyntax | ErrRange.

(** [*strconv.NumError]. *)
Record NumError : Type := { Func : string; Num : string; Err_ : Err }.

(** The decimal literals [digits], [digits.digits], [digits.] and
    [.digits]: the mantissa, as an integer, and the number of digits
    after the point. *)
Definition readFloat (s : string) : option (Z * nat) :=
  let (ip, r1) := span_digits s in
  match r1 with
  | EmptyString =>
      match ip with
      | EmptyString => None
      | _ => Some (dec_value 0 ip, O)
      end
  | String "." r2 =>
      let (fp, r3) := span_digits r2 in
      match r3, (ip ++ fp) with
      | EmptyString, String _ _ =>
          Some (dec_value 0 (ip ++ fp), String.length fp)
      | _, _ => None
      end
  | String _ _ => None
  end.

(** [strconv.ParseFloat(s, 64)] on unsigned decimal literals without
    exponent: the nearest binary64, ties to even, and [ErrRange] with
    [+Inf] when that is beyond the largest finite binary64.  These are
    the only strings the stamp patterns capture; on every other string
    this model answers [ErrSyntax] (Go reads more: signs, exponents,
    hexadecimal, [inf], [nan]). *)
Definition ParseFloat (s : string) : math.float64 * option NumError :=
  match readFloat s with
  | None =>
      (S754_zero false,
       Some {| Func := "ParseFloat"; Num := s; Err_ := ErrSyntax |})
  | Some (n, k) =>
      let f := math.of_ratio n (10 ^ Z.of_nat k) in
      if math.IsInf f
      then (f, Some {| Func := "ParseFloat"; Num := s; Err_ := ErrRange |})
      else (f, None)
  end.

End strconv.

(* ================================================================= *)
(** ** Package [regexp]: leftmost-first matching *)

Module regexp.

(** The syntax the two patterns use. *)
Inductive Regexp : Type :=
| Lit (s : string)                 (* literal text *)
| Digit                            (* \d *)
| Plus (r : Regexp)                (* r+, greedy *)
| Quest (r : Regexp)               (* r?, greedy; (?:r)? when r is a group *)
| Cat (r1 r2 : Regexp)             (* r1 r2 *)
| Alt (r1 r2 : Regexp)             (* r1|r2, r1 preferred *)
| Capture (i : nat) (r : Regexp).  (* the i-th parenthesised group *)

(** The text of the capturing groups matched so far, latest first. *)
Definition Caps : Type := list (nat * string).

Fixpoint group (i : nat) (c : Caps) : string :=
  match c with
  | [] => ""
  | (j, s) :: c' => if Nat.eqb i j then s else group i c'
  end.

(** One or more rounds of [step], longest first: after each round the
    loop first tries to go on and only then to stop. *)
Fixpoint plus_loop (step : string -> Caps -> list (string * Caps))
    (fuel : nat) (s : string) (c : Caps) : list (string * Caps) :=
  flat_map
    (fun sc : string * Caps =>
       let (s', c') := sc in
       (match fuel with
        | S fuel' =>
            if (String.length s' <? String.length s)%nat
            then plus_loop step fuel' s' c'
            else []
        | O => []
        end ++ [(s', c')])%list)
    (step s c).

(** [backtrack r s c]: every way [r] matches a prefix of [s], each as the rest
    of [s] with the groups, in the order a backtracking search tries
    them. *)
Fixpoint backtrack (r : Regexp) (s : string) (c : Caps) : list (string * Caps) :=
  match r with
  | Lit l =>
      match strip_prefix l s with
      | Some s' => [(s', c)]
      | None => []
      end
  | Digit =>
      match s with
      | String a s' => if is_digit a then [(s', c)] else []
      | EmptyString => []
      end
  | Plus r1 => plus_loop (backtrack r1) (String.length s) s c
  | Quest r1 => (backtrack r1 s c ++ [(s, c)])%list
  | Cat r1 r2 =>
      flat_map (fun sc : string * Caps => backtrack r2 (fst sc) (snd sc))
               (backtrack r1 s c)
  | Alt r1 r2 => (backtrack r1 s c ++ backtrack r2 s c)%list
  | Capture i r1 =>
      map (fun sc : string * Caps =>
             (fst sc, (i, consumed s (fst sc)) :: snd sc))
          (backtrack r1 s c)
  end.

(** [re.NumSubexp()]. *)
Fixpoint NumSubexp (r : Regexp) : nat :=
  match r with
  | Lit _ | Digit => O
  | Plus r1 | Quest r1 => NumSubexp r1
  | Cat r1 r2 | Alt r1 r2 => (NumSubexp r1 + NumSubexp r2)%nat
  | Capture _ r1 => S (NumSubexp r1)
  end.

(** The leftmost match: the first position of [s] from which [re]
    matches, with the match the search finds first there. *)
Fixpoint find (re : Regexp) (s : string) : option (string * Caps) :=
  match backtrack re s [] with
  | (rest, c) :: _ => Some (consumed s rest, c)
  | [] =>
      match s with
      | String _ s' => find re s'
      | EmptyString => None
      end
  end.

(** [re.FindStringSubmatch(s)]: the text of the leftmost match and of
    each group; [nil] (the empty list) when nothing matches. *)
Definition FindStringSubmatch (re : Regexp) (s : string) : list string :=
  match find re s with
  | None => []
  | Some (whole, c) =>
      whole :: map (fun i => group i c) (seq 1 (NumSubexp re))
  end.

End regexp.

(* ================================================================= *)
(** ** Package [argon2id]: the external hashing primitive *)

Module argon2id.

(** Modelled from the spec: the declaration of [argon2id.Parameters] is
    not among the sources.  These are the fields [aph.go] reads and
    writes, with the types of the values it passes to the constructor;
    [Salt] is [None] for a nil slice. *)
Record Parameters : Type := {
  Time : Z;        (* uint32 *)
  Memory : Z;      (* uint32 *)
  Threads : Z;     (* uint8 *)
  Length : Z;      (* uint32 *)
  Salt : option (list byte)
}.

(** An error of the package, by its message. *)
Definition error : Type := string.

Definition withSalt (p : Parameters) (salt : list byte) : Parameters :=
  {| Time := Time p; Memory := Memory p; Threads := Threads p;
     Length := Length p; Salt := Some salt |}.

Definition saltBytes (p : Parameters) : list byte :=
  match Salt p with Some b => b | None => [] end.

End argon2id.

(* ================================================================= *)
(** ** Package [aph] *)

(** The values of Go's [error] that reach the functions of the package. *)
Inductive error : Type :=
| ErrorMalformedStamp
| ErrorSplitAtomic
| StrconvError (e : strconv.NumError)
| Argon2idError (e : argon2id.error).

Import regexp.

(** ["(\\d+(?:\\.\\d+)?)(ms|s)"] *)
Definition parseTime : Regexp :=
  Cat (Capture 1 (Cat (Plus Digit) (Quest (Cat (Lit ".") (Plus Digit)))))
      (Capture 2 (Alt (Lit "ms") (Lit "s"))).

(** ["(\\d+(?:\\.\\d+)?)(KB|MB|GB)"] *)
Definition parseMemory : Regexp :=
  Cat (Capture 1 (Cat (Plus Digit) (Quest (Cat (Lit ".") (Plus Digit)))))
      (Capture 2 (Alt (Lit "KB") (Alt (Lit "MB") (Lit "GB")))).

Definition is_nil {A : Type} (l : list A) : bool :=
  match l with [] => true | _ :: _ => false end.

Definition ParseTime (stamp : string) : Z * option error :=
  let details := FindStringSubmatch parseTime stamp in
  if is_nil details || negb (Nat.eqb (List.length details) 3)
  then (0, Some ErrorMalformedStamp)
  else
    let (t, err) := strconv.ParseFloat (nth 1 details "") in
    match err with
    | Some e => (0, Some (StrconvError e))
    | None =>
        let unit := nth 2 details "" in
        if (unit =? "ms")%string then
          if math.neq (math.Trunc t) t
          then (0, Some ErrorSplitAtomic)
          else (math.int t, None)
        else if (unit =? "s")%string then
          (math.int (math.mul t (math.of_Z 1000)), None)
        else (0, None)
    end.

Definition ParseMemory (stamp : string) : Z * option error :=
  let details := FindStringSubmatch parseMemory stamp in
  if is_nil details || negb (Nat.eqb (List.length details) 3)
  then (0, Some ErrorMalformedStamp)
  else
    let (s, err) := strconv.ParseFloat (nth 1 details "") in
    match err with
    | Some e => (0, Some (StrconvError e))
    | None =>
        let unit := nth 2 details "" in
        if (unit =? "KB")%string then
          if math.neq (math.Trunc s) s
          then (0, Some ErrorSplitAtomic)
          else (math.int s, None)
        else if (unit =? "MB")%string then
          (math.int (math.mul s (math.of_Z 1024)), None)
        else if (unit =? "GB")%string then
          (math.int (math.mul (math.mul s (math.of_Z 1024)) (math.of_Z 1024)),
           None)
        else (0, None)
    end.

(* ================================================================= *)
(** ** The environment of the package: the clock and the primitive *)

(** The calls [aph.go] makes outside the package, each with the type of
    its result.  Instants and durations are integers (nanoseconds). *)
Inductive call : Type -> Type :=
| time_Now : call Z
| time_Since (start : Z) : call Z
| argon2id_NewParameters (time memory threads length : Z) :
    call (argon2id.Parameters * option argon2id.error)
| argon2id_GenerateFromPassword
    (password : list byte) (params : argon2id.Parameters) :
    call (list byte * option argon2id.error).

(** A computation that makes such calls and returns an [A]. *)
Inductive prog (A : Type) : Type :=
| Ret (a : A)
| Do (X : Type) (c : call X) (k : X -> prog A).

Arguments Ret {A} a.
Arguments Do {A X} c k.

Fixpoint bind {A B : Type} (p : prog A) (f : A -> prog B) : prog B :=
  match p with
  | Ret a => f a
  | Do c k => Do c (fun x => bind (k x) f)
  end.

Definition perform {X : Type} (c : call X) : prog X := Do c (fun x => Ret x).

Notation "x <- p ;; q" := (bind p (fun x => q))
  (at level 61, p at next level, right associativity).
Notation "' pat <- p ;; q" := (bind p (fun x => match x with pat => q end))
  (at level 61, pat pattern, p at next level, right associativity).

(** An environment answers every call from its state [W]. *)
Definition handler (W : Type) : Type := forall X : Type, call X -> W -> X * W.

(** One call with the answer it got. *)
Inductive event : Type :=
| Event (X : Type) (c : call X) (x : X).

Arguments Event {X} c x.

(** [exec h p w]: the result of [p] in the environment [h] from the state
    [w], the state it ends in, and the calls made, in order. *)
Fixpoint exec {W A : Type} (h : handler W) (p : prog A) (w : W)
  : A * W * list event :=
  match p with
  | Ret a => (a, w, [])
  | Do c k =>
      let (x, w') := h _ c w in
      let '(a, w'', t) := exec h (k x) w' in
      (a, w'', Event c x :: t)
  end.

Definition run {W A : Type} (h : handler W) (p : prog A) (w : W) : A :=
  fst (fst (exec h p w)).

Definition trace {W A : Type} (h : handler W) (p : prog A) (w : W)
  : list event :=
  snd (exec h p w).

Definition is_NewParameters (e : event) : bool :=
  match e with
  | Event (argon2id_NewParameters _ _ _ _) _ => true
  | _ => false
  end.

Definition is_GenerateFromPassword (e : event) : bool :=
  match e with
  | Event (argon2id_GenerateFromPassword _ _) _ => true
  | _ => false
  end.

(** How often a trace calls the parameter constructor and the hash. *)
Definition calls (f : event -> bool) (t : list event) : nat :=
  List.length (filter f t).

(* ================================================================= *)
(** ** [ResultSet] and the hash functions *)

Record ResultSet : Type := {
  Time : Z;
  Threads : Z;
  Memory : Z;
  Length : Z;
  Key : string;
  Hash : string;
  Characters : Z;
  Duration : Z;
  Salt : string
}.

(** [ResultSet{}]. *)
Definition emptyResultSet : ResultSet :=
  {| Time := 0; Threads := 0; Memory := 0; Length := 0; Key := "";
     Hash := ""; Characters := 0; Duration := 0; Salt := "" |}.

(** The conversions [uint32(x)] and [uint8(x)] of an [int]. *)
Definition uint32 (x : Z) : Z := x mod 2 ^ 32.
Definition uint8 (x : Z) : Z := x mod 2 ^ 8.

Definition generateHash (params : argon2id.Parameters) (password : list byte)
  : prog (ResultSet * option error) :=
  start <- perform time_Now ;;
  '(hash, err) <- perform (argon2id_GenerateFromPassword password params) ;;
  duration <- perform (time_Since start) ;;
  match err with
  | Some e => Ret (emptyResultSet, Some (Argon2idError e))
  | None =>
      let rs :=
        {| Time := argon2id.Time params;
           Threads := argon2id.Threads params;
           Memory := argon2id.Memory params;
           Length := argon2id.Length params;
           Key := string_of_list_byte password;
           Hash := string_of_list_byte hash;
           Characters := len_bytes hash;
           Duration := duration;
           Salt := string_of_list_byte (argon2id.saltBytes params) |} in
      Ret (rs, None)
  end.

Definition GenerateHash (seconds threads memory length : Z) (key : string)
  : prog (ResultSet * option error) :=
  '(params, err) <-
    perform (argon2id_NewParameters
               (uint32 seconds) (uint32 memory) (uint8 threads)
               (uint32 length)) ;;
  match err with
  | Some e => Ret (emptyResultSet, Some (Argon2idError e))
  | None => generateHash params (list_byte_of_string key)
  end.

Definition GenerateHashWithSalt (seconds threads memory length : Z)
    (key salt : string) : prog (ResultSet * option error) :=
  '(params, err) <-
    perform (argon2id_NewParameters
               (uint32 seconds) (uint32 memory) (uint8 threads)
               (uint32 length)) ;;
  let params := argon2id.withSalt params (list_byte_of_string salt) in
  match err with
  | Some e => Ret (emptyResultSet, Some (Argon2idError e))
  | None => generateHash params (list_byte_of_string key)
  end.

(* ================================================================= *)
(** ** What the command takes from Go's library *)

(** The line feed. *)
Definition newline : string := String "010"%char EmptyString.

(** The decimal form of an [int], as the verb [%d] prints it. *)
Definition itoa (n : Z) : string := NilZero.string_of_int (Z.to_int n).

(** [strconv.Atoi(s)]: an optional sign and decimal digits, read in base
    10.  Anything else is [ErrSyntax]; a value that does not fit an [int]
    is [ErrRange], with the nearest [int] as the result. *)
Definition strconv_Atoi (s : string) : Z * option strconv.NumError :=
  let fail e :=
    Some {| strconv.Func := "Atoi"; strconv.Num := s; strconv.Err_ := e |} in
  let (neg, ds) :=
    match s with
    | String "-" s' => (true, s')
    | String "+" s' => (false, s')
    | _ => (false, s)
    end in
  match ds with
  | EmptyString => (0, fail strconv.ErrSyntax)
  | String _ _ =>
      if all_digits ds then
        let un := dec_value 0 ds in
        if negb neg && (2 ^ 63 <=? un) then (math.maxInt64, fail strconv.ErrRange)
        else if neg && (2 ^ 63 <? un) then (math.minInt64, fail strconv.ErrRange)
        else (if neg then - un else un, None)
      else (0, fail strconv.ErrSyntax)
  end.

(** The alphabet of [base64.StdEncoding]. *)
Definition encodeStd : string :=
  "ABCDEFGHIJKLMNOPQRSTUVWXYZabcdefghijklmnopqrstuvwxyz0123456789+/".

Definition sextet (i : Z) : ascii :=
  match get (Z.to_nat i) encodeStd with
  | Some c => c
  | None => "A"%char
  end.

Definition byte_val (b : byte) : Z := Z.of_N (Byte.to_N b).

(** [base64.RawStdEncoding.EncodeToString(src)]: four characters for
    every three bytes, two or three for the one or two bytes that remain,
    and no padding. *)
Fixpoint base64_RawStdEncoding_EncodeToString (src : list byte) : string :=
  match src with
  | [] => EmptyString
  | [a] =>
      let v := Z.shiftl (byte_val a) 16 in
      String (sextet (Z.land (Z.shiftr v 18) 63))
        (String (sextet (Z.land (Z.shiftr v 12) 63)) EmptyString)
  | [a; b] =>
      let v := Z.lor (Z.shiftl (byte_val a) 16) (Z.shiftl (byte_val b) 8) in
      String (sextet (Z.land (Z.shiftr v 18) 63))
        (String (sextet (Z.land (Z.shiftr v 12) 63))
           (String (sextet (Z.land (Z.shiftr v 6) 63)) EmptyString))
  | a :: b :: c :: rest =>
      let v := Z.lor (Z.lor (Z.shiftl (byte_val a) 16) (Z.shiftl (byte_val b) 8))
                 (byte_val c) in
      String (sextet (Z.land (Z.shiftr v 18) 63))
        (String (sextet (Z.land (Z.shiftr v 12) 63))
           (String (sextet (Z.land (Z.shiftr v 6) 63))
              (String (sextet (Z.land v 63))
                 (base64_RawStdEncoding_EncodeToString rest))))
  end.

(** [d.Milliseconds()] for a [time.Duration] of [d] nanoseconds. *)
Definition Milliseconds (d : Z) : Z := Z.quot d 1000000.

(* ================================================================= *)
(** ** Package [main]: the command [aph] *)

(** [e.Error()] for the two errors of [strconv]. *)
Definition Err_Error (e : strconv.Err) : string :=
  match e with
  | strconv.ErrSyntax => "invalid syntax"
  | strconv.ErrRange => "value out of range"
  end.

(** A process: what it has written to standard output, and whether it
    still runs. *)
Inductive status (A : Type) : Type :=
| Running (a : A)
| Exited (code : Z).

Arguments Running {A} a.
Arguments Exited {A} code.

(** A command: a computation that writes to standard output, may make
    the calls of [prog] and may end the process. *)
Definition cmd (A : Type) : Type := string -> prog (string * status A).

Definition cmd_ret {A : Type} (a : A) : cmd A :=
  fun out => Ret (out, Running a).

Definition cmd_bind {A B : Type} (m : cmd A) (f : A -> cmd B) : cmd B :=
  fun out =>
    r <- m out ;;
    match snd r with
    | Running a => f a (fst r)
    | Exited code => Ret (fst r, Exited code)
    end.

Notation "x <~ m ;; f" := (cmd_bind m (fun x => f))
  (at level 61, m at next level, right associativity).
Notation "' pat <~ m ;; f" :=
  (cmd_bind m (fun x => match x with pat => f end))
  (at level 61, pat pattern, m at next level, right associativity).
Notation "m ;;; f" := (cmd_bind m (fun _ => f))
  (at level 61, right associativity).

(** A computation of package [aph] run inside the command. *)
Definition within {A : Type} (p : prog A) : cmd A :=
  fun out => a <- p ;; Ret (out, Running a).

(** [fmt.Println(s)] and [fmt.Print(s)]. *)
Definition fmt_Print (s : string) : cmd unit :=
  fun out => Ret (out ++ s, Running tt).

Definition fmt_Println (s : string) : cmd unit :=
  fun out => Ret (out ++ s ++ newline, Running tt).

(** [os.Exit(code)]. *)
Definition os_Exit {A : Type} (code : Z) : cmd A :=
  fun out => Ret (out, Exited code).

Section Command.

(** [strconv.Quote], which the message of a [*strconv.NumError] is
    built with. *)
Variable Quote : string -> string.

(** [err.Error()]: the text of [errors.New] for the two errors of package
    [aph], the message of a [*strconv.NumError], and the message of an
    error of package [argon2id]. *)
Definition Error (err : error) : string :=
  match err with
  | ErrorMalformedStamp => "aph: provided stamp was malformed"
  | ErrorSplitAtomic => "aph: cannot use fractional value with type"
  | StrconvError e =>
      "strconv." ++ strconv.Func e ++ ": parsing " ++ Quote (strconv.Num e)
        ++ ": " ++ Err_Error (strconv.Err_ e)
  | Argon2idError msg => msg
  end.

Definition printAndExit (err : option error) : cmd unit :=
  match err with
  | Some e => fmt_Println (Error e) ;;; os_Exit 1
  | None => cmd_ret tt
  end.

(** What the one call of [fmt.Printf] in [main] writes: each [%d] is the
    decimal form of its operand, each [%s] the operand itself. *)
Definition report (result : ResultSet) (prettySalt : string) : string :=
  "Generation Results:" ++ newline ++
  "Time: " ++ itoa (Time result) ++ "ms" ++ newline ++
  "Threads: " ++ itoa (Threads result) ++ newline ++
  "Memory: " ++ itoa (Memory result) ++ "KB" ++ newline ++
  "Length: " ++ itoa (Length result) ++ newline ++
  newline ++
  "Key: " ++ Key result ++ newline ++
  "Salt: " ++ prettySalt ++ newline ++
  newline ++
  "Hash: " ++ Hash result ++ newline ++
  "Hash Length: " ++ itoa (Characters result) ++ newline ++
  "Generation Time: " ++ itoa (Milliseconds (Duration result)) ++ "ms"
    ++ newline.

Definition lift_err (e : option strconv.NumError) : option error :=
  match e with
  | Some e' => Some (StrconvError e')
  | None => None
  end.

(** [main], with [args] for [os.Args[1:]]. *)
Definition main (args : list string) : cmd unit :=
  (if (List.length args <? 5)%nat
   then fmt_Println "aph: not enough arguments provided" ;;; os_Exit 1
   else cmd_ret tt) ;;;
  let (seconds, err) := ParseTime (nth 0 args "") in
  printAndExit err ;;;
  let (threads, err) := strconv_Atoi (nth 1 args "") in
  printAndExit (lift_err err) ;;;
  let (memory, err) := ParseMemory (nth 2 args "") in
  printAndExit err ;;;
  let (length, err) := strconv_Atoi (nth 3 args "") in
  printAndExit (lift_err err) ;;;
  let key := nth 4 args "" in
  r <~ match List.length args with
       | 5%nat =>
           '(result, err) <~
             within (GenerateHash seconds threads memory length key) ;;
           printAndExit err ;;;
           cmd_ret (result,
                    base64_RawStdEncoding_EncodeToString
                      (list_byte_of_string (Salt result)))
       | 6%nat =>
           let salt := nth 5 args "" in
           '(result, err) <~
             within (GenerateHashWithSalt seconds threads memory length
                       key salt) ;;
           printAndExit err ;;;
           cmd_ret (result, Salt result)
       | _ => cmd_ret (emptyResultSet, "")
       end ;;
  fmt_Print (report (fst r) (snd r)).

(** The process: [main] from an empty standard output; the status is 0
    when [main] returns. *)
Definition command (args : list string) : prog (string * Z) :=
  r <- main args "" ;;
  Ret (fst r, match snd r with Running _ => 0 | Exited code => code end).

End Command.

(* ################################################################# *)
(** * The vocabulary of the specification and of the proofs *)

(* ================================================================= *)
(** ** What the package expects of its environment *)

Section Contract.

Variable W : Type.
Variable h : handler W.

(** The clock of package [time] is monotonic: [time.Now] reads it,
    [time.Since] measures from an earlier reading, and no call sets it
    back. *)
Definition monotonic_clock (clock : W -> Z) : Prop :=
  (forall w, fst (h time_Now w) = clock w) /\
  (forall start w, fst (h (time_Since start) w) = clock w - start) /\
  (forall (X : Type) (c : call X) w, clock w <= clock (snd (h c w))).

(** Modelled from the spec: a result is populated from the input
    parameters, so the parameter constructor stores the values it was
    given. *)
Definition faithful_parameters : Prop :=
  forall t m p l w params,
    fst (h (argon2id_NewParameters t m p l) w) = (params, None) ->
    argon2id.Time params = t /\ argon2id.Memory params = m /\
    argon2id.Threads params = p /\ argon2id.Length params = l.

(** Modelled from the spec: the primitive is deterministic when the salt
    is fixed.  With an explicit salt the encoded hash depends on the
    password and the parameters only: two hashes that succeed are the
    same. *)
Definition deterministic_hash : Prop :=
  forall password params w1 w2 hash1 hash2,
    argon2id.Salt params <> None ->
    fst (h (argon2id_GenerateFromPassword password params) w1)
      = (hash1, None) ->
    fst (h (argon2id_GenerateFromPassword password params) w2)
      = (hash2, None) ->
    hash1 = hash2.

End Contract.

(* ================================================================= *)
(** ** A small environment to run the functions in

    It keeps a clock, a counter that stands for the source of random
    salts, and the memory that is free.  Its digest is a placeholder, not
    Argon2id: the functions of the package never look inside a hash. *)

Module sim.

Record world : Type := { now : Z; entropy : Z; free_memory : Z }.

(** The ranges of Argon2: at least one pass, one lane, 8 KiB per lane and
    a tag of 4 bytes. *)
Definition valid (t m p l : Z) : bool :=
  (1 <=? t) && (1 <=? p) && (8 * p <=? m) && (4 <=? l).

Definition fresh_salt (w : world) : list byte :=
  repeat (match Byte.of_N (Z.to_N (entropy w mod 256)) with
          | Some b => b
          | None => x00
          end) 16.

Definition digest (password : list byte) (params : argon2id.Parameters)
  : list byte :=
  (list_byte_of_string "$argon2id$v=19$" ++ argon2id.saltBytes params
     ++ list_byte_of_string "$" ++ password)%list.

Definition noParameters : argon2id.Parameters :=
  {| argon2id.Time := 0; argon2id.Memory := 0; argon2id.Threads := 0;
     argon2id.Length := 0; argon2id.Salt := None |}.

Definition handle : handler world :=
  fun (X : Type) (c : call X) =>
    match c in call X0 return world -> X0 * world with
    | time_Now => fun w => (now w, w)
    | time_Since start => fun w => (now w - start, w)
    | argon2id_NewParameters t m p l => fun w =>
        if valid t m p l
        then (({| argon2id.Time := t; argon2id.Memory := m;
                  argon2id.Threads := p; argon2id.Length := l;
                  argon2id.Salt := Some (fresh_salt w) |}, None),
              {| now := now w; entropy := entropy w + 1;
                 free_memory := free_memory w |})
        else ((noParameters, Some "argon2id: invalid parameters"), w)
    | argon2id_GenerateFromPassword password params => fun w =>
        if argon2id.Memory params <=? free_memory w
        then ((digest password params, None),
              {| now := now w + Z.max 1 (argon2id.Time params * argon2id.Memory params);
                 entropy := entropy w; free_memory := free_memory w |})
        else (([], Some "argon2id: out of memory"),
              {| now := now w + 1; entropy := entropy w;
                 free_memory := free_memory w |})
    end.

Definition start : world :=
  {| now := 0; entropy := 7; free_memory := 4194304 |}.

End sim.

(* ================================================================= *)
(** ** Stamps and results as [spec.md] words them *)

(** [<number>]: decimal digits, optionally a point and more digits. *)
Inductive number : string -> Prop :=
| number_int (ip : string) :
    ip <> "" -> all_digits ip = true -> number ip
| number_frac (ip fp : string) :
    ip <> "" -> all_digits ip = true ->
    fp <> "" -> all_digits fp = true -> number (ip ++ "." ++ fp).

(** The units of a duration and of a size. *)
Definition timeUnits : list string := ["ms"; "s"].

Definition memoryUnits : list string := ["KB"; "MB"; "GB"].

(** [s] has a number followed by one of [units] somewhere inside. *)
Definition contains_stamp (units : list string) (s : string) : Prop :=
  exists pre num unit post,
    number num /\ In unit units /\ s = pre ++ num ++ unit ++ post.

(** [num], then [unit], is the leftmost stamp of [s]: [pre] comes before
    it, [post] after, and no stamp of [s] starts earlier. *)
Definition leftmost_stamp (units : list string) (s pre num unit post : string)
  : Prop :=
  s = pre ++ num ++ unit ++ post /\ number num /\ In unit units /\
  forall pre' num' unit' post',
    number num' -> In unit' units -> s = pre' ++ num' ++ unit' ++ post' ->
    (String.length pre <= String.length pre')%nat.

(** No byte of [s] is a decimal digit. *)
Fixpoint no_digits (s : string) : bool :=
  match s with
  | EmptyString => true
  | String c s' => negb (is_digit c) && no_digits s'
  end.

(** round-toward-zero(value x factor) for the decimal [num], computed on
    integers: with [n] the digits of [num] read as one integer and [k] the
    number of digits after the point, the value is [n / 10^k]. *)
Definition round_toward_zero_scaled (num : string) (factor : Z) : Z :=
  match strconv.readFloat num with
  | Some (n, k) => (n * factor) / 10 ^ Z.of_nat k
  | None => 0
  end.

(** The value of the decimal [num] has a non-zero fractional part. *)
Definition has_fraction (num : string) : bool :=
  match strconv.readFloat num with
  | Some (n, k) => negb (n mod 10 ^ Z.of_nat k =? 0)
  | None => false
  end.

(** The value of the decimal [num] is [c / 2^j]: 0.75 is [3 / 2^2], and
    an integer [c] is [c / 2^0]. *)
Definition dyadic (num : string) (c j : Z) : Prop :=
  exists n k,
    strconv.readFloat num = Some (n, k) /\ 0 < c /\ 0 <= j <= 1022 /\
    n * 2 ^ j = c * 10 ^ Z.of_nat k.

(** The value of the decimal [num] is a binary64 number below [2^53], in
    the form binary64 stores it: a mantissa [M] of 53 bits times
    [2^(-a)]. *)
Definition binary64_exact (num : string) : Prop :=
  exists n k M a,
    strconv.readFloat num = Some (n, k) /\ 0 < n /\
    Zdigits2 (Zpos M) = 53 /\ 0 <= a <= 1074 /\
    n * 2 ^ a = Zpos M * 10 ^ Z.of_nat k.

(** The value of the decimal [num] is beyond the range of binary64: it
    is at least [2^1024 - 2^970], half a unit of the last place above the
    largest binary64 number, from where the nearest binary64 is no
    number any more. *)
Definition beyond_float64 (num : string) : bool :=
  match strconv.readFloat num with
  | Some (n, k) => (2 ^ 1024 - 2 ^ 970) * 10 ^ Z.of_nat k <=? n
  | None => false
  end.


(** The result of a parser is an error of one of three kinds, or a
    number. *)
Definition parse_result (r : Z * option error) : Prop :=
  r = (fst r, None) \/
  r = (0, Some ErrorMalformedStamp) \/
  r = (0, Some ErrorSplitAtomic) \/
  exists num, number num /\
    r = (0, Some (StrconvError
                    {| strconv.Func := "ParseFloat"; strconv.Num := num;
                       strconv.Err_ := strconv.ErrRange |})).

(** The error a call of the primitive answered with, if any. *)
Definition answered_error (ev : event) : option argon2id.error :=
  match ev with
  | Event c x =>
      match c in call X return X -> option argon2id.error with
      | argon2id_NewParameters _ _ _ _ => fun r => snd r
      | argon2id_GenerateFromPassword _ _ => fun r => snd r
      | _ => fun _ => None
      end x
  end.

(** The errors the primitive answered with during a run, in order. *)
Definition errors_answered (t : list event) : list argon2id.error :=
  flat_map (fun ev => match answered_error ev with
                      | Some e => [e]
                      | None => []
                      end) t.

(** A run of [p] that failed with [e] ended there: the empty [ResultSet],
    [e] the one error the primitive answered with, and no call repeated. *)
Definition terminal_failure {W : Type} (h : handler W)
    (p : prog (ResultSet * option error)) (w : W) (e : error) : Prop :=
  fst (run h p w) = emptyResultSet /\
  (exists msg, e = Argon2idError msg /\
               errors_answered (trace h p w) = [msg]) /\
  calls is_NewParameters (trace h p w) = 1%nat /\
  (calls is_GenerateFromPassword (trace h p w) <= 1)%nat.

(* ================================================================= *)
(** ** The patterns read without backtracking *)

(** What [\d+] offers to the rest of a pattern: every non-empty prefix of
    the leading digits, longest first. *)
Fixpoint digit_splits (s : string) (c : regexp.Caps)
  : list (string * regexp.Caps) :=
  match s with
  | String a s' =>
      if is_digit a then (digit_splits s' c ++ [(s', c)])%list else []
  | EmptyString => []
  end.

(** The shape of both patterns: [(\d+(?:\.\d+)?)(units)]. *)
Definition stampRE (units : Regexp) : Regexp :=
  Cat (Capture 1 (Cat (Plus Digit) (Quest (Cat (Lit ".") (Plus Digit)))))
      (Capture 2 units).

(** The units of the two patterns. *)
Definition timeRE : Regexp := Alt (Lit "ms") (Lit "s").

Definition memoryRE : Regexp := Alt (Lit "KB") (Alt (Lit "MB") (Lit "GB")).

(** The first of [units] that [t] starts with, and the rest of [t]. *)
Fixpoint unit_at (units : list string) (t : string)
  : option (string * string) :=
  match units with
  | [] => None
  | u :: us =>
      match strip_prefix u t with
      | Some rest => Some (u, rest)
      | None => unit_at us t
      end
  end.

(** The stamp [s] starts with, read left to right: its number, its unit
    and what follows. *)
Definition scan (units : list string) (s : string)
  : option (string * string * string) :=
  let (ip, r1) := span_digits s in
  match ip with
  | EmptyString => None
  | String _ _ =>
      match r1 with
      | String "." r2 =>
          let (fp, r3) := span_digits r2 in
          match fp with
          | EmptyString => None
          | String _ _ =>
              match unit_at units r3 with
              | Some (u, rest) => Some (ip ++ "." ++ fp, u, rest)
              | None => None
              end
          end
      | _ =>
          match unit_at units r1 with
          | Some (u, rest) => Some (ip, u, rest)
          | None => None
          end
      end
  end.

(** The leftmost stamp of [s], with the text before it. *)
Fixpoint scan_from (units : list string) (s : string)
  : option (string * (string * string * string)) :=
  match scan units s with
  | Some m => Some (EmptyString, m)
  | None =>
      match s with
      | String a s' =>
          match scan_from units s' with
          | Some (pre, m) => Some (String a pre, m)
          | None => None
          end
      | EmptyString => None
      end
  end.

(** The submatches of a stamp, as [FindStringSubmatch] lists them. *)
Definition submatches (m : option (string * (string * string * string)))
  : list string :=
  match m with
  | Some (_, (num, u, _)) => [num ++ u; num; u]
  | None => []
  end.

(** [s] starts with neither a digit nor a point; [s] starts with no
    digit. *)
Definition head_ok (s : string) : bool :=
  match s with
  | String a _ => negb (is_digit a) && negb (Ascii.eqb a ".")
  | EmptyString => true
  end.

Definition no_digit_head (s : string) : bool :=
  match s with
  | String a _ => negb (is_digit a)
  | EmptyString => true
  end.

(** What follows the number in both patterns: the unit, with the number
    recorded as group 1. *)
Definition unit_cont (U : Regexp) (s : string) (sc : string * Caps)
  : list (string * Caps) :=
  backtrack (Capture 2 U) (fst sc) ((1%nat, consumed s (fst sc)) :: snd sc).

(** What [ParseTime] does with the number and the unit of a match. *)
Definition convertTime (num unit : string) : Z * option error :=
  let (t, err) := strconv.ParseFloat num in
  match err with
  | Some e => (0, Some (StrconvError e))
  | None =>
      if (unit =? "ms")%string then
        if math.neq (math.Trunc t) t
        then (0, Some ErrorSplitAtomic)
        else (math.int t, None)
      else if (unit =? "s")%string then
        (math.int (math.mul t (math.of_Z 1000)), None)
      else (0, None)
  end.

(** What [ParseMemory] does with them. *)
Definition convertMemory (num unit : string) : Z * option error :=
  let (s, err) := strconv.ParseFloat num in
  match err with
  | Some e => (0, Some (StrconvError e))
  | None =>
      if (unit =? "KB")%string then
        if math.neq (math.Trunc s) s
        then (0, Some ErrorSplitAtomic)
        else (math.int s, None)
      else if (unit =? "MB")%string then
        (math.int (math.mul s (math.of_Z 1024)), None)
      else if (unit =? "GB")%string then
        (math.int (math.mul (math.mul s (math.of_Z 1024)) (math.of_Z 1024)),
         None)
      else (0, None)
  end.

(** The errors of the two conversions. *)
Definition stamp_error (num : string) (r : Z * option error) : Prop :=
  r = (fst r, None) \/
  r = (0, Some ErrorSplitAtomic) \/
  r = (0, Some (StrconvError
                  {| strconv.Func := "ParseFloat"; strconv.Num := num;
                     strconv.Err_ := strconv.ErrRange |})).

(* ================================================================= *)
(** ** Auxiliary definitions *)

(** [c], [n] times. *)
Fixpoint replicate (n : nat) (c : ascii) : string :=
  match n with
  | O => EmptyString
  | S n' => String c (replicate n' c)
  end.

(** Either hash function, by whether a salt is given. *)
Definition hashCall (seconds threads memory length : Z) (key : string)
    (salt : option string) : prog (ResultSet * option error) :=
  match salt with
  | None => GenerateHash seconds threads memory length key
  | Some s => GenerateHashWithSalt seconds threads memory length key s
  end.

(** The parameters [generateHash] receives from either function. *)
Definition salted (params : argon2id.Parameters) (salt : option string)
  : argon2id.Parameters :=
  match salt with
  | None => params
  | Some s => argon2id.withSalt params (list_byte_of_string s)
  end.

(** A mantissa that has lost no bit in a shift. *)
Definition exact_record (m : Z) : shr_record :=
  {| shr_m := m; shr_r := false; shr_s := false |}.

(** The binary64 form of the integer [n], [0 < n < 2^53]: its digits
    moved to the top of a mantissa of 53 bits. *)
Definition int_float (n : Z) : math.float64 :=
  S754_finite false (Z.to_pos (n * 2 ^ (53 - Zdigits2 n))) (Zdigits2 n - 53).

(** Case analysis on the first bytes of a text against literal bytes. *)
Ltac eqb_cases :=
  repeat (cbn [backtrack unit_at strip_prefix app];
          match goal with
          | |- context [Ascii.eqb ?x ?y] =>
              first
                [ is_var y;
                  let E := fresh "E" in
                  destruct (Ascii.eqb x y) eqn:E;
                  [apply Ascii.eqb_eq in E; subst y | ]
                | let v := eval vm_compute in (Ascii.eqb x y) in
                  change (Ascii.eqb x y) with v ]
          end);
  try reflexivity.

(* ================================================================= *)
(** ** Auxiliary definitions for the command *)

(** The four arguments [main] parses, in the order it parses them: their
    values, or the first error. *)
Definition parsed (args : list string) : Z * Z * Z * Z + error :=
  match ParseTime (nth 0 args "") with
  | (_, Some e) => inr e
  | (seconds, None) =>
      match strconv_Atoi (nth 1 args "") with
      | (_, Some e) => inr (StrconvError e)
      | (threads, None) =>
          match ParseMemory (nth 2 args "") with
          | (_, Some e) => inr e
          | (memory, None) =>
              match strconv_Atoi (nth 3 args "") with
              | (_, Some e) => inr (StrconvError e)
              | (length, None) => inl (seconds, threads, memory, length)
              end
          end
      end
  end.

(** How a call of a hash function ends the command. *)
Definition finish (Quote : string -> string) (pretty : ResultSet -> string)
    (r : ResultSet * option error) : string * Z :=
  match snd r with
  | Some e => (Error Quote e ++ newline, 1)
  | None => (report (fst r) (pretty (fst r)), 0)
  end.

(** [strconv.Quote] on text that needs no escape: the text between
    double quotes. *)
Definition quoted (s : string) : string :=
  String "034"%char s ++ String "034"%char EmptyString.

(** The byte [c] does not occur in [s]. *)
Fixpoint lacks (c : ascii) (s : string) : bool :=
  match s with
  | EmptyString => true
  | String a s' => negb (Ascii.eqb a c) && lacks c s'
  end.

(** Every byte of [s] is one of the 64 of [encodeStd]. *)
Fixpoint in_encodeStd (s : string) : bool :=
  match s with
  | EmptyString => true
  | String a s' => negb (lacks a encodeStd) && in_encodeStd s'
  end.

(* ================================================================= *)
(** ** Auxiliary definitions for the rounding of binary64 *)

(** The binary64 number [f] is [M * 2^E]: zero, or a mantissa at the
    exponent [E] or, when [M] is [2^53], at the next one. *)
Definition float_is (f : math.float64) (M E : Z) : Prop :=
  (M = 0 /\ f = S754_zero false) \/
  (0 < M /\ exists mm ee,
     f = S754_finite false mm ee /\ E <= ee <= E + 1 /\
     Zpos mm * 2 ^ (ee - E) = M).

(** [X / 2^a] is within [p / 2^q] of [n / d]. *)
Definition near (X a n d p q : Z) : Prop :=
  (X * d - n * 2 ^ a) * 2 ^ q <= p * d * 2 ^ a /\
  (n * 2 ^ a - X * d) * 2 ^ q <= p * d * 2 ^ a.

(* ################################################################# *)
(** * Properties *)

(** ** Strings *)

Lemma append_assoc (a b c : string) : (a ++ b) ++ c = a ++ (b ++ c).
Proof. induction a; simpl; congruence. Qed.

Lemma append_nil_r (a : string) : a ++ "" = a.
Proof. induction a; simpl; congruence. Qed.

Lemma length_append (a b : string) :
  String.length (a ++ b) = (String.length a + String.length b)%nat.
Proof. induction a; simpl; congruence. Qed.

Lemma substring_0_length (a b : string) : substring 0 (String.length a) (a ++ b) = a.
Proof. induction a; simpl; [destruct b; reflexivity | congruence]. Qed.

Lemma consumed_app (a b : string) : consumed (a ++ b) b = a.
Proof.
  unfold consumed. rewrite length_append.
  replace (String.length a + String.length b - String.length b)%nat
    with (String.length a) by lia.
  apply substring_0_length.
Qed.

Lemma strip_prefix_Some (p s t : string) : strip_prefix p s = Some t -> s = p ++ t.
Proof.
  revert s; induction p; intros s H.
  - destruct s; simpl in H; inversion H; reflexivity.
  - destruct s; simpl in H; [discriminate|].
    destruct (Ascii.eqb a a0) eqn:E; [|discriminate].
    apply Ascii.eqb_eq in E; subst. simpl. f_equal. auto.
Qed.

Lemma span_digits_spec (s ds rest : string) :
  span_digits s = (ds, rest) ->
  s = ds ++ rest /\ all_digits ds = true /\ no_digit_head rest = true.
Proof.
  revert ds rest; induction s as [|a s IH]; intros ds rest H; simpl in H.
  - inversion H; subst; auto.
  - destruct (is_digit a) eqn:D.
    + destruct (span_digits s) as [ds' rest'] eqn:E. inversion H; subst.
      destruct (IH _ _ eq_refl) as (-> & Hd & Hr).
      simpl. rewrite D, Hd. auto.
    + inversion H; subst. simpl. rewrite D. auto.
Qed.

Lemma span_digits_app (ds rest : string) :
  all_digits ds = true -> no_digit_head rest = true ->
  span_digits (ds ++ rest) = (ds, rest).
Proof.
  induction ds as [|a ds IH]; simpl; intros Hd Hr.
  - destruct rest; simpl in *; [reflexivity|].
    destruct (is_digit a); [discriminate | reflexivity].
  - apply andb_prop in Hd as [Ha Hd]. rewrite Ha, IH; auto.
Qed.

(** ** The patterns

    What the backtracking search does on the two patterns: [\d+] offers
    its splits longest first, the units refuse every text that starts with
    a digit or a point, so only the longest split of each number can go
    on, and the search is the scanner [scan]. *)

Lemma plus_digit (s : string) (c : Caps) :
  backtrack (Plus Digit) s c = digit_splits s c.
Proof.
  simpl. induction s as [|a s IH]; simpl; [reflexivity|].
  destruct (is_digit a); simpl; [|reflexivity].
  rewrite app_nil_r.
  replace (String.length s <? S (String.length s))%nat with true
    by (symmetry; apply Nat.ltb_lt; lia).
  rewrite IH. reflexivity.
Qed.

(** A continuation with nothing to offer on a text that starts with a
    digit is tried on the longest split only. *)
Lemma flat_map_digit_splits (B : Type) (K : string * Caps -> list B)
    (s : string) (c : Caps) :
  (forall t c', no_digit_head t = false -> K (t, c') = []) ->
  flat_map K (digit_splits s c) =
  match span_digits s with
  | (EmptyString, _) => []
  | (String _ _, rest) => K (rest, c)
  end.
Proof.
  intros HK. induction s as [|a s IH]; simpl; [reflexivity|].
  destruct (is_digit a) eqn:D; [|reflexivity].
  rewrite flat_map_app, IH. simpl. rewrite app_nil_r.
  destruct s as [|b s]; simpl; [reflexivity|].
  destruct (is_digit b) eqn:Db.
  - destruct (span_digits s) as [ds rest]. rewrite (HK (String b s)); [apply app_nil_r|].
    simpl. rewrite Db. reflexivity.
  - reflexivity.
Qed.

Lemma flat_map_map (A B C : Type) (f : A -> B) (g : B -> list C) (l : list A) :
  flat_map g (map f l) = flat_map (fun x => g (f x)) l.
Proof. induction l; simpl; congruence. Qed.

Lemma flat_map_flat_map (A B C : Type) (f : A -> list B) (g : B -> list C) (l : list A) :
  flat_map g (flat_map f l) = flat_map (fun x => flat_map g (f x)) l.
Proof. induction l; simpl; [reflexivity|]. rewrite flat_map_app. congruence. Qed.

Lemma unit_at_Some (units : list string) (t u rest : string) :
  unit_at units t = Some (u, rest) -> In u units /\ t = u ++ rest.
Proof.
  induction units as [|v us IH]; simpl; [discriminate|].
  destruct (strip_prefix v t) eqn:E.
  - intros H; inversion H; subst. split; [auto|]. now apply strip_prefix_Some.
  - intros H. destruct (IH H). auto.
Qed.

Lemma run_dot_digits (t : string) (c : Caps) :
  backtrack (Cat (Lit ".") (Plus Digit)) t c =
  match t with
  | String "." t' => digit_splits t' c
  | _ => []
  end.
Proof.
  change (backtrack (Cat (Lit ".") (Plus Digit)) t c)
    with (flat_map (fun sc : string * Caps => backtrack (Plus Digit) (fst sc) (snd sc))
            (backtrack (Lit ".") t c)).
  destruct t as [|a t]; [reflexivity|].
  cbn [backtrack strip_prefix].
  destruct (Ascii.eqb "." a) eqn:E.
  - apply Ascii.eqb_eq in E. subst. cbn [flat_map fst snd]. rewrite app_nil_r.
    apply plus_digit.
  - simpl.
    destruct a as [[] [] [] [] [] [] [] []]; try reflexivity. discriminate.
Qed.

Section Stamp.

Variable U : Regexp.
Variable units : list string.

Hypothesis U_run : forall t c,
  backtrack U t c = match unit_at units t with
                    | Some (_, rest) => [(rest, c)]
                    | None => []
                    end.
Hypothesis units_head : forall t, head_ok t = false -> unit_at units t = None.

Lemma unit_cont_eq (s t : string) (c : Caps) :
  unit_cont U s (t, c) =
  match unit_at units t with
  | Some (u, rest) => [(rest, (2%nat, u) :: (1%nat, consumed s t) :: c)]
  | None => []
  end.
Proof.
  unfold unit_cont. cbn [backtrack fst snd]. rewrite U_run.
  destruct (unit_at units t) as [[u rest]|] eqn:E; [|reflexivity].
  apply unit_at_Some in E as [_ ->]. cbn [map fst snd]. now rewrite consumed_app.
Qed.

Lemma unit_cont_digit (s t : string) (c : Caps) :
  head_ok t = false -> unit_cont U s (t, c) = [].
Proof. intros H. rewrite unit_cont_eq, units_head; auto. Qed.

Lemma head_ok_digit (t : string) : no_digit_head t = false -> head_ok t = false.
Proof. destruct t; simpl; [discriminate|].
  destruct (is_digit a); simpl; auto; discriminate. Qed.

Lemma run_stamp (s : string) :
  backtrack (stampRE U) s [] =
  match scan units s with
  | Some (num, u, rest) => [(rest, [(2%nat, u); (1%nat, num)])]
  | None => []
  end.
Proof.
  unfold stampRE.
  change (backtrack (Cat
            (Capture 1 (Cat (Plus Digit) (Quest (Cat (Lit ".") (Plus Digit)))))
                 (Capture 2 U)) s [])
    with (flat_map (fun sc : string * Caps => backtrack (Capture 2 U) (fst sc) (snd sc))
            (map (fun sc : string * Caps =>
                    (fst sc, (1%nat, consumed s (fst sc)) :: snd sc))
               (flat_map
                  (fun sc : string * Caps =>
                     (backtrack (Cat (Lit ".") (Plus Digit)) (fst sc) (snd sc)
                        ++ [(fst sc, snd sc)])%list)
                  (backtrack (Plus Digit) s [])))).
  rewrite flat_map_map, plus_digit, flat_map_flat_map.
  change (fun x : string * Caps =>
            backtrack (Capture 2 U) (fst (fst x, (1%nat, consumed s (fst x)) :: snd x))
            (snd (fst x, (1%nat, consumed s (fst x)) :: snd x)))
    with (unit_cont U s).
  rewrite flat_map_digit_splits.
  2:{ intros t c' Ht. cbn [fst snd]. rewrite flat_map_app.
      rewrite run_dot_digits.
      destruct t as [|a t]; [discriminate|]. simpl in Ht.
      apply negb_false_iff in Ht.
      assert (a <> "."%char) by (intros ->; discriminate).
      replace (match a with "."%char => digit_splits t c' | _ => [] end)
        with (@nil (string * Caps)).
      2:{ destruct a as [[] [] [] [] [] [] [] []]; try reflexivity. congruence. }
      cbn [flat_map app]. rewrite app_nil_r. apply unit_cont_digit.
      simpl. rewrite Ht. reflexivity. }
  unfold scan.
  destruct (span_digits s) as [ip r1] eqn:E1.
  destruct ip as [|a ip]; [reflexivity|].
  apply span_digits_spec in E1 as (Hs & Hip & Hr1).
  cbn [fst snd]. rewrite flat_map_app, run_dot_digits.
  cbn [flat_map]. rewrite app_nil_r.
  assert (Hplain : (flat_map (unit_cont U s) [] ++ unit_cont U s (r1, []))%list =
                   match
                     match unit_at units r1 with
                     | Some (u, rest) => Some (String a ip, u, rest)
                     | None => None
                     end
                   with
                   | Some (num, u, rest) => [(rest, [(2%nat, u); (1%nat, num)])]
                   | None => []
                   end).
  { cbn [flat_map app]. rewrite unit_cont_eq. subst s. rewrite consumed_app.
    destruct (unit_at units r1) as [[u rest]|]; reflexivity. }
  destruct r1 as [|b r1]; [exact Hplain|].
  destruct (Ascii.eqb b ".") eqn:Eb.
  - apply Ascii.eqb_eq in Eb. subst b.
    rewrite flat_map_digit_splits.
    2:{ intros t c' Ht. apply unit_cont_digit. now apply head_ok_digit. }
    rewrite (unit_cont_digit s (String "." r1) []) by reflexivity.
    rewrite app_nil_r.
    destruct (span_digits r1) as [fp r3] eqn:E2.
    destruct fp as [|f fp]; [reflexivity|].
    apply span_digits_spec in E2 as (Hr & Hfp & Hr3).
    rewrite unit_cont_eq.
    destruct (unit_at units r3) as [[u rest]|]; [|reflexivity].
    subst s r1.
    replace (String a ip ++ String "." (String f fp ++ r3))
      with ((String a ip ++ "." ++ String f fp) ++ r3).
    + now rewrite consumed_app.
    + rewrite append_assoc. reflexivity.
  - destruct b as [[] [] [] [] [] [] [] []]; try exact Hplain. discriminate.
Qed.

End Stamp.

Lemma parseTime_shape : parseTime = stampRE timeRE.
Proof. reflexivity. Qed.

Lemma parseMemory_shape : parseMemory = stampRE memoryRE.
Proof. reflexivity. Qed.

Lemma timeRE_run (t : string) (c : Caps) :
  backtrack timeRE t c = match unit_at timeUnits t with
                   | Some (_, rest) => [(rest, c)]
                   | None => []
                   end.
Proof.
  unfold timeRE, timeUnits.
  destruct t as [|a [|b t]]; eqb_cases.
Qed.

Lemma memoryRE_run (t : string) (c : Caps) :
  backtrack memoryRE t c = match unit_at memoryUnits t with
                     | Some (_, rest) => [(rest, c)]
                     | None => []
                     end.
Proof.
  unfold memoryRE, memoryUnits.
  destruct t as [|a [|b t]]; eqb_cases.
Qed.

Lemma head_ok_false (t : string) :
  head_ok t = false ->
  exists a t', t = String a t' /\ (is_digit a = true \/ a = "."%char).
Proof.
  destruct t as [|a t]; simpl; [discriminate|]. intros H.
  exists a, t. split; [reflexivity|].
  destruct (is_digit a); [auto|]. simpl in H. apply negb_false_iff in H.
  apply Ascii.eqb_eq in H. auto.
Qed.

Lemma timeUnits_head (t : string) : head_ok t = false -> unit_at timeUnits t = None.
Proof.
  intros H. apply head_ok_false in H as (a & t' & -> & [H | ->]); [|reflexivity].
  unfold timeUnits. cbn [unit_at strip_prefix].
  destruct (Ascii.eqb "m" a) eqn:E1; [apply Ascii.eqb_eq in E1; subst; discriminate|].
  destruct (Ascii.eqb "s" a) eqn:E2; [apply Ascii.eqb_eq in E2; subst; discriminate|].
  reflexivity.
Qed.

Lemma memoryUnits_head (t : string) : head_ok t = false -> unit_at memoryUnits t = None.
Proof.
  intros H. apply head_ok_false in H as (a & t' & -> & [H | ->]); [|reflexivity].
  unfold memoryUnits. cbn [unit_at strip_prefix].
  destruct (Ascii.eqb "K" a) eqn:E1; [apply Ascii.eqb_eq in E1; subst; discriminate|].
  destruct (Ascii.eqb "M" a) eqn:E2; [apply Ascii.eqb_eq in E2; subst; discriminate|].
  destruct (Ascii.eqb "G" a) eqn:E3; [apply Ascii.eqb_eq in E3; subst; discriminate|].
  reflexivity.
Qed.

Lemma timeUnits_exact (u post : string) :
  In u timeUnits -> unit_at timeUnits (u ++ post) = Some (u, post).
Proof. intros [<- | [<- | []]]; reflexivity. Qed.

Lemma memoryUnits_exact (u post : string) :
  In u memoryUnits -> unit_at memoryUnits (u ++ post) = Some (u, post).
Proof. intros [<- | [<- | [<- | []]]]; reflexivity. Qed.

(** ** The scanner against the wording of the specification *)

Section Scan.

Variable units : list string.
Hypothesis units_head : forall t, head_ok t = false -> unit_at units t = None.
Hypothesis units_exact : forall u post,
  In u units -> unit_at units (u ++ post) = Some (u, post).

Lemma unit_head_ok (u post : string) : In u units -> head_ok (u ++ post) = true.
Proof.
  intros H. destruct (head_ok (u ++ post)) eqn:E; [reflexivity|].
  apply units_head in E. rewrite units_exact in E by assumption. discriminate.
Qed.

Lemma head_ok_no_digit (t : string) : head_ok t = true -> no_digit_head t = true.
Proof. destruct t; simpl; [auto|]. intros H. apply andb_prop in H. tauto. Qed.

Lemma scan_sound (s num u rest : string) :
  scan units s = Some (num, u, rest) ->
  number num /\ In u units /\ s = num ++ u ++ rest.
Proof.
  unfold scan.
  destruct (span_digits s) as [ip r1] eqn:E1.
  apply span_digits_spec in E1 as (-> & Hip & Hr1).
  destruct ip as [|a ip]; [discriminate|].
  assert (Hplain :
    match unit_at units r1 with
    | Some (u0, rest0) => Some (String a ip, u0, rest0)
    | None => None
    end = Some (num, u, rest) ->
    number num /\ In u units /\ String a ip ++ r1 = num ++ u ++ rest).
  { destruct (unit_at units r1) as [[u0 rest0]|] eqn:E; [|discriminate].
    intros H; inversion H; subst. apply unit_at_Some in E as [Hin ->].
    repeat split; auto. constructor; [discriminate | assumption]. }
  destruct r1 as [|b r1]; [exact Hplain|].
  destruct (Ascii.eqb b ".") eqn:Eb.
  - apply Ascii.eqb_eq in Eb. subst b.
    destruct (span_digits r1) as [fp r3] eqn:E2.
    apply span_digits_spec in E2 as (-> & Hfp & Hr3).
    destruct fp as [|f fp]; [discriminate|].
    destruct (unit_at units r3) as [[u0 rest0]|] eqn:E; [|discriminate].
    intros H; inversion H; subst. apply unit_at_Some in E as [Hin ->].
    repeat split; auto.
    + apply (number_frac (ip:=String a ip) (fp:=String f fp)); auto; discriminate.
    + cbn [append]. f_equal. rewrite append_assoc. reflexivity.
  - destruct b as [[] [] [] [] [] [] [] []]; try exact Hplain. discriminate.
Qed.

Lemma scan_complete (num u post : string) :
  number num -> In u units -> scan units (num ++ u ++ post) = Some (num, u, post).
Proof.
  intros Hn Hu. pose proof (unit_head_ok u post Hu) as Hh.
  pose proof (head_ok_no_digit _ Hh) as Hd.
  unfold scan. destruct Hn as [ip Hne Hip | ip fp Hne Hip Hfne Hfp].
  - rewrite span_digits_app by assumption.
    destruct ip as [|a ip]; [congruence|].
    rewrite units_exact by assumption.
    destruct (u ++ post) as [|b r] eqn:E; [reflexivity|].
    simpl in Hh. apply andb_prop in Hh as [_ Hb].
    destruct b as [[] [] [] [] [] [] [] []]; try reflexivity. discriminate.
  - rewrite !append_assoc.
    rewrite span_digits_app by (auto; reflexivity).
    destruct ip as [|a ip]; [congruence|].
    cbn [append]. rewrite span_digits_app by assumption.
    destruct fp as [|f fp]; [congruence|].
    rewrite units_exact by assumption. reflexivity.
Qed.

Lemma scan_from_sound (s pre num u rest : string) :
  scan_from units s = Some (pre, (num, u, rest)) ->
  number num /\ In u units /\ s = pre ++ num ++ u ++ rest.
Proof.
  revert pre. induction s as [|a s IH]; intros pre; cbn [scan_from].
  - destruct (scan units "") as [m|] eqn:E; [|discriminate].
    intros H; inversion H; subst. now apply scan_sound in E.
  - destruct (scan units (String a s)) as [m|] eqn:E.
    + intros H; inversion H; subst. now apply scan_sound in E.
    + destruct (scan_from units s) as [[pre' m]|]; [|discriminate].
      intros H; inversion H; subst.
      destruct (IH _ eq_refl) as (Hn & Hu & ->). auto.
Qed.

(** The match found is the leftmost: no stamp starts before it. *)
Lemma scan_from_leftmost (s pre num u rest pre' num' u' post' : string) :
  scan_from units s = Some (pre, (num, u, rest)) ->
  number num' -> In u' units -> s = pre' ++ num' ++ u' ++ post' ->
  (String.length pre <= String.length pre')%nat.
Proof.
  revert pre pre'. induction s as [|a s IH]; intros pre pre'; cbn [scan_from].
  - destruct (scan units "") as [m|] eqn:E; [|discriminate].
    intros H; inversion H; subst. simpl. lia.
  - destruct (scan units (String a s)) as [m|] eqn:E.
    + intros H; inversion H; subst. simpl. lia.
    + destruct (scan_from units s) as [[p m]|] eqn:E'; [|discriminate].
      intros H Hn Hu Hs; inversion H; subst.
      destruct pre' as [|b pre'].
      * simpl in Hs. rewrite Hs, scan_complete in E by assumption. discriminate.
      * simpl in Hs. inversion Hs; subst. simpl.
        specialize (IH _ pre' eq_refl Hn Hu eq_refl). lia.
Qed.

Lemma scan_from_eq (s : string) :
  scan_from units s =
  match scan units s with
  | Some m => Some (EmptyString, m)
  | None =>
      match s with
      | String a s' =>
          match scan_from units s' with
          | Some (pre, m) => Some (String a pre, m)
          | None => None
          end
      | EmptyString => None
      end
  end.
Proof. destruct s; reflexivity. Qed.

Lemma scan_from_complete (s : string) :
  contains_stamp units s -> scan_from units s <> None.
Proof.
  intros (pre & num & u & post & Hn & Hu & ->).
  induction pre as [|a pre IH]; cbn [append].
  - rewrite scan_from_eq, scan_complete by assumption. discriminate.
  - rewrite scan_from_eq.
    destruct (scan units (String a (pre ++ num ++ u ++ post))); [discriminate|].
    destruct (scan_from units (pre ++ num ++ u ++ post)) as [[p m]|]; [discriminate|].
    contradiction.
Qed.

Lemma scan_from_None (s : string) :
  scan_from units s = None <-> ~ contains_stamp units s.
Proof.
  split.
  - intros H C. now apply scan_from_complete in C.
  - intros H. destruct (scan_from units s)
      as [[pre [[num u] rest]]|] eqn:E; [|reflexivity].
    exfalso. apply H. apply scan_from_sound in E as (Hn & Hu & ->).
    exists pre, num, u, rest. auto.
Qed.

End Scan.

Section Find.

Variable U : Regexp.
Variable units : list string.

Hypothesis U_run : forall t c,
  backtrack U t c = match unit_at units t with
                    | Some (_, rest) => [(rest, c)]
                    | None => []
                    end.
Hypothesis units_head : forall t, head_ok t = false -> unit_at units t = None.
Hypothesis U_groups : NumSubexp U = O.

Lemma find_eq (re : Regexp) (s : string) :
  find re s =
  match backtrack re s [] with
  | (rest, c) :: _ => Some (consumed s rest, c)
  | [] =>
      match s with
      | String _ s' => find re s'
      | EmptyString => None
      end
  end.
Proof. destruct s; reflexivity. Qed.

Lemma find_stamp (s : string) :
  find (stampRE U) s =
  match scan_from units s with
  | Some (_, (num, u, _)) => Some (num ++ u, [(2%nat, u); (1%nat, num)])
  | None => None
  end.
Proof.
  induction s as [|a s IH];
    rewrite find_eq, scan_from_eq, (run_stamp U units U_run units_head).
  - destruct (scan units "") as [[[num u] rest]|] eqn:E; [|reflexivity].
    apply scan_sound in E as (_ & _ & E). rewrite E at 1.
    rewrite <- append_assoc, consumed_app. reflexivity.
  - destruct (scan units (String a s)) as [[[num u] rest]|] eqn:E.
    + apply scan_sound in E as (_ & _ & E). rewrite E at 1.
      rewrite <- append_assoc, consumed_app. reflexivity.
    + rewrite IH. destruct (scan_from units s) as [[pre [[num u] rest]]|]; reflexivity.
Qed.

Lemma FindStringSubmatch_stamp (s : string) :
  FindStringSubmatch (stampRE U) s = submatches (scan_from units s).
Proof.
  unfold FindStringSubmatch. rewrite find_stamp.
  destruct (scan_from units s) as [[pre [[num u] rest]]|]; [|reflexivity].
  cbn [stampRE NumSubexp]. rewrite U_groups. reflexivity.
Qed.

End Find.

Lemma FindStringSubmatch_time (s : string) :
  FindStringSubmatch parseTime s = submatches (scan_from timeUnits s).
Proof.
  rewrite parseTime_shape.
  apply FindStringSubmatch_stamp;
    auto using timeRE_run, timeUnits_head.
Qed.

Lemma FindStringSubmatch_memory (s : string) :
  FindStringSubmatch parseMemory s = submatches (scan_from memoryUnits s).
Proof.
  rewrite parseMemory_shape.
  apply FindStringSubmatch_stamp;
    auto using memoryRE_run, memoryUnits_head.
Qed.

Lemma ParseTime_scan (stamp : string) :
  ParseTime stamp =
  match scan_from timeUnits stamp with
  | Some (_, (num, u, _)) => convertTime num u
  | None => (0, Some ErrorMalformedStamp)
  end.
Proof.
  unfold ParseTime. rewrite FindStringSubmatch_time.
  destruct (scan_from timeUnits stamp) as [[pre [[num u] rest]]|]; reflexivity.
Qed.

Lemma ParseMemory_scan (stamp : string) :
  ParseMemory stamp =
  match scan_from memoryUnits stamp with
  | Some (_, (num, u, _)) => convertMemory num u
  | None => (0, Some ErrorMalformedStamp)
  end.
Proof.
  unfold ParseMemory. rewrite FindStringSubmatch_memory.
  destruct (scan_from memoryUnits stamp) as [[pre [[num u] rest]]|]; reflexivity.
Qed.

(** The mantissa and the scale of a number, as [readFloat] finds them. *)
Lemma readFloat_int (ip : string) :
  ip <> "" -> all_digits ip = true ->
  strconv.readFloat ip = Some (dec_value 0 ip, O).
Proof.
  intros Hne Hd. unfold strconv.readFloat.
  rewrite <- (append_nil_r ip) at 1.
  rewrite span_digits_app by auto.
  destruct ip; [congruence | reflexivity].
Qed.

Lemma readFloat_frac (ip fp : string) :
  ip <> "" -> all_digits ip = true -> fp <> "" -> all_digits fp = true ->
  strconv.readFloat (ip ++ "." ++ fp) = Some (dec_value 0 (ip ++ fp), String.length fp).
Proof.
  intros Hne Hd Hfne Hfd. unfold strconv.readFloat.
  rewrite span_digits_app by auto. cbn [append].
  rewrite <- (append_nil_r fp) at 1.
  rewrite span_digits_app by auto.
  destruct ip; [congruence | reflexivity].
Qed.

Lemma readFloat_number (num : string) :
  number num -> exists n k, strconv.readFloat num = Some (n, k).
Proof.
  intros [ip Hne Hd | ip fp Hne Hd Hfne Hfd].
  - rewrite readFloat_int by assumption. eauto.
  - rewrite readFloat_frac by assumption. eauto.
Qed.

Lemma scan_from_single (units : list string) (num u post : string) :
  (forall t, head_ok t = false -> unit_at units t = None) ->
  (forall v p, In v units -> unit_at units (v ++ p) = Some (v, p)) ->
  number num -> In u units ->
  scan_from units (num ++ u ++ post) = Some ("", (num, u, post)).
Proof.
  intros H1 H2 Hn Hu. rewrite scan_from_eq, scan_complete by assumption.
  reflexivity.
Qed.

Lemma scan_no_digit (units : list string) (a : ascii) (s : string) :
  is_digit a = false -> scan units (String a s) = None.
Proof. intros H. unfold scan. cbn [span_digits]. now rewrite H. Qed.

Lemma scan_from_skip (units : list string) (pre s : string)
    (m : string * string * string) :
  no_digits pre = true -> scan units s = Some m ->
  scan_from units (pre ++ s) = Some (pre, m).
Proof.
  intros Hp Hs. induction pre as [|a pre IH]; cbn [append].
  - rewrite scan_from_eq, Hs. reflexivity.
  - cbn [no_digits] in Hp. apply andb_prop in Hp as [Ha Hp].
    apply negb_true_iff in Ha.
    cbn [scan_from]. rewrite scan_no_digit by assumption.
    rewrite IH by assumption. reflexivity.
Qed.

Lemma ParseTime_stamp (num u : string) :
  number num -> In u timeUnits -> ParseTime (num ++ u) = convertTime num u.
Proof.
  intros Hn Hu. rewrite ParseTime_scan.
  rewrite <- (append_nil_r u) at 1.
  rewrite (@scan_from_single timeUnits num u "" timeUnits_head timeUnits_exact)
    by assumption.
  reflexivity.
Qed.

Lemma ParseMemory_stamp (num u : string) :
  number num -> In u memoryUnits -> ParseMemory (num ++ u) = convertMemory num u.
Proof.
  intros Hn Hu. rewrite ParseMemory_scan.
  rewrite <- (append_nil_r u) at 1.
  rewrite (@scan_from_single memoryUnits num u "" memoryUnits_head memoryUnits_exact)
    by assumption.
  reflexivity.
Qed.

(** [ParseFloat] on a number never answers [ErrSyntax]. *)
Lemma ParseFloat_number (num : string) :
  number num ->
  snd (strconv.ParseFloat num) = None \/
  snd (strconv.ParseFloat num) =
    Some {| strconv.Func := "ParseFloat"; strconv.Num := num;
            strconv.Err_ := strconv.ErrRange |}.
Proof.
  intros Hn. destruct (readFloat_number Hn) as (n & k & E).
  unfold strconv.ParseFloat. rewrite E.
  destruct (math.IsInf _); cbn [snd]; auto.
Qed.

Lemma convertTime_error (num u : string) :
  number num -> stamp_error num (convertTime num u).
Proof.
  intros Hn. unfold stamp_error, convertTime.
  destruct (ParseFloat_number Hn) as [E | E];
    destruct (strconv.ParseFloat num) as [t err]; cbn [snd] in E; subst err; auto.
  destruct (u =? "ms")%string; [destruct (math.neq _ _); auto|].
  destruct (u =? "s")%string; auto.
Qed.

Lemma convertMemory_error (num u : string) :
  number num -> stamp_error num (convertMemory num u).
Proof.
  intros Hn. unfold stamp_error, convertMemory.
  destruct (ParseFloat_number Hn) as [E | E];
    destruct (strconv.ParseFloat num) as [t err]; cbn [snd] in E; subst err; auto.
  destruct (u =? "KB")%string; [destruct (math.neq _ _); auto|].
  destruct (u =? "MB")%string; auto.
  destruct (u =? "GB")%string; auto.
Qed.

Lemma stamp_error_result (num : string) (r : Z * option error) :
  number num -> stamp_error num r ->
  parse_result r /\ snd r <> Some ErrorMalformedStamp.
Proof.
  intros Hn [E | [E | E]]; rewrite E; cbn [snd]; (split; [|discriminate]);
    unfold parse_result; cbn [fst]; eauto 6.
Qed.

(** ** The errors of the parsers *)

Lemma ParseTime_errors (stamp : string) :
  parse_result (ParseTime stamp) /\
  (snd (ParseTime stamp) = Some ErrorMalformedStamp <->
   ~ contains_stamp timeUnits stamp).
Proof.
  rewrite ParseTime_scan.
  rewrite <- (@scan_from_None timeUnits timeUnits_head timeUnits_exact).
  destruct (scan_from timeUnits stamp) as [[pre [[num u] rest]]|] eqn:E.
  - apply scan_from_sound in E as (Hn & _ & _).
    destruct (stamp_error_result Hn (convertTime_error u Hn)) as [R N].
    split; [exact R|]. split; [contradiction | discriminate].
  - split; [right; left; reflexivity | tauto].
Qed.

Lemma ParseMemory_errors (stamp : string) :
  parse_result (ParseMemory stamp) /\
  (snd (ParseMemory stamp) = Some ErrorMalformedStamp <->
   ~ contains_stamp memoryUnits stamp).
Proof.
  rewrite ParseMemory_scan.
  rewrite <- (@scan_from_None memoryUnits memoryUnits_head memoryUnits_exact).
  destruct (scan_from memoryUnits stamp) as [[pre [[num u] rest]]|] eqn:E.
  - apply scan_from_sound in E as (Hn & _ & _).
    destruct (stamp_error_result Hn (convertMemory_error u Hn)) as [R N].
    split; [exact R|]. split; [contradiction | discriminate].
  - split; [right; left; reflexivity | tauto].
Qed.

(** ** The hash functions, call by call *)

Lemma length_string_of_list_byte (b : list byte) :
  String.length (string_of_list_byte b) = List.length b.
Proof.
  unfold string_of_list_byte.
  induction b as [|x b IH]; simpl; [reflexivity | now rewrite IH].
Qed.

Lemma uint32_idem (x : Z) : uint32 (uint32 x) = uint32 x.
Proof. unfold uint32. apply Z.mod_mod. lia. Qed.

Lemma uint8_idem (x : Z) : uint8 (uint8 x) = uint8 x.
Proof. unfold uint8. apply Z.mod_mod. lia. Qed.

Lemma uint32_small (x : Z) : 0 <= x < 2 ^ 32 -> uint32 x = x.
Proof. apply Z.mod_small. Qed.

Lemma uint8_small (x : Z) : 0 <= x < 2 ^ 8 -> uint8 x = x.
Proof. apply Z.mod_small. Qed.

Section Runs.

Variable W : Type.
Variable h : handler W.

(** One run of [generateHash], call by call. *)
Lemma exec_generateHash (params : argon2id.Parameters) (password : list byte) (w : W) :
  exec h (generateHash params password) w =
  let (t0, w1) := h time_Now w in
  let (r, w2) := h (argon2id_GenerateFromPassword password params) w1 in
  let (d, w3) := h (time_Since t0) w2 in
  (match snd r with
   | Some e => (emptyResultSet, Some (Argon2idError e))
   | None =>
       ({| Time := argon2id.Time params;
           Threads := argon2id.Threads params;
           Memory := argon2id.Memory params;
           Length := argon2id.Length params;
           Key := string_of_list_byte password;
           Hash := string_of_list_byte (fst r);
           Characters := len_bytes (fst r);
           Duration := d;
           Salt := string_of_list_byte (argon2id.saltBytes params) |}, None)
   end, w3,
   [Event time_Now t0;
    Event (argon2id_GenerateFromPassword password params) r;
    Event (time_Since t0) d]).
Proof.
  unfold generateHash, perform. cbn [bind exec].
  destruct (h time_Now w) as [t0 w1].
  destruct (h (argon2id_GenerateFromPassword password params) w1) as [[hash err] w2].
  cbn [bind exec].
  destruct (h (time_Since t0) w2) as [d w3].
  destruct err; reflexivity.
Qed.

Lemma exec_GenerateHash (seconds threads memory length : Z) (key : string) (w : W) :
  exec h (GenerateHash seconds threads memory length key) w =
  let c := argon2id_NewParameters (uint32 seconds) (uint32 memory)
             (uint8 threads) (uint32 length) in
  let (r, w1) := h c w in
  match snd r with
  | Some e => (emptyResultSet, Some (Argon2idError e), w1, [Event c r])
  | None =>
      let '(a, w2, t) := exec h (generateHash (fst r) (list_byte_of_string key)) w1 in
      (a, w2, Event c r :: t)
  end.
Proof.
  unfold GenerateHash, perform. cbn [bind exec]. cbv zeta.
  destruct (h _ w) as [[params err] w1].
  destruct err; reflexivity.
Qed.

Lemma exec_GenerateHashWithSalt (seconds threads memory length : Z)
    (key salt : string) (w : W) :
  exec h (GenerateHashWithSalt seconds threads memory length key salt) w =
  let c := argon2id_NewParameters (uint32 seconds) (uint32 memory)
             (uint8 threads) (uint32 length) in
  let (r, w1) := h c w in
  match snd r with
  | Some e => (emptyResultSet, Some (Argon2idError e), w1, [Event c r])
  | None =>
      let '(a, w2, t) :=
        exec h (generateHash (argon2id.withSalt (fst r) (list_byte_of_string salt))
                  (list_byte_of_string key)) w1 in
      (a, w2, Event c r :: t)
  end.
Proof.
  unfold GenerateHashWithSalt, perform. cbn [bind exec]. cbv zeta.
  destruct (h _ w) as [[params err] w1].
  destruct err; reflexivity.
Qed.

End Runs.

Section Outcomes.

Variable W : Type.
Variable h : handler W.

Lemma exec_hashCall (seconds threads memory length : Z) (key : string)
    (salt : option string) (w : W) :
  exec h (hashCall seconds threads memory length key salt) w =
  let c := argon2id_NewParameters (uint32 seconds) (uint32 memory)
             (uint8 threads) (uint32 length) in
  let (r, w1) := h c w in
  match snd r with
  | Some e => (emptyResultSet, Some (Argon2idError e), w1, [Event c r])
  | None =>
      let '(a, w2, t) :=
        exec h (generateHash (salted (fst r) salt) (list_byte_of_string key)) w1 in
      (a, w2, Event c r :: t)
  end.
Proof.
  destruct salt; [apply exec_GenerateHashWithSalt | apply exec_GenerateHash].
Qed.

(** A failing run: the empty [ResultSet], the error of the primitive, and
    one of two traces. *)
Lemma hashCall_failure (seconds threads memory length : Z) (key : string)
    (salt : option string) (w : W) (e : error) :
  snd (run h (hashCall seconds threads memory length key salt) w) = Some e ->
  fst (run h (hashCall seconds threads memory length key salt) w) = emptyResultSet /\
  exists msg, e = Argon2idError msg /\
    let c := argon2id_NewParameters (uint32 seconds) (uint32 memory)
               (uint8 threads) (uint32 length) in
    ((exists params,
        trace h (hashCall seconds threads memory length key salt) w =
        [Event c (params, Some msg)]) \/
     (exists params t0 hash d,
        trace h (hashCall seconds threads memory length key salt) w =
        [Event c (params, None);
         Event time_Now t0;
         Event (argon2id_GenerateFromPassword (list_byte_of_string key)
                  (salted params salt)) (hash, Some msg);
         Event (time_Since t0) d])).
Proof.
  unfold run, trace. rewrite exec_hashCall. cbv zeta.
  destruct (h _ w) as [[params err] w1]. cbn [fst snd].
  destruct err as [msg|].
  - cbn [fst snd]. intros H; inversion H; subst. split; [reflexivity|].
    exists msg. split; [reflexivity|]. left. exists params. reflexivity.
  - rewrite exec_generateHash.
    destruct (h time_Now w1) as [t0 w2].
    destruct (h (argon2id_GenerateFromPassword _ _) w2) as [[hash err] w3].
    destruct (h (time_Since t0) w3) as [d w4]. cbn [fst snd].
    destruct err as [msg|]; cbn [fst snd]; [|discriminate].
    intros H; inversion H; subst. split; [reflexivity|].
    exists msg. split; [reflexivity|]. right. exists params, t0, hash, d. reflexivity.
Qed.

(** A run that succeeds: what the result holds. *)
Lemma hashCall_success (seconds threads memory length : Z) (key : string)
    (salt : option string) (w : W) (rs : ResultSet) :
  run h (hashCall seconds threads memory length key salt) w = (rs, None) ->
  exists params w1 t0 w2 hash w3 d w4,
    h (argon2id_NewParameters (uint32 seconds) (uint32 memory)
         (uint8 threads) (uint32 length)) w = ((params, None), w1) /\
    h time_Now w1 = (t0, w2) /\
    h (argon2id_GenerateFromPassword (list_byte_of_string key)
         (salted params salt)) w2 = ((hash, None), w3) /\
    h (time_Since t0) w3 = (d, w4) /\
    rs = {| Time := argon2id.Time (salted params salt);
            Threads := argon2id.Threads (salted params salt);
            Memory := argon2id.Memory (salted params salt);
            Length := argon2id.Length (salted params salt);
            Key := string_of_list_byte (list_byte_of_string key);
            Hash := string_of_list_byte hash;
            Characters := len_bytes hash;
            Duration := d;
            Salt := string_of_list_byte (argon2id.saltBytes (salted params salt)) |}.
Proof.
  unfold run. rewrite exec_hashCall. cbv zeta.
  destruct (h _ w) as [[params err] w1] eqn:E1. cbn [fst snd].
  destruct err as [msg|]; [discriminate|].
  rewrite exec_generateHash.
  destruct (h time_Now w1) as [t0 w2] eqn:E2.
  destruct (h (argon2id_GenerateFromPassword _ _) w2) as [[hash err] w3] eqn:E3.
  destruct (h (time_Since t0) w3) as [d w4] eqn:E4. cbn [fst snd].
  destruct err as [msg|]; [discriminate|].
  intros H; inversion H; subst.
  exists params, w1, t0, w2, hash, w3, d, w4. auto.
Qed.

Lemma salted_fields (params : argon2id.Parameters) (salt : option string) :
  argon2id.Time (salted params salt) = argon2id.Time params /\
  argon2id.Threads (salted params salt) = argon2id.Threads params /\
  argon2id.Memory (salted params salt) = argon2id.Memory params /\
  argon2id.Length (salted params salt) = argon2id.Length params.
Proof. destruct salt; repeat split. Qed.

End Outcomes.

Lemma hashCall_terminal (W : Type) (h : handler W)
    (seconds threads memory length : Z) (key : string)
    (salt : option string) (w : W) (e : error) :
  snd (run h (hashCall seconds threads memory length key salt) w) = Some e ->
  terminal_failure h (hashCall seconds threads memory length key salt) w e.
Proof.
  intros H. apply hashCall_failure in H as (H0 & msg & -> & H).
  cbv zeta in H. unfold terminal_failure. split; [assumption|].
  destruct H as [(params & ->) | (params & t0 & hash & d & ->)].
  - repeat split; [exists msg; split; reflexivity | unfold calls; simpl; lia].
  - repeat split; [exists msg; split; reflexivity | unfold calls; simpl; lia].
Qed.

Lemma hashCall_no_error_swallowed (W : Type) (h : handler W)
    (seconds threads memory length : Z) (key : string)
    (salt : option string) (w : W) :
  snd (run h (hashCall seconds threads memory length key salt) w) = None ->
  errors_answered (trace h (hashCall seconds threads memory length key salt) w) = [].
Proof.
  unfold run, trace. rewrite exec_hashCall. cbv zeta.
  destruct (h _ (argon2id_NewParameters _ _ _ _) w) as [[params err] w1].
  cbn [fst snd].
  destruct err as [msg|]; [discriminate|].
  rewrite exec_generateHash.
  destruct (h _ time_Now w1) as [t0 w2].
  destruct (h _ (argon2id_GenerateFromPassword _ _) w2) as [[hash err] w3].
  destruct (h _ (time_Since t0) w3) as [d w4]. cbn [fst snd].
  destruct err as [msg|]; [discriminate|]. reflexivity.
Qed.

Lemma hashCall_narrowed (seconds threads memory length : Z) (key : string)
    (salt : option string) :
  hashCall seconds threads memory length key salt =
  hashCall (uint32 seconds) (uint8 threads) (uint32 memory) (uint32 length)
    key salt.
Proof.
  destruct salt; cbn [hashCall]; unfold GenerateHash, GenerateHashWithSalt;
    now rewrite !uint32_idem, uint8_idem.
Qed.

Lemma hashCall_constructor (W : Type) (h : handler W) (w : W)
    (seconds threads memory length : Z) (key : string) (salt : option string) :
  let c := argon2id_NewParameters (uint32 seconds) (uint32 memory)
             (uint8 threads) (uint32 length) in
  let p := hashCall seconds threads memory length key salt in
  hd_error (trace h p w) = Some (Event c (fst (h _ c w))) /\
  (forall msg, snd (fst (h _ c w)) = Some msg ->
     run h p w = (emptyResultSet, Some (Argon2idError msg)) /\
     calls is_GenerateFromPassword (trace h p w) = 0%nat) /\
  (snd (fst (h _ c w)) = None ->
     calls is_GenerateFromPassword (trace h p w) = 1%nat).
Proof.
  cbv zeta. unfold run, trace. rewrite exec_hashCall. cbv zeta.
  destruct (h _ (argon2id_NewParameters _ _ _ _) w) as [[params err] w1].
  cbn [fst snd]. destruct err as [msg|]; cbn [fst snd].
  - split; [reflexivity|]. split; [|discriminate].
    intros m H; inversion H; subst. split; reflexivity.
  - rewrite exec_generateHash.
    destruct (h _ time_Now w1) as [t0 w2].
    destruct (h _ (argon2id_GenerateFromPassword _ _) w2) as [[hash err] w3].
    destruct (h _ (time_Since t0) w3) as [d w4]. cbn [fst snd].
    split; [reflexivity|]. split; [discriminate|]. reflexivity.
Qed.

(** ** The simulated environment keeps the contract *)

Lemma sim_monotonic : monotonic_clock sim.handle sim.now.
Proof.
  repeat split.
  intros X c w. destruct c; cbn.
  - lia.
  - lia.
  - destruct (sim.valid time memory threads length); cbn; lia.
  - destruct (argon2id.Memory params <=? sim.free_memory w); cbn; lia.
Qed.

Lemma sim_faithful : faithful_parameters sim.handle.
Proof.
  intros t m p l w params. cbn.
  destruct (sim.valid t m p l); cbn; intros H; inversion H; subst; cbn; auto.
Qed.

Lemma sim_deterministic : deterministic_hash sim.handle.
Proof.
  intros password params w1 w2 hash1 hash2 _. cbn.
  destruct (argon2id.Memory params <=? sim.free_memory w1);
    destruct (argon2id.Memory params <=? sim.free_memory w2); cbn; congruence.
Qed.

(** ** The leftmost stamp *)

Lemma scan_from_found (units : list string) (s : string) :
  (forall t, head_ok t = false -> unit_at units t = None) ->
  (forall v p, In v units -> unit_at units (v ++ p) = Some (v, p)) ->
  contains_stamp units s ->
  exists pre num unit post,
    scan_from units s = Some (pre, (num, unit, post)) /\
    leftmost_stamp units s pre num unit post.
Proof.
  intros H1 H2 C.
  destruct (scan_from units s) as [[pre [[num u] post]]|] eqn:E.
  - exists pre, num, u, post. split; [reflexivity|].
    destruct (scan_from_sound _ _ E) as (Hn & Hu & Hs).
    repeat split; auto.
    intros pre' num' u' post' Hn' Hu' Hs'.
    exact (@scan_from_leftmost units H1 H2 s pre num u post pre' num' u' post'
             E Hn' Hu' Hs').
  - exfalso. now apply (@scan_from_complete units H1 H2 s C).
Qed.

Lemma ParseTime_leftmost (stamp : string) :
  contains_stamp timeUnits stamp ->
  exists pre num unit post,
    leftmost_stamp timeUnits stamp pre num unit post /\
    regexp.FindStringSubmatch parseTime stamp = [num ++ unit; num; unit] /\
    ParseTime stamp = ParseTime (num ++ unit) /\
    snd (ParseTime stamp) <> Some ErrorMalformedStamp.
Proof.
  intros C.
  destruct (scan_from_found timeUnits_head timeUnits_exact C)
    as (pre & num & u & post & E & L).
  exists pre, num, u, post. split; [exact L|].
  destruct L as (_ & Hn & Hu & _).
  rewrite FindStringSubmatch_time, (@ParseTime_stamp num u Hn Hu), ParseTime_scan, E.
  repeat split.
  apply (stamp_error_result Hn (convertTime_error u Hn)).
Qed.

Lemma ParseMemory_leftmost (stamp : string) :
  contains_stamp memoryUnits stamp ->
  exists pre num unit post,
    leftmost_stamp memoryUnits stamp pre num unit post /\
    regexp.FindStringSubmatch parseMemory stamp = [num ++ unit; num; unit] /\
    ParseMemory stamp = ParseMemory (num ++ unit) /\
    snd (ParseMemory stamp) <> Some ErrorMalformedStamp.
Proof.
  intros C.
  destruct (scan_from_found memoryUnits_head memoryUnits_exact C)
    as (pre & num & u & post & E & L).
  exists pre, num, u, post. split; [exact L|].
  destruct L as (_ & Hn & Hu & _).
  rewrite FindStringSubmatch_memory, (@ParseMemory_stamp num u Hn Hu),
    ParseMemory_scan, E.
  repeat split.
  apply (stamp_error_result Hn (convertMemory_error u Hn)).
Qed.

(** Text without digits before a stamp, and any text after it, is
    ignored. *)
Lemma ParseTime_surrounded (pre num unit post : string) :
  no_digits pre = true -> number num -> In unit timeUnits ->
  ParseTime (pre ++ num ++ unit ++ post) = ParseTime (num ++ unit).
Proof.
  intros Hp Hn Hu. rewrite (@ParseTime_stamp num unit Hn Hu), ParseTime_scan.
  rewrite (@scan_from_skip timeUnits pre _ (num, unit, post) Hp); [reflexivity|].
  apply scan_complete; auto using timeUnits_head, timeUnits_exact.
Qed.

Lemma ParseMemory_surrounded (pre num unit post : string) :
  no_digits pre = true -> number num -> In unit memoryUnits ->
  ParseMemory (pre ++ num ++ unit ++ post) = ParseMemory (num ++ unit).
Proof.
  intros Hp Hn Hu. rewrite (@ParseMemory_stamp num unit Hn Hu), ParseMemory_scan.
  rewrite (@scan_from_skip memoryUnits pre _ (num, unit, post) Hp); [reflexivity|].
  apply scan_complete; auto using memoryUnits_head, memoryUnits_exact.
Qed.

(** ** Binary64 numbers that are computed exactly *)

Lemma digits2_size (p : positive) : digits2_pos p = Pos.size p.
Proof. induction p; simpl; congruence. Qed.

Lemma Zdigits2_bounds (p : positive) :
  2 ^ (Zdigits2 (Zpos p) - 1) <= Zpos p < 2 ^ Zdigits2 (Zpos p).
Proof.
  cbn [Zdigits2]. rewrite digits2_size.
  pose proof (Pos.size_gt p) as G. pose proof (Pos.size_le p) as L.
  assert (Hg : Zpos p < 2 ^ Zpos (Pos.size p)).
  { change 2 with (Zpos 2). rewrite <- Pos2Z.inj_pow. exact G. }
  assert (Hl : 2 ^ Zpos (Pos.size p) <= 2 * Zpos p).
  { change 2 with (Zpos 2) at 1. rewrite <- Pos2Z.inj_pow. exact L. }
  split; [|exact Hg].
  replace (Zpos (Pos.size p)) with (Zpos (Pos.size p) - 1 + 1) in Hl by lia.
  rewrite Z.pow_add_r, Z.pow_1_r in Hl by lia. lia.
Qed.

Lemma Zdigits2_unique (n d : Z) :
  2 ^ (d - 1) <= n < 2 ^ d -> 0 < n -> Zdigits2 n = d.
Proof.
  intros [Hl Hu] Hn. destruct n as [|p|p]; try lia.
  pose proof (Zdigits2_bounds p) as [Bl Bu].
  set (k := Zdigits2 (Zpos p)) in *.
  assert (0 < k) by (subst k; cbn; lia).
  assert (0 < d).
  { destruct (Z.ltb_spec 0 d) as [|Hd]; [assumption|]. exfalso.
    destruct (Z.eq_dec d 0) as [-> | Hd0]; [simpl in Hu; lia|].
    rewrite Z.pow_neg_r in Hu by lia. lia. }
  destruct (Z.lt_trichotomy k d) as [C | [C | C]]; [|assumption|].
  - assert (2 ^ k <= 2 ^ (d - 1)) by (apply Z.pow_le_mono_r; lia). lia.
  - assert (2 ^ d <= 2 ^ (k - 1)) by (apply Z.pow_le_mono_r; lia). lia.
Qed.

Lemma Zdigits2_shift (n k : Z) :
  0 < n -> 0 <= k -> Zdigits2 (n * 2 ^ k) = Zdigits2 n + k.
Proof.
  intros Hn Hk. destruct n as [|p|p]; try lia.
  pose proof (Zdigits2_bounds p) as [Bl Bu].
  set (d := Zdigits2 (Zpos p)) in *.
  assert (0 < d) by (subst d; cbn; lia).
  assert (0 < 2 ^ k) by (apply Z.pow_pos_nonneg; lia).
  apply Zdigits2_unique; [|nia].
  replace (d + k - 1) with (d - 1 + k) by lia.
  rewrite !Z.pow_add_r by lia. nia.
Qed.

Lemma shr_1_exact (m : Z) :
  0 < m -> shr_1 (exact_record (2 * m)) = exact_record m.
Proof. destruct m; try lia. reflexivity. Qed.

Lemma iter_shr_exact (p : positive) (m : Z) :
  0 < m ->
  iter_pos shr_1 p (exact_record (m * 2 ^ Zpos p)) = exact_record m.
Proof.
  revert m. induction p as [p IH | p IH |]; intros m Hm; cbn [iter_pos].
  - assert (P : 0 < 2 ^ Zpos p) by (apply Z.pow_pos_nonneg; lia).
    replace (m * 2 ^ Zpos p~1) with (2 * ((m * 2 ^ Zpos p) * 2 ^ Zpos p)).
    + rewrite shr_1_exact by nia. rewrite IH by nia. apply IH. exact Hm.
    + replace (Zpos p~1) with (Zpos p + Zpos p + 1) by lia.
      rewrite !Z.pow_add_r, Z.pow_1_r by lia. ring.
  - assert (P : 0 < 2 ^ Zpos p) by (apply Z.pow_pos_nonneg; lia).
    replace (m * 2 ^ Zpos p~0) with ((m * 2 ^ Zpos p) * 2 ^ Zpos p).
    + rewrite IH by nia. apply IH. exact Hm.
    + replace (Zpos p~0) with (Zpos p + Zpos p) by lia.
      rewrite Z.pow_add_r by lia. ring.
  - replace (m * 2 ^ 1) with (2 * m) by lia. now apply shr_1_exact.
Qed.

(** A mantissa of 53 digits with [p] zeros behind it is rounded to
    itself. *)
Lemma round_exact (M : positive) (p e : Z) :
  Zdigits2 (Zpos M) = 53 -> 0 <= p -> -1074 <= e + p <= 971 ->
  binary_round_aux math.prec math.emax false (Zpos M * 2 ^ p) e loc_Exact =
  S754_finite false M (e + p).
Proof.
  intros HM Hp He.
  assert (Hd : Zdigits2 (Zpos M * 2 ^ p) = 53 + p).
  { rewrite Zdigits2_shift by lia. lia. }
  unfold binary_round_aux, shr_fexp. rewrite Hd.
  assert (F : fexp math.prec math.emax (53 + p + e) = e + p).
  { unfold fexp, emin, math.prec, math.emax. lia. }
  rewrite F. replace (e + p - e) with p by lia.
  change (shr_record_of_loc (Zpos M * 2 ^ p) loc_Exact)
    with (exact_record (Zpos M * 2 ^ p)).
  assert (S : shr (exact_record (Zpos M * 2 ^ p)) e p = (exact_record (Zpos M), e + p)).
  { destruct p as [|q|q]; try lia.
    - cbn [shr]. rewrite Z.pow_0_r, Z.mul_1_r, Z.add_0_r. reflexivity.
    - cbn [shr]. rewrite iter_shr_exact by lia. reflexivity. }
  rewrite S. cbn [shr_m exact_record loc_of_shr_record shr_r shr_s round_nearest_even].
  rewrite HM.
  assert (F2 : fexp math.prec math.emax (53 + (e + p)) = e + p).
  { unfold fexp, emin, math.prec, math.emax. lia. }
  rewrite F2, Z.sub_diag. cbn [shr shr_record_of_loc shr_m].
  unfold math.emax, math.prec.
  destruct (Z.leb_spec (e + p) (1024 - 53)); [reflexivity | lia].
Qed.

Lemma iter_xO (p k : positive) : Zpos (Pos.iter xO p k) = Zpos p * 2 ^ Zpos k.
Proof.
  induction k as [|k IH] using Pos.peano_ind.
  - simpl. lia.
  - rewrite Pos.iter_succ, Pos2Z.inj_xO, IH, Pos2Z.inj_succ, Z.pow_succ_r by lia.
    ring.
Qed.

Lemma digits_small (n : Z) : 0 < n < 2 ^ 53 -> 1 <= Zdigits2 n <= 53.
Proof.
  intros [Hn Hu]. destruct n as [|p|p]; try lia.
  pose proof (Zdigits2_bounds p) as [Bl _].
  set (d := Zdigits2 (Zpos p)) in *.
  assert (0 < d) by (subst d; cbn; lia).
  split; [lia|].
  destruct (Z.le_gt_cases d 53) as [|C]; [assumption|].
  assert (2 ^ 53 <= 2 ^ (d - 1)) by (apply Z.pow_le_mono_r; lia). lia.
Qed.

Lemma int_float_mantissa (n : Z) :
  0 < n < 2 ^ 53 ->
  Zpos (Z.to_pos (n * 2 ^ (53 - Zdigits2 n))) = n * 2 ^ (53 - Zdigits2 n) /\
  Zdigits2 (n * 2 ^ (53 - Zdigits2 n)) = 53.
Proof.
  intros Hn. pose proof (digits_small Hn) as Hd.
  assert (0 < 2 ^ (53 - Zdigits2 n)) by (apply Z.pow_pos_nonneg; lia).
  split; [apply Z2Pos.id; nia|].
  rewrite Zdigits2_shift by lia. lia.
Qed.

Lemma of_Z_int (n : Z) : 0 < n < 2 ^ 53 -> math.of_Z n = int_float n.
Proof.
  intros Hn. pose proof (digits_small Hn) as Hd.
  destruct (int_float_mantissa Hn) as [Hm Hdm].
  destruct n as [|p|p]; try lia.
  unfold math.of_Z, int_float. cbn [binary_normalize]. unfold binary_round.
  change (Zpos (digits2_pos p)) with (Zdigits2 (Zpos p)).
  set (d := Zdigits2 (Zpos p)) in *.
  assert (F : fexp math.prec math.emax (d + 0) = d - 53).
  { unfold fexp, emin, math.prec, math.emax. lia. }
  rewrite F. unfold shl_align.
  destruct (d - 53 - 0) as [|q|q] eqn:E; try lia.
  - replace (53 - d) with 0 in * by lia. rewrite Z.pow_0_r, Z.mul_1_r in *.
    replace (Zpos p) with (Zpos p * 2 ^ 0) at 1 by (rewrite Z.pow_0_r; lia).
    rewrite round_exact by (try lia; exact Hdm).
    rewrite Pos2Z.id. f_equal. lia.
  - assert (Hq : Zpos q = 53 - d) by lia.
    assert (Hi : Pos.iter xO p q = Z.to_pos (Zpos p * 2 ^ (53 - d))).
    { apply Pos2Z.inj. rewrite iter_xO, Hm, Hq. reflexivity. }
    rewrite Hi.
    replace (Zpos (Z.to_pos (Zpos p * 2 ^ (53 - d))))
      with (Zpos (Z.to_pos (Zpos p * 2 ^ (53 - d))) * 2 ^ 0)
      by (rewrite Z.pow_0_r; lia).
    rewrite round_exact; [f_equal; lia | rewrite Hm; exact Hdm | lia | lia].
Qed.





Lemma neq_refl_finite (s : bool) (m : positive) (e : Z) :
  math.neq (S754_finite s m e) (S754_finite s m e) = false.
Proof.
  unfold math.neq, SFeqb. cbn [SFcompare].
  rewrite Z.compare_refl.
  assert (Pos.compare_cont Eq m m = Eq) as -> by apply Pos.compare_cont_refl.
  destruct s; reflexivity.
Qed.


(** ** Integers below [2^53] go through the parsers unchanged *)





Lemma digit_val_nonneg (c : ascii) : is_digit c = true -> 0 <= digit_val c <= 9.
Proof.
  unfold is_digit, digit_val. intros H. apply andb_prop in H as [H1 H2].
  apply N.leb_le in H1, H2. lia.
Qed.

Lemma dec_value_nonneg (s : string) (acc : Z) :
  all_digits s = true -> 0 <= acc -> 0 <= dec_value acc s.
Proof.
  revert acc. induction s as [|c s IH]; intros acc H Ha; cbn [dec_value]; [assumption|].
  cbn [all_digits] in H. apply andb_prop in H as [Hc Hs].
  apply IH; [assumption|]. pose proof (digit_val_nonneg c Hc). lia.
Qed.








(** ** Every number within the range of binary64 *)

Lemma ParseTime_number_s (num : string) (f : math.float64) :
  number num -> strconv.ParseFloat num = (f, None) ->
  ParseTime (num ++ "s") = (math.int (math.mul f (math.of_Z 1000)), None).
Proof.
  intros Hn Hf. rewrite (@ParseTime_stamp num "s" Hn) by (simpl; auto).
  unfold convertTime. rewrite Hf. reflexivity.
Qed.

Lemma ParseTime_number_ms (num : string) (f : math.float64) :
  number num -> strconv.ParseFloat num = (f, None) ->
  ParseTime (num ++ "ms") =
  if math.neq (math.Trunc f) f then (0, Some ErrorSplitAtomic)
  else (math.int f, None).
Proof.
  intros Hn Hf. rewrite (@ParseTime_stamp num "ms" Hn) by (simpl; auto).
  unfold convertTime. rewrite Hf. reflexivity.
Qed.

Lemma ParseMemory_number_KB (num : string) (f : math.float64) :
  number num -> strconv.ParseFloat num = (f, None) ->
  ParseMemory (num ++ "KB") =
  if math.neq (math.Trunc f) f then (0, Some ErrorSplitAtomic)
  else (math.int f, None).
Proof.
  intros Hn Hf. rewrite (@ParseMemory_stamp num "KB" Hn) by (simpl; auto).
  unfold convertMemory. rewrite Hf. reflexivity.
Qed.

Lemma ParseMemory_number_MB (num : string) (f : math.float64) :
  number num -> strconv.ParseFloat num = (f, None) ->
  ParseMemory (num ++ "MB") = (math.int (math.mul f (math.of_Z 1024)), None).
Proof.
  intros Hn Hf. rewrite (@ParseMemory_stamp num "MB" Hn) by (simpl; auto).
  unfold convertMemory. rewrite Hf. reflexivity.
Qed.

Lemma ParseMemory_number_GB (num : string) (f : math.float64) :
  number num -> strconv.ParseFloat num = (f, None) ->
  ParseMemory (num ++ "GB") =
  (math.int (math.mul (math.mul f (math.of_Z 1024)) (math.of_Z 1024)), None).
Proof.
  intros Hn Hf. rewrite (@ParseMemory_stamp num "GB" Hn) by (simpl; auto).
  unfold convertMemory. rewrite Hf. reflexivity.
Qed.


(** ** Decimals that are binary64 numbers *)

Lemma pow2_lt_inv (a b : Z) : 0 <= b -> 2 ^ a < 2 ^ b -> a < b.
Proof.
  intros Hb H. destruct (Z.lt_ge_cases a b) as [|C]; [assumption|].
  assert (2 ^ b <= 2 ^ a) by (apply Z.pow_le_mono_r; lia). lia.
Qed.

Lemma div_eucl_exact (q d : Z) : 0 < d -> Z.div_eucl (q * d) d = (q, 0).
Proof.
  intros Hd.
  pose proof (Z.div_mul q d ltac:(lia)) as Q.
  pose proof (Z.mod_mul q d ltac:(lia)) as R.
  unfold Z.div, Z.modulo in Q, R.
  destruct (Z.div_eucl (q * d) d) as [x y]. congruence.
Qed.

Lemma new_location_exact (d : Z) : new_location d 0 = loc_Exact.
Proof. unfold new_location. destruct (Z.even d); reflexivity. Qed.

(** [N / D] is the binary64 number [M * 2^(-a)]: the division finds it. *)
Lemma of_ratio_exact (N D : Z) (M : positive) (a : Z) :
  0 < N -> 0 < D -> Zdigits2 (Zpos M) = 53 -> 0 <= a <= 1074 ->
  N * 2 ^ a = Zpos M * D ->
  math.of_ratio N D = S754_finite false M (- a).
Proof.
  intros HN HD HM Ha Hv.
  destruct N as [|pn|pn]; try lia. destruct D as [|pd|pd]; try lia.
  pose proof (Zdigits2_bounds pn) as [N1 N2].
  pose proof (Zdigits2_bounds pd) as [D1 D2].
  pose proof (Zdigits2_bounds M) as [M1 M2]. rewrite HM in M1, M2.
  change (53 - 1) with 52 in M1.
  set (d1 := Zdigits2 (Zpos pn)) in *. set (d2 := Zdigits2 (Zpos pd)) in *.
  assert (P1 : 0 < d1) by (subst d1; cbn; lia).
  assert (P2 : 0 < d2) by (subst d2; cbn; lia).
  assert (Pa : 0 < 2 ^ a) by (apply Z.pow_pos_nonneg; lia).
  assert (Pd : 0 < 2 ^ (d2 - 1)) by (apply Z.pow_pos_nonneg; lia).
  assert (Lo : 52 - a <= d1 - d2).
  { assert (2 ^ (51 + d2) < 2 ^ (d1 + a)).
    { replace (51 + d2) with (52 + (d2 - 1)) by lia.
      rewrite !Z.pow_add_r by lia. nia. }
    apply pow2_lt_inv in H; lia. }
  assert (Hi : d1 - d2 <= 53 - a).
  { assert (2 ^ (d1 - 1 + a) < 2 ^ (53 + d2)).
    { rewrite !Z.pow_add_r by lia. nia. }
    apply pow2_lt_inv in H; lia. }
  unfold math.of_ratio, SFdiv_core_binary. fold d1 d2.
  set (e' := Z.min (fexp math.prec math.emax (d1 + 0 - (d2 + 0))) (0 - 0)).
  assert (He : e' = - a \/ e' = - a - 1).
  { subst e'. unfold fexp, emin, math.prec, math.emax. lia. }
  assert (Hs : 0 - 0 - e' = a + (- a - e')) by lia.
  assert (Hp : 0 <= - a - e' <= 1) by lia.
  assert (Hm : match 0 - 0 - e' with
               | Zpos _ => Z.shiftl (Zpos pn) (0 - 0 - e')
               | Z0 => Zpos pn
               | Zneg _ => 0
               end = Zpos M * 2 ^ (- a - e') * Zpos pd).
  { assert (Zpos pn * 2 ^ (0 - 0 - e') = Zpos M * 2 ^ (- a - e') * Zpos pd).
    { rewrite Hs, Z.pow_add_r by lia. rewrite Z.mul_assoc, Hv. ring. }
    destruct (0 - 0 - e') as [|q|q] eqn:E; try lia.
    rewrite Z.shiftl_mul_pow2 by lia. exact H. }
  rewrite Hm, div_eucl_exact, new_location_exact by lia.
  rewrite round_exact by (try assumption; lia).
  f_equal. lia.
Qed.

Lemma compare_cont_Eq (m1 m2 : positive) :
  Pos.compare_cont Eq m1 m2 = Eq -> m1 = m2.
Proof. apply Pos.compare_eq. Qed.

Lemma neq_finite (m1 m2 : positive) (e1 e2 : Z) :
  math.neq (S754_finite false m1 e1) (S754_finite false m2 e2) = false ->
  m1 = m2 /\ e1 = e2.
Proof.
  unfold math.neq, SFeqb. cbn [SFcompare].
  destruct (Z.compare_spec e1 e2); try discriminate.
  destruct (Pos.compare_cont Eq m1 m2) eqn:C; try discriminate.
  apply compare_cont_Eq in C. auto.
Qed.

(** [math.Trunc(x) != x] tells whether [x = M * 2^(-a)] is an integer. *)
Lemma Trunc_test (M : positive) (a : Z) :
  Zdigits2 (Zpos M) = 53 -> 0 <= a ->
  math.neq (math.Trunc (S754_finite false M (- a))) (S754_finite false M (- a)) =
  negb (Zpos M mod 2 ^ a =? 0).
Proof.
  intros HM Ha.
  pose proof (Zdigits2_bounds M) as [M1 M2]. rewrite HM in M1, M2.
  change (53 - 1) with 52 in M1.
  assert (Pa : 0 < 2 ^ a) by (apply Z.pow_pos_nonneg; lia).
  destruct (Z.eq_dec a 0) as [-> | Ha0].
  { rewrite Z.pow_0_r, Z.mod_1_r. cbn [math.Trunc Z.opp Z.leb Z.compare].
    apply neq_refl_finite. }
  unfold math.Trunc.
  destruct (Z.leb_spec 0 (- a)); [lia|].
  cbn [cond_Zopp]. rewrite Z.opp_involutive, Z.shiftr_div_pow2 by lia.
  pose proof (Z.div_mod (Zpos M) (2 ^ a) ltac:(lia)) as DM.
  pose proof (Z.mod_pos_bound (Zpos M) (2 ^ a) Pa) as RB.
  pose proof (Z.div_pos (Zpos M) (2 ^ a) ltac:(lia) Pa) as Q0.
  set (q := Zpos M / 2 ^ a) in *. set (r := Zpos M mod 2 ^ a) in *.
  change (binary_normalize math.prec math.emax q 0 false) with (math.of_Z q).
  assert (Qu : q < 2 ^ 53) by nia.
  destruct (Z.eqb_spec r 0) as [R0 | R0]; cbn [negb].
  - (* an integer *)
    assert (Hq : 0 < q) by nia.
    rewrite of_Z_int by lia. unfold int_float.
    assert (Dq : Zdigits2 q + a = 53).
    { rewrite <- HM, <- Zdigits2_shift by lia. f_equal. lia. }
    replace (53 - Zdigits2 q) with a by lia.
    replace (Zdigits2 q - 53) with (- a) by lia.
    replace (q * 2 ^ a) with (Zpos M) by lia.
    rewrite Pos2Z.id. apply neq_refl_finite.
  - (* a fraction *)
    destruct (Z.eq_dec q 0) as [Hq0 | Hq0].
    + rewrite Hq0. reflexivity.
    + rewrite of_Z_int by lia. unfold int_float.
      destruct (math.neq _ _) eqn:E; [reflexivity|].
      apply neq_finite in E as [Em Ee]. exfalso.
      pose proof (int_float_mantissa (n:=q) ltac:(lia)) as [Hm _].
      rewrite Em in Hm.
      replace (53 - Zdigits2 q) with a in Hm by lia. lia.
Qed.

Lemma int_finite (M : positive) (a : Z) :
  Zdigits2 (Zpos M) = 53 -> 0 <= a ->
  math.int (S754_finite false M (- a)) = Zpos M / 2 ^ a.
Proof.
  intros HM Ha.
  pose proof (Zdigits2_bounds M) as [M1 M2]. rewrite HM in M1, M2.
  assert (Pa : 0 < 2 ^ a) by (apply Z.pow_pos_nonneg; lia).
  pose proof (Z.div_pos (Zpos M) (2 ^ a) ltac:(lia) Pa) as Q0.
  assert (Qu : Zpos M / 2 ^ a <= Zpos M).
  { apply Z.div_le_upper_bound; nia. }
  unfold math.int, math.int_part. cbn [cond_Zopp].
  assert (V : (if 0 <=? - a then Z.shiftl (Zpos M) (- a)
               else Z.shiftr (Zpos M) (- - a)) = Zpos M / 2 ^ a).
  { destruct (Z.leb_spec 0 (- a)).
    - replace a with 0 by lia. rewrite Z.pow_0_r, Z.div_1_r. reflexivity.
    - rewrite Z.opp_involutive, Z.shiftr_div_pow2 by lia. reflexivity. }
  rewrite V. unfold math.minInt64, math.maxInt64.
  destruct (Z.leb_spec (- 2 ^ 63) (Zpos M / 2 ^ a)); [|lia].
  destruct (Z.leb_spec (Zpos M / 2 ^ a) (2 ^ 63 - 1)); [reflexivity|lia].
Qed.

Lemma div_cross (x y A B : Z) :
  0 < A -> 0 < B -> x * B = y * A -> x / A = y / B.
Proof.
  intros HA HB H.
  rewrite <- (Z.div_mul_cancel_r x A B) by lia.
  rewrite H, (Z.mul_comm A B).
  apply Z.div_mul_cancel_r; lia.
Qed.

Lemma mod_cross (x y A B : Z) :
  0 < A -> 0 < B -> x * B = y * A -> (x mod A =? 0) = (y mod B =? 0).
Proof.
  intros HA HB H.
  destruct (Z.eqb_spec (x mod A) 0) as [E | E];
    destruct (Z.eqb_spec (y mod B) 0) as [F | F]; try reflexivity; exfalso.
  - apply F. apply Z.mod_divide in E as [c Hc]; [|lia]. subst x.
    apply Z.mod_divide; [lia|]. exists c. nia.
  - apply E. apply Z.mod_divide in F as [c Hc]; [|lia]. subst y.
    apply Z.mod_divide; [lia|]. exists c. nia.
Qed.

Lemma ParseFloat_exact (num : string) (n : Z) (k : nat) (M : positive) (a : Z) :
  strconv.readFloat num = Some (n, k) -> 0 < n ->
  Zdigits2 (Zpos M) = 53 -> 0 <= a <= 1074 ->
  n * 2 ^ a = Zpos M * 10 ^ Z.of_nat k ->
  strconv.ParseFloat num = (S754_finite false M (- a), None).
Proof.
  intros Hr Hn HM Ha Hv. unfold strconv.ParseFloat. rewrite Hr.
  assert (0 < 10 ^ Z.of_nat k) by (apply Z.pow_pos_nonneg; lia).
  rewrite (@of_ratio_exact n (10 ^ Z.of_nat k) M a) by assumption.
  reflexivity.
Qed.




Lemma exact_fraction (num : string) (n : Z) (k : nat) (M : positive) (a : Z) :
  strconv.readFloat num = Some (n, k) -> 0 <= a ->
  n * 2 ^ a = Zpos M * 10 ^ Z.of_nat k ->
  has_fraction num = negb (Zpos M mod 2 ^ a =? 0).
Proof.
  intros Hr Ha Hv. unfold has_fraction. rewrite Hr. f_equal.
  apply mod_cross; [apply Z.pow_pos_nonneg; lia | apply Z.pow_pos_nonneg; lia|].
  exact Hv.
Qed.

Lemma scaled_unfold (num : string) (n : Z) (k : nat) (factor : Z) :
  strconv.readFloat num = Some (n, k) ->
  round_toward_zero_scaled num factor = (n * factor) / 10 ^ Z.of_nat k.
Proof. intros Hr. unfold round_toward_zero_scaled. now rewrite Hr. Qed.

Lemma atomic_exact (num : string) :
  binary64_exact num ->
  exists f, strconv.ParseFloat num = (f, None) /\
    (if math.neq (math.Trunc f) f then (0, Some ErrorSplitAtomic)
     else (math.int f, None)) =
    (if has_fraction num then (0, Some ErrorSplitAtomic)
     else (round_toward_zero_scaled num 1, None)).
Proof.
  intros (n & k & M & a & Hr & Hn & HM & Ha & Hv).
  exists (S754_finite false M (- a)).
  split; [exact (@ParseFloat_exact num n k M a Hr Hn HM Ha Hv)|].
  rewrite Trunc_test by (try assumption; lia).
  rewrite (@exact_fraction num n k M a Hr (proj1 Ha) Hv).
  destruct (Zpos M mod 2 ^ a =? 0); cbn [negb]; [|reflexivity].
  rewrite (@scaled_unfold num n k 1 Hr).
  pose proof (Zdigits2_bounds M) as [_ M2]. rewrite HM in M2.
  assert (P10 : 0 < 10 ^ Z.of_nat k) by (apply Z.pow_pos_nonneg; lia).
  assert (Pa : 0 < 2 ^ a) by (apply Z.pow_pos_nonneg; lia).
  assert (Q : n * 1 / 10 ^ Z.of_nat k = Zpos M / 2 ^ a).
  { rewrite Z.mul_1_r. now apply div_cross. }
  f_equal. rewrite Q. apply int_finite; [assumption | lia].
Qed.





(** ** Decimals whose denominator is a power of two *)


Lemma dyadic_exact (num : string) (c j : Z) :
  dyadic num c j -> c < 2 ^ 53 -> binary64_exact num.
Proof.
  intros (n & k & Hr & Hc & Hj & Hv) Hu.
  pose proof (digits_small (n:=c) ltac:(lia)) as Hd.
  destruct (int_float_mantissa (n:=c) ltac:(lia)) as [Hm Hdm].
  assert (P10 : 0 < 10 ^ Z.of_nat k) by (apply Z.pow_pos_nonneg; lia).
  assert (Pj : 0 < 2 ^ j) by (apply Z.pow_pos_nonneg; lia).
  exists n, k, (Z.to_pos (c * 2 ^ (53 - Zdigits2 c))), (j + (53 - Zdigits2 c)).
  split; [exact Hr|]. split; [nia|]. split; [rewrite Hm; exact Hdm|].
  split; [lia|].
  rewrite Hm, Z.pow_add_r, Z.mul_assoc, Hv by lia. ring.
Qed.







(** An integer is its own value over [2^0]. *)
Lemma dyadic_integer (ds : string) :
  ds <> "" -> all_digits ds = true -> 0 < dec_value 0 ds ->
  dyadic ds (dec_value 0 ds) 0.
Proof.
  intros Hne Hd Hp. exists (dec_value 0 ds), O.
  rewrite readFloat_int by assumption. repeat split; try lia.
Qed.

(** ** Numbers that are rounded to an infinity *)

Lemma shr_1_half (r : shr_record) :
  0 <= shr_m r -> shr_m (shr_1 r) = shr_m r / 2.
Proof.
  destruct r as [m b s]. cbn [shr_m]. intros Hm.
  destruct m as [|[p|p|]|p]; try lia; cbn [shr_1 shr_m].
  - reflexivity.
  - rewrite Pos2Z.inj_xI. apply Z.div_unique with (r := 1); lia.
  - rewrite Pos2Z.inj_xO. apply Z.div_unique with (r := 0); lia.
  - reflexivity.
Qed.

Lemma iter_shr_half (p : positive) (r : shr_record) :
  0 <= shr_m r ->
  shr_m (iter_pos shr_1 p r) = shr_m r / 2 ^ Zpos p.
Proof.
  revert r. induction p as [p IH | p IH |]; intros r Hr; cbn [iter_pos].
  - assert (P : 0 < 2 ^ Zpos p) by (apply Z.pow_pos_nonneg; lia).
    assert (H0 : 0 <= shr_m (shr_1 r)).
    { rewrite shr_1_half by assumption. apply Z.div_pos; lia. }
    assert (H1 : 0 <= shr_m (iter_pos shr_1 p (shr_1 r))).
    { rewrite IH by assumption. apply Z.div_pos; lia. }
    rewrite IH, IH, shr_1_half by assumption.
    rewrite !Z.div_div by lia.
    replace (Zpos p~1) with (1 + Zpos p + Zpos p) by lia.
    rewrite !Z.pow_add_r, Z.pow_1_r by lia. f_equal. ring.
  - assert (P : 0 < 2 ^ Zpos p) by (apply Z.pow_pos_nonneg; lia).
    assert (H1 : 0 <= shr_m (iter_pos shr_1 p r)).
    { rewrite IH by assumption. apply Z.div_pos; lia. }
    rewrite IH, IH by assumption.
    rewrite !Z.div_div by lia.
    replace (Zpos p~0) with (Zpos p + Zpos p) by lia.
    rewrite !Z.pow_add_r by lia. f_equal.
  - rewrite shr_1_half by assumption. reflexivity.
Qed.

Lemma shr_m_of_loc (m : Z) (l : location) : shr_m (shr_record_of_loc m l) = m.
Proof. destruct l as [|[]]; reflexivity. Qed.

(** [shr_fexp]: the mantissa is divided by the power of two the exponent
    is raised by. *)
Lemma shr_fexp_spec (m e : Z) (l : location) :
  0 <= m ->
  let e1 := Z.max e (fexp math.prec math.emax (Zdigits2 m + e)) in
  snd (shr_fexp math.prec math.emax m e l) = e1 /\
  shr_m (fst (shr_fexp math.prec math.emax m e l)) = m / 2 ^ (e1 - e).
Proof.
  intros Hm. cbv zeta. unfold shr_fexp.
  set (f := fexp math.prec math.emax (Zdigits2 m + e)).
  destruct (f - e) as [|p|p] eqn:E; cbn [shr fst snd].
  - rewrite shr_m_of_loc. replace (Z.max e f) with e by lia.
    rewrite Z.sub_diag, Z.pow_0_r, Z.div_1_r. split; [reflexivity|lia].
  - rewrite iter_shr_half by (rewrite shr_m_of_loc; assumption).
    rewrite shr_m_of_loc. replace (Z.max e f) with (e + Zpos p) by lia.
    replace (e + Zpos p - e) with (Zpos p) by lia. split; reflexivity.
  - rewrite shr_m_of_loc. replace (Z.max e f) with e by lia.
    rewrite Z.sub_diag, Z.pow_0_r, Z.div_1_r. split; [reflexivity|lia].
Qed.

Lemma round_nearest_even_bounds (m : Z) (l : location) :
  m <= round_nearest_even m l <= m + 1.
Proof.
  destruct l as [|[]]; cbn [round_nearest_even]; try lia.
  destruct (Z.even m); lia.
Qed.

Lemma Zdigits2_le (m k : Z) : 0 <= k -> 0 <= m < 2 ^ k -> Zdigits2 m <= k.
Proof.
  intros Hk [H0 H1]. destruct m as [|p|p]; try lia; [cbn; lia|].
  pose proof (Zdigits2_bounds p) as [Bl _].
  set (d := Zdigits2 (Zpos p)) in *.
  destruct (Z.le_gt_cases d k) as [|C]; [assumption|].
  assert (2 ^ k <= 2 ^ (d - 1)) by (apply Z.pow_le_mono_r; lia). lia.
Qed.

(** Below [2^1023] nothing is rounded to an infinity. *)
Lemma round_finite (m e : Z) (l : location) :
  0 <= m -> e <= 970 -> m < 2 ^ (1023 - e) ->
  math.IsInf (binary_round_aux math.prec math.emax false m e l) = false.
Proof.
  intros Hm He Hu. unfold binary_round_aux.
  pose proof (@shr_fexp_spec m e l Hm) as S1. cbv zeta in S1.
  destruct (shr_fexp math.prec math.emax m e l) as [r1 e1].
  cbn [fst snd] in S1. destruct S1 as [E1 M1]. rewrite <- E1 in M1.
  pose proof (Zdigits2_le (m:=m) (k:=1023 - e) ltac:(lia) ltac:(lia)) as D.
  assert (B1 : e <= e1 <= 970).
  { rewrite E1. unfold fexp, emin, math.prec, math.emax. lia. }
  assert (P1 : 0 < 2 ^ (e1 - e)) by (apply Z.pow_pos_nonneg; lia).
  assert (U1 : 0 <= shr_m r1 < 2 ^ (1023 - e1)).
  { rewrite M1. split; [apply Z.div_pos; lia|].
    apply Z.div_lt_upper_bound; [lia|].
    rewrite <- Z.pow_add_r by lia.
    replace (e1 - e + (1023 - e1)) with (1023 - e) by lia. exact Hu. }
  pose proof (round_nearest_even_bounds (shr_m r1) (loc_of_shr_record r1)) as R.
  set (m2 := round_nearest_even (shr_m r1) (loc_of_shr_record r1)) in *.
  assert (U2 : 0 <= m2 < 2 ^ (1024 - e1)).
  { split; [lia|]. replace (1024 - e1) with (1023 - e1 + 1) by lia.
    rewrite Z.pow_add_r, Z.pow_1_r by lia.
    assert (0 < 2 ^ (1023 - e1)) by (apply Z.pow_pos_nonneg; lia). lia. }
  pose proof (@shr_fexp_spec m2 e1 loc_Exact (proj1 U2)) as S2. cbv zeta in S2.
  destruct (shr_fexp math.prec math.emax m2 e1 loc_Exact) as [r2 e2].
  cbn [fst snd] in S2. destruct S2 as [E2 _].
  pose proof (Zdigits2_le (m:=m2) (k:=1024 - e1) ltac:(lia) U2) as D2.
  assert (B2 : e2 <= 971).
  { rewrite E2. unfold fexp, emin, math.prec, math.emax. lia. }
  destruct (shr_m r2) as [|p|p]; try reflexivity.
  unfold math.emax, math.prec.
  destruct (Z.leb_spec e2 (1024 - 53)); [reflexivity | lia].
Qed.

(** A quotient below [2^1023] is a finite binary64 number. *)
Lemma of_ratio_finite (n d : Z) :
  0 < n -> 0 < d -> n < 2 ^ 1023 * d ->
  math.IsInf (math.of_ratio n d) = false.
Proof.
  intros Hn Hd Hu. unfold math.of_ratio.
  destruct n as [|pn|pn]; try lia.
  unfold SFdiv_core_binary.
  set (e' := Z.min _ _).
  assert (He : e' <= 0) by (subst e'; lia).
  replace (0 - 0 - e') with (- e') by lia.
  set (m' := match - e' with Z0 => Zpos pn | Zpos _ => Z.shiftl (Zpos pn) (- e')
             | Zneg _ => 0 end).
  assert (Hm : m' = Zpos pn * 2 ^ (- e')).
  { subst m'. destruct (- e') as [|p|p] eqn:E; try lia.
    rewrite Z.shiftl_mul_pow2 by lia. reflexivity. }
  assert (P : 0 < 2 ^ (- e')) by (apply Z.pow_pos_nonneg; lia).
  pose proof (Z.div_mod m' d ltac:(lia)) as DM.
  pose proof (Z.mod_pos_bound m' d Hd) as MB.
  unfold Z.div, Z.modulo in DM, MB.
  destruct (Z.div_eucl m' d) as [q r].
  apply round_finite; try lia.
  - rewrite Hm in DM. nia.
  - replace (1023 - e') with (1023 + - e') by lia.
    rewrite Z.pow_add_r by lia. rewrite Hm in DM. nia.
Qed.

Lemma all_digits_app (s t : string) :
  all_digits (s ++ t) = all_digits s && all_digits t.
Proof.
  induction s as [|a s IH]; cbn [append all_digits]; [reflexivity|].
  rewrite IH. now rewrite andb_assoc.
Qed.

Lemma div_sandwich (x y : Z) : 0 < y -> x / y * y <= x < (x / y + 1) * y.
Proof.
  intros Hy. pose proof (Z.div_mod x y ltac:(lia)).
  pose proof (Z.mod_pos_bound x y Hy). nia.
Qed.

Lemma readFloat_nonneg (num : string) (n : Z) (k : nat) :
  number num -> strconv.readFloat num = Some (n, k) -> 0 <= n.
Proof.
  intros Hnum Hr. destruct Hnum as [ip Hne Hdg | ip fp Hne Hdg Hfne Hfd].
  - rewrite readFloat_int in Hr by assumption. inversion Hr.
    now apply dec_value_nonneg.
  - rewrite readFloat_frac in Hr by assumption. inversion Hr.
    apply dec_value_nonneg; [|lia].
    rewrite all_digits_app, Hdg, Hfd. reflexivity.
Qed.

(** The bit that is shifted out last is the round bit. *)
Lemma shr_1_round (r : shr_record) :
  0 <= shr_m r -> shr_r (shr_1 r) = Z.testbit (shr_m r) 0.
Proof.
  destruct r as [m b s]. cbn [shr_m]. intros Hm.
  destruct m as [|[p|p|]|p]; try lia; reflexivity.
Qed.

Lemma shr_m_nonneg (p : positive) (r : shr_record) :
  0 <= shr_m r -> 0 <= shr_m (iter_pos shr_1 p r).
Proof.
  intros H. rewrite iter_shr_half by assumption.
  apply Z.div_pos; [assumption | apply Z.pow_pos_nonneg; lia].
Qed.

(** The round bit after [p] shifts is the bit [p - 1] of the mantissa. *)
Lemma iter_shr_round (p : positive) (r : shr_record) :
  0 <= shr_m r ->
  shr_r (iter_pos shr_1 p r) = Z.testbit (shr_m r) (Zpos p - 1).
Proof.
  revert r. induction p as [p IH | p IH |]; intros r Hr; cbn [iter_pos].
  - assert (H0 : 0 <= shr_m (shr_1 r)).
    { rewrite shr_1_half by assumption. apply Z.div_pos; lia. }
    rewrite IH by (apply shr_m_nonneg; assumption).
    rewrite iter_shr_half, shr_1_half by assumption.
    rewrite Z.div_div by (try apply Z.pow_pos_nonneg; lia).
    replace (2 * 2 ^ Zpos p) with (2 ^ (Zpos p + 1))
      by (rewrite Z.pow_add_r, Z.pow_1_r by lia; ring).
    rewrite Z.div_pow2_bits by lia. f_equal. lia.
  - rewrite IH by (apply shr_m_nonneg; assumption).
    rewrite iter_shr_half by assumption.
    rewrite Z.div_pow2_bits by lia. f_equal. lia.
  - rewrite shr_1_round by assumption. reflexivity.
Qed.

Lemma round_up_odd (m : Z) (r : shr_record) :
  Z.odd m = true -> shr_m r = m ->
  round_nearest_even m (loc_of_shr_record r) = if shr_r r then m + 1 else m.
Proof.
  intros Ho _. destruct r as [x [|] [|]];
    cbn [loc_of_shr_record shr_r round_nearest_even]; try reflexivity.
  rewrite <- Z.negb_odd, Ho. reflexivity.
Qed.

Lemma Zdigits2_ge (m k : Z) : 0 <= k -> 2 ^ k <= m -> k + 1 <= Zdigits2 m.
Proof.
  intros Hk H. assert (0 < 2 ^ k) by (apply Z.pow_pos_nonneg; lia).
  destruct m as [|p|p]; try lia.
  pose proof (Zdigits2_bounds p) as [_ Bu].
  set (d := Zdigits2 (Zpos p)) in *.
  assert (0 < d) by (subst d; cbn; lia).
  assert (2 ^ k < 2 ^ d) by lia.
  apply pow2_lt_inv in H2; lia.
Qed.

(** From [2^1023] on: the quotient is cut to 53 bits, and the result is
    an infinity when the exponent left is above 971. *)
Lemma round_large (q : Z) (l : location) :
  2 ^ 1023 <= q ->
  math.IsInf (binary_round_aux math.prec math.emax false q 0 l) =
  (2 ^ 1024 - 2 ^ 970 <=? q).
Proof.
  intros Hq.
  assert (P1023 : 0 < 2 ^ 1023) by (apply Z.pow_pos_nonneg; lia).
  assert (Hq0 : 0 < q) by lia.
  pose proof (@Zdigits2_ge q 1023 ltac:(lia) Hq) as Dq.
  destruct q as [|pq|pq]; try lia.
  pose proof (Zdigits2_bounds pq) as [Bl Bu].
  set (q := Zpos pq) in *. set (dq := Zdigits2 q) in *.
  set (k := dq - 53).
  assert (Fk : fexp math.prec math.emax (dq + 0) - 0 = k).
  { unfold fexp, emin, math.prec, math.emax. subst k. lia. }
  unfold binary_round_aux, shr_fexp. fold dq. rewrite Fk.
  assert (Hk : 971 <= k) by (subst k; lia).
  destruct k as [|pk|pk] eqn:Ek; try lia. cbn [shr].
  set (r0 := shr_record_of_loc q l).
  assert (R0 : shr_m r0 = q) by apply shr_m_of_loc.
  assert (M1 : shr_m (iter_pos shr_1 pk r0) = q / 2 ^ Zpos pk).
  { rewrite iter_shr_half by (rewrite R0; lia). now rewrite R0. }
  assert (B1 : shr_r (iter_pos shr_1 pk r0) = Z.testbit q (Zpos pk - 1)).
  { rewrite iter_shr_round by (rewrite R0; lia). now rewrite R0. }
  set (r1 := iter_pos shr_1 pk r0) in *.
  assert (Pk : 0 < 2 ^ Zpos pk) by (apply Z.pow_pos_nonneg; lia).
  assert (Hm1 : 2 ^ 52 <= shr_m r1 < 2 ^ 53).
  { rewrite M1. split.
    - apply Z.div_le_lower_bound; [lia|].
      rewrite <- Z.pow_add_r by lia.
      replace (Zpos pk + 52) with (dq - 1) by lia. exact Bl.
    - apply Z.div_lt_upper_bound; [lia|].
      rewrite <- Z.pow_add_r by lia.
      replace (Zpos pk + 53) with dq by lia. exact Bu. }
  pose proof (round_nearest_even_bounds (shr_m r1) (loc_of_shr_record r1)) as R.
  set (m2 := round_nearest_even (shr_m r1) (loc_of_shr_record r1)) in *.
  pose proof (@shr_fexp_spec m2 (0 + Zpos pk) loc_Exact ltac:(lia)) as S2.
  cbv zeta in S2. unfold shr_fexp in S2.
  destruct (shr (shr_record_of_loc m2 loc_Exact) (0 + Zpos pk)
              (fexp math.prec math.emax (Zdigits2 m2 + (0 + Zpos pk))
               - (0 + Zpos pk))) as [r2 e2].
  cbn [fst snd] in S2. destruct S2 as [E2 M2]. rewrite <- E2 in M2.
  assert (T52 : 0 < 2 ^ 52) by (apply Z.pow_pos_nonneg; lia).
  assert (T53 : 2 ^ 53 = 2 * 2 ^ 52).
  { change 53 with (1 + 52). rewrite Z.pow_add_r by lia. reflexivity. }
  destruct (Z.eq_dec m2 (2 ^ 53)) as [Top | NTop].
  - (* the mantissa is carried to [2^53] *)
    assert (D2 : Zdigits2 m2 = 54).
    { rewrite Top. apply Zdigits2_unique; [|apply Z.pow_pos_nonneg; lia].
      change (54 - 1) with 53. split; [lia|]. apply Z.pow_lt_mono_r; lia. }
    assert (F2 : e2 = Zpos pk + 1).
    { rewrite E2, D2. unfold fexp, emin, math.prec, math.emax. lia. }
    rewrite M2, F2, Top. replace (Zpos pk + 1 - (0 + Zpos pk)) with 1 by lia.
    change (2 ^ 53 / 2 ^ 1) with (Zpos 4503599627370496).
    unfold math.emax, math.prec.
    destruct (Z.leb_spec (Zpos pk + 1) (1024 - 53)); [lia|].
    cbn [math.IsInf]. symmetry. apply Z.leb_le.
    (* [m1] is [2^53 - 1] and the round bit is set *)
    assert (Hm : shr_m r1 = 2 ^ 53 - 1) by lia.
    assert (Hodd : Z.odd (shr_m r1) = true).
    { rewrite Hm, T53. rewrite Z.odd_sub, Z.odd_mul. reflexivity. }
    pose proof (@round_up_odd (shr_m r1) r1 Hodd eq_refl) as RU.
    fold m2 in RU. rewrite B1 in RU.
    destruct (Z.testbit q (Zpos pk - 1)) eqn:Bit; [|lia].
    destruct (Z.le_gt_cases 1025 dq) as [Big | Small].
    + assert (2 ^ 1024 <= 2 ^ (dq - 1)) by (apply Z.pow_le_mono_r; lia).
      assert (0 < 2 ^ 970) by (apply Z.pow_pos_nonneg; lia). lia.
    + assert (Zpos pk = 971) by lia.
      rewrite H0 in *. change (971 - 1) with 970 in Bit.
      apply Z.testbit_true in Bit; [|lia].
      rewrite M1 in Hm.
      assert (P970 : 0 < 2 ^ 970) by (apply Z.pow_pos_nonneg; lia).
      assert (E971 : 2 ^ 971 = 2 ^ 970 * 2).
      { change 971 with (970 + 1). rewrite Z.pow_add_r by lia. reflexivity. }
      rewrite E971, <- Z.div_div in Hm by lia.
      set (u := q / 2 ^ 970) in *.
      pose proof (Z.div_mod u 2 ltac:(lia)) as DU.
      assert (Hu : u = 2 * (2 ^ 53 - 1) + 1) by lia.
      pose proof (div_sandwich q P970) as [S1 _]. fold u in S1.
      assert (E1024 : 2 ^ 1024 = 2 ^ 970 * (2 * 2 ^ 53)).
      { change 1024 with (970 + (1 + 53)).
        rewrite !Z.pow_add_r by lia. reflexivity. }
      rewrite E1024. rewrite Hu in S1. lia.
  - assert (U2 : 2 ^ 52 <= m2 < 2 ^ 53) by lia.
    assert (D2 : Zdigits2 m2 = 53).
    { apply Zdigits2_unique; [|lia]. change (53 - 1) with 52. exact U2. }
    assert (F2 : e2 = Zpos pk).
    { rewrite E2, D2. unfold fexp, emin, math.prec, math.emax. lia. }
    rewrite M2, F2. replace (Zpos pk - (0 + Zpos pk)) with 0 by lia.
    rewrite Z.pow_0_r, Z.div_1_r.
    destruct m2 as [|p2|p2] eqn:Em2; try lia.
    unfold math.emax, math.prec.
    destruct (Z.leb_spec (Zpos pk) (1024 - 53)) as [Le | Gt]; cbn [math.IsInf].
    + (* exponent 971: finite, and [q] is below the threshold *)
      symmetry. apply Z.leb_gt.
      assert (Zpos pk = 971) by lia. rewrite H in *.
      assert (P970 : 0 < 2 ^ 970) by (apply Z.pow_pos_nonneg; lia).
      assert (E971 : 2 ^ 971 = 2 ^ 970 * 2).
      { change 971 with (970 + 1). rewrite Z.pow_add_r by lia. reflexivity. }
      assert (E1024 : 2 ^ 1024 = 2 ^ 970 * (2 * 2 ^ 53)).
      { change 1024 with (970 + (1 + 53)).
        rewrite !Z.pow_add_r by lia. reflexivity. }
      destruct (Z.lt_ge_cases q (2 ^ 1024 - 2 ^ 970)) as [|Ge]; [assumption|].
      exfalso.
      (* otherwise [m1 = 2^53 - 1] with the round bit set, and [m2 = 2^53] *)
      assert (dq = 1024) by lia.
      rewrite H0 in Bu.
      pose proof (div_sandwich q P970) as [S1 S2']. 
      set (u := q / 2 ^ 970) in *.
      assert (Hu : u = 2 * (2 ^ 53 - 1) + 1) by nia.
      assert (Hm : shr_m r1 = 2 ^ 53 - 1).
      { rewrite M1, E971, <- Z.div_div by lia. fold u. rewrite Hu.
        replace (2 * (2 ^ 53 - 1) + 1) with ((2 ^ 53 - 1) * 2 + 1) by lia.
        rewrite Z.div_add_l by lia. change (1 / 2) with 0. lia. }
      assert (Bit : Z.testbit q (971 - 1) = true).
      { change (971 - 1) with 970. apply Z.testbit_true; [lia|].
        fold u. rewrite Hu.
        replace (2 * (2 ^ 53 - 1) + 1) with (1 + (2 ^ 53 - 1) * 2) by lia.
        rewrite Z.mod_add by lia. reflexivity. }
      assert (Hodd : Z.odd (shr_m r1) = true).
      { rewrite Hm, T53. rewrite Z.odd_sub, Z.odd_mul. reflexivity. }
      pose proof (@round_up_odd (shr_m r1) r1 Hodd eq_refl) as RU.
      fold m2 in RU. rewrite B1, Bit in RU. lia.
    + symmetry. apply Z.leb_le.
      assert (1025 <= dq) by lia.
      assert (2 ^ 1024 <= 2 ^ (dq - 1)) by (apply Z.pow_le_mono_r; lia).
      assert (0 < 2 ^ 970) by (apply Z.pow_pos_nonneg; lia). lia.
Qed.

(** The quotient [n / d] is rounded to an infinity exactly from
    [2^1024 - 2^970] on: half a unit in the last place above the largest
    finite binary64. *)
Lemma of_ratio_inf (n d : Z) :
  0 < n -> 0 < d ->
  math.IsInf (math.of_ratio n d) = ((2 ^ 1024 - 2 ^ 970) * d <=? n).
Proof.
  intros Hn Hd.
  assert (P970 : 0 < 2 ^ 970) by (apply Z.pow_pos_nonneg; lia).
  assert (E1024 : 2 ^ 1024 = 2 ^ 1023 * 2).
  { change 1024 with (1023 + 1). rewrite Z.pow_add_r by lia. reflexivity. }
  assert (E1023 : 2 ^ 1023 = 2 ^ 970 * 2 ^ 53).
  { change 1023 with (970 + 53). rewrite Z.pow_add_r by lia. reflexivity. }
  assert (P53 : 2 <= 2 ^ 53) by (vm_compute; discriminate).
  assert (T : 2 ^ 1023 <= 2 ^ 1024 - 2 ^ 970) by nia.
  destruct (Z.lt_ge_cases n (2 ^ 1023 * d)) as [Lt | Ge].
  - rewrite of_ratio_finite by assumption. symmetry. apply Z.leb_gt. nia.
  - unfold math.of_ratio. destruct n as [|pn|pn]; try lia.
    unfold SFdiv_core_binary.
    destruct d as [|pd|pd]; try lia.
    pose proof (Zdigits2_bounds pd) as [Dl Du].
    set (d2 := Zdigits2 (Zpos pd)) in *.
    assert (Hd2 : 0 < d2) by (subst d2; cbn; lia).
    assert (D1 : d2 + 1023 <= Zdigits2 (Zpos pn)).
    { replace (d2 + 1023) with (d2 - 1 + 1023 + 1) by lia.
      apply Zdigits2_ge; [lia|].
      rewrite Z.pow_add_r by lia. nia. }
    set (d1 := Zdigits2 (Zpos pn)) in *.
    assert (E : Z.min (fexp math.prec math.emax (d1 + 0 - (d2 + 0))) (0 - 0) = 0).
    { unfold fexp, emin, math.prec, math.emax. lia. }
    rewrite E. cbn [Z.sub Z.opp Z.add].
    pose proof (Z.div_mod (Zpos pn) (Zpos pd) ltac:(lia)) as DM.
    pose proof (Z.mod_pos_bound (Zpos pn) (Zpos pd) ltac:(lia)) as MB.
    unfold Z.div, Z.modulo in DM, MB.
    destruct (Z.div_eucl (Zpos pn) (Zpos pd)) as [q r].
    rewrite round_large by nia.
    destruct (Z.leb_spec (2 ^ 1024 - 2 ^ 970) q);
      destruct (Z.leb_spec ((2 ^ 1024 - 2 ^ 970) * Zpos pd) (Zpos pn));
      try reflexivity; nia.
Qed.

(** [ParseFloat] answers the range error exactly for the numbers beyond
    binary64. *)
Lemma ParseFloat_range (num : string) :
  number num ->
  snd (strconv.ParseFloat num) =
    if beyond_float64 num
    then Some {| strconv.Func := "ParseFloat"; strconv.Num := num;
                 strconv.Err_ := strconv.ErrRange |}
    else None.
Proof.
  intros Hn. destruct (readFloat_number Hn) as (n & k & E).
  pose proof (readFloat_nonneg Hn E) as N.
  unfold strconv.ParseFloat, beyond_float64. rewrite E.
  assert (P : 0 < 10 ^ Z.of_nat k) by (apply Z.pow_pos_nonneg; lia).
  assert (T : 0 < 2 ^ 1024 - 2 ^ 970) by (vm_compute; reflexivity).
  destruct (Z.eq_dec n 0) as [-> | Hz].
  - cbn [math.of_ratio math.IsInf snd].
    destruct (Z.leb_spec ((2 ^ 1024 - 2 ^ 970) * 10 ^ Z.of_nat k) 0);
      [nia | reflexivity].
  - rewrite of_ratio_inf by lia.
    destruct (_ <=? n); reflexivity.
Qed.

Lemma convertTime_range (num u : string) (e : strconv.NumError) :
  number num ->
  snd (convertTime num u) = Some (StrconvError e) <->
  beyond_float64 num = true /\
  e = {| strconv.Func := "ParseFloat"; strconv.Num := num;
         strconv.Err_ := strconv.ErrRange |}.
Proof.
  intros Hn. pose proof (ParseFloat_range Hn) as R. unfold convertTime.
  destruct (strconv.ParseFloat num) as [t err]. cbn [snd] in R. subst err.
  destruct (beyond_float64 num).
  - cbn [snd]. split.
    + intros H. inversion H. auto.
    + intros [_ ->]. reflexivity.
  - split; [|intros [H _]; discriminate].
    destruct (u =? "ms")%string; [destruct (math.neq _ _); discriminate|].
    destruct (u =? "s")%string; discriminate.
Qed.

Lemma convertMemory_range (num u : string) (e : strconv.NumError) :
  number num ->
  snd (convertMemory num u) = Some (StrconvError e) <->
  beyond_float64 num = true /\
  e = {| strconv.Func := "ParseFloat"; strconv.Num := num;
         strconv.Err_ := strconv.ErrRange |}.
Proof.
  intros Hn. pose proof (ParseFloat_range Hn) as R. unfold convertMemory.
  destruct (strconv.ParseFloat num) as [t err]. cbn [snd] in R. subst err.
  destruct (beyond_float64 num).
  - cbn [snd]. split.
    + intros H. inversion H. auto.
    + intros [_ ->]. reflexivity.
  - split; [|intros [H _]; discriminate].
    destruct (u =? "KB")%string; [destruct (math.neq _ _); discriminate|].
    destruct (u =? "MB")%string; [discriminate|].
    destruct (u =? "GB")%string; discriminate.
Qed.

(** The range error of a parser: the number of the leftmost stamp is
    beyond binary64, and the error names that number. *)
Lemma ParseTime_range (stamp : string) (e : strconv.NumError) :
  snd (ParseTime stamp) = Some (StrconvError e) <->
  exists pre num unit post,
    leftmost_stamp timeUnits stamp pre num unit post /\
    regexp.FindStringSubmatch parseTime stamp = [num ++ unit; num; unit] /\
    beyond_float64 num = true /\
    e = {| strconv.Func := "ParseFloat"; strconv.Num := num;
           strconv.Err_ := strconv.ErrRange |}.
Proof.
  rewrite ParseTime_scan, FindStringSubmatch_time.
  destruct (scan_from timeUnits stamp) as [[pre [[num u] rest]]|] eqn:E;
    cbn [submatches].
  - destruct (scan_from_sound _ _ E) as (Hn & Hu & Hs).
    rewrite (convertTime_range u e Hn). split.
    + intros [B ->]. exists pre, num, u, rest.
      repeat split; auto.
      intros pre' num' u' post' Hn' Hu' Hs'.
      exact (@scan_from_leftmost timeUnits timeUnits_head timeUnits_exact
               stamp pre num u rest pre' num' u' post' E Hn' Hu' Hs').
    + intros (pre' & num' & u' & post' & _ & F & B & ->).
      inversion F; subst. auto.
  - split; [discriminate|].
    intros (pre' & num' & u' & post' & _ & F & _); discriminate.
Qed.

Lemma ParseMemory_range (stamp : string) (e : strconv.NumError) :
  snd (ParseMemory stamp) = Some (StrconvError e) <->
  exists pre num unit post,
    leftmost_stamp memoryUnits stamp pre num unit post /\
    regexp.FindStringSubmatch parseMemory stamp = [num ++ unit; num; unit] /\
    beyond_float64 num = true /\
    e = {| strconv.Func := "ParseFloat"; strconv.Num := num;
           strconv.Err_ := strconv.ErrRange |}.
Proof.
  rewrite ParseMemory_scan, FindStringSubmatch_memory.
  destruct (scan_from memoryUnits stamp) as [[pre [[num u] rest]]|] eqn:E;
    cbn [submatches].
  - destruct (scan_from_sound _ _ E) as (Hn & Hu & Hs).
    rewrite (convertMemory_range u e Hn). split.
    + intros [B ->]. exists pre, num, u, rest.
      repeat split; auto.
      intros pre' num' u' post' Hn' Hu' Hs'.
      exact (@scan_from_leftmost memoryUnits memoryUnits_head memoryUnits_exact
               stamp pre num u rest pre' num' u' post' E Hn' Hu' Hs').
    + intros (pre' & num' & u' & post' & _ & F & B & ->).
      inversion F; subst. auto.
  - split; [discriminate|].
    intros (pre' & num' & u' & post' & _ & F & _); discriminate.
Qed.

(** ** The conversion to [int] *)



(** ** Nothing found, nothing else *)

(** A stamp is malformed exactly when the pattern finds nothing. *)
Lemma ParseTime_nil (s : string) :
  snd (ParseTime s) = Some ErrorMalformedStamp <->
  regexp.FindStringSubmatch parseTime s = [].
Proof.
  rewrite ParseTime_scan, FindStringSubmatch_time.
  destruct (scan_from timeUnits s) as [[pre [[num u] rest]]|] eqn:E;
    cbn [submatches snd]; [|tauto].
  apply scan_from_sound in E as (Hn & _ & _).
  destruct (stamp_error_result Hn (convertTime_error u Hn)) as [_ N].
  split; [contradiction | discriminate].
Qed.

Lemma ParseMemory_nil (s : string) :
  snd (ParseMemory s) = Some ErrorMalformedStamp <->
  regexp.FindStringSubmatch parseMemory s = [].
Proof.
  rewrite ParseMemory_scan, FindStringSubmatch_memory.
  destruct (scan_from memoryUnits s) as [[pre [[num u] rest]]|] eqn:E;
    cbn [submatches snd]; [|tauto].
  apply scan_from_sound in E as (Hn & _ & _).
  destruct (stamp_error_result Hn (convertMemory_error u Hn)) as [_ N].
  split; [contradiction | discriminate].
Qed.

(** ** The hash call of a run with a salt *)

(** A run with a salt that succeeds: where the constructor stores what it
    is given, the one hash call is made with the values given, reduced,
    and the salt given. *)
Lemma GenerateHashWithSalt_hash_call (W : Type) (h : handler W) (w : W)
    (seconds threads memory length : Z) (key salt : string) (rs : ResultSet) :
  faithful_parameters h ->
  run h (GenerateHashWithSalt seconds threads memory length key salt) w
    = (rs, None) ->
  exists hash u,
    fst (h _ (argon2id_GenerateFromPassword (list_byte_of_string key)
                {| argon2id.Time := uint32 seconds;
                   argon2id.Memory := uint32 memory;
                   argon2id.Threads := uint8 threads;
                   argon2id.Length := uint32 length;
                   argon2id.Salt := Some (list_byte_of_string salt) |}) u)
      = (hash, None) /\
    filter is_GenerateFromPassword
      (trace h (GenerateHashWithSalt seconds threads memory length key salt) w) =
      [Event (argon2id_GenerateFromPassword (list_byte_of_string key)
                {| argon2id.Time := uint32 seconds;
                   argon2id.Memory := uint32 memory;
                   argon2id.Threads := uint8 threads;
                   argon2id.Length := uint32 length;
                   argon2id.Salt := Some (list_byte_of_string salt) |})
         (hash, None)] /\
    Hash rs = string_of_list_byte hash /\
    Characters rs = len_bytes hash /\
    Salt rs = salt.
Proof.
  intros Hfaith. unfold run, trace. rewrite exec_GenerateHashWithSalt. cbv zeta.
  destruct (h _ (argon2id_NewParameters _ _ _ _) w) as [[params err] w1] eqn:E1.
  cbn [fst snd]. destruct err as [msg|]; [discriminate|].
  destruct (Hfaith (uint32 seconds) (uint32 memory) (uint8 threads)
              (uint32 length) w params) as (Ht & Hm & Hp & Hl);
    [rewrite E1; reflexivity|].
  unfold argon2id.withSalt. rewrite Ht, Hm, Hp, Hl.
  rewrite exec_generateHash.
  destruct (h _ time_Now w1) as [t0 w2].
  destruct (h _ (argon2id_GenerateFromPassword _ _) w2) as [[hash err] w3] eqn:E3.
  destruct (h _ (time_Since t0) w3) as [d w4]. cbn [fst snd].
  destruct err as [msg|]; [discriminate|].
  intros H; inversion H; subst. exists hash, w2.
  split; [rewrite E3; reflexivity|]. split; [reflexivity|].
  cbn. repeat split. apply string_of_list_byte_of_string.
Qed.

(* ################################################################# *)
(** * The claims *)

(** ** C1: the errors of the parsers *)

(** C1, as amended.  [ParseTime] and [ParseMemory] return a number, or 0
    with one of three errors: [ErrorMalformedStamp], [ErrorSplitAtomic], or
    the range error of [strconv.ParseFloat], which both functions pass
    on as it is (its syntax error cannot occur: what the patterns capture
    is always a decimal).  The error is [ErrorMalformedStamp] exactly when
    no number followed by a unit occurs anywhere in the stamp, as in "32"
    and "10B".  It is the range error exactly when the number of the
    leftmost stamp, the one the pattern captures, is beyond binary64: at
    least [2^1024 - 2^970]; the error then names [ParseFloat] and that
    number. *)
Theorem C1_parse_errors (stamp : string) (e : strconv.NumError) :
  parse_result (ParseTime stamp) /\
  parse_result (ParseMemory stamp) /\
  (snd (ParseTime stamp) = Some ErrorMalformedStamp <->
   ~ contains_stamp timeUnits stamp) /\
  (snd (ParseMemory stamp) = Some ErrorMalformedStamp <->
   ~ contains_stamp memoryUnits stamp) /\
  (snd (ParseTime stamp) = Some (StrconvError e) <->
   exists pre num unit post,
     leftmost_stamp timeUnits stamp pre num unit post /\
     regexp.FindStringSubmatch parseTime stamp = [num ++ unit; num; unit] /\
     beyond_float64 num = true /\
     e = {| strconv.Func := "ParseFloat"; strconv.Num := num;
            strconv.Err_ := strconv.ErrRange |}) /\
  (snd (ParseMemory stamp) = Some (StrconvError e) <->
   exists pre num unit post,
     leftmost_stamp memoryUnits stamp pre num unit post /\
     regexp.FindStringSubmatch parseMemory stamp = [num ++ unit; num; unit] /\
     beyond_float64 num = true /\
     e = {| strconv.Func := "ParseFloat"; strconv.Num := num;
            strconv.Err_ := strconv.ErrRange |}) /\
  ParseTime "32" = (0, Some ErrorMalformedStamp) /\
  ParseMemory "10B" = (0, Some ErrorMalformedStamp).
Proof.
  destruct (ParseTime_errors stamp) as [T1 T2].
  destruct (ParseMemory_errors stamp) as [M1 M2].
  split; [exact T1|]. split; [exact M1|]. split; [exact T2|]. split; [exact M2|].
  split; [apply ParseTime_range|]. split; [apply ParseMemory_range|].
  split; vm_compute; reflexivity.
Qed.

(** C1 as stated fails.  A number of 310 digits is beyond binary64: the
    error of [ParseFloat] comes back, not [ErrorMalformedStamp].  And a
    prefix that is no decimal does not make the stamp malformed: the
    pattern finds "5s" inside "1..5s". *)
Lemma C1_range_error :
  let num := "1" ++ replicate 309 "0" in
  ParseTime (num ++ "s") =
    (0, Some (StrconvError {| strconv.Func := "ParseFloat";
                              strconv.Num := num;
                              strconv.Err_ := strconv.ErrRange |})) /\
  ParseMemory (num ++ "MB") =
    (0, Some (StrconvError {| strconv.Func := "ParseFloat";
                              strconv.Num := num;
                              strconv.Err_ := strconv.ErrRange |})) /\
  ParseTime "1..5s" = (5000, None).
Proof. cbv zeta. repeat split; vm_compute; reflexivity. Qed.

(** ** C2: parameters out of range *)

(** C2, as amended.  [GenerateHash] and [GenerateHashWithSalt] check no
    range themselves.  They convert: the time, memory and length to
    [uint32], the thread count to [uint8], so that a call with any values
    is the same computation as the call with the values reduced modulo
    2^32 and 2^8.  The reduced values are what the parameter constructor
    of the primitive receives, in the first call made.  When the
    constructor answers with an error, that error is returned with the
    empty [ResultSet] and the hash is never computed; when it accepts,
    the hash is computed once. *)
Theorem C2_parameters_are_narrowed (W : Type) (h : handler W) (w : W)
    (seconds threads memory length : Z) (key salt : string) :
  let c := argon2id_NewParameters (uint32 seconds) (uint32 memory)
             (uint8 threads) (uint32 length) in
  let p1 := GenerateHash seconds threads memory length key in
  let p2 := GenerateHashWithSalt seconds threads memory length key salt in
  p1 = GenerateHash (uint32 seconds) (uint8 threads) (uint32 memory)
         (uint32 length) key /\
  p2 = GenerateHashWithSalt (uint32 seconds) (uint8 threads) (uint32 memory)
         (uint32 length) key salt /\
  hd_error (trace h p1 w) = Some (Event c (fst (h _ c w))) /\
  hd_error (trace h p2 w) = Some (Event c (fst (h _ c w))) /\
  (forall msg, snd (fst (h _ c w)) = Some msg ->
     run h p1 w = (emptyResultSet, Some (Argon2idError msg)) /\
     run h p2 w = (emptyResultSet, Some (Argon2idError msg)) /\
     calls is_GenerateFromPassword (trace h p1 w) = 0%nat /\
     calls is_GenerateFromPassword (trace h p2 w) = 0%nat) /\
  (snd (fst (h _ c w)) = None ->
     calls is_GenerateFromPassword (trace h p1 w) = 1%nat /\
     calls is_GenerateFromPassword (trace h p2 w) = 1%nat).
Proof.
  cbv zeta.
  pose proof (hashCall_constructor h w seconds threads memory length key None)
    as (A1 & A2 & A3).
  pose proof (hashCall_constructor h w seconds threads memory length key (Some salt))
    as (B1 & B2 & B3).
  split; [exact (hashCall_narrowed seconds threads memory length key None)|].
  split; [exact (hashCall_narrowed seconds threads memory length key (Some salt))|].
  split; [exact A1|]. split; [exact B1|]. split.
  - intros msg H. destruct (A2 msg H), (B2 msg H). auto.
  - intros H. auto.
Qed.

(** Parameters the constructor refuses: its error, and no hash. *)
Lemma C2_rejected_parameters :
  let p1 := GenerateHash 0 1 65536 8 "mypassword" in
  let p2 := GenerateHashWithSalt 0 1 65536 8 "mypassword" "mysalt" in
  run sim.handle p1 sim.start =
    (emptyResultSet, Some (Argon2idError "argon2id: invalid parameters")) /\
  run sim.handle p2 sim.start =
    (emptyResultSet, Some (Argon2idError "argon2id: invalid parameters")) /\
  calls is_GenerateFromPassword (trace sim.handle p1 sim.start) = 0%nat /\
  calls is_GenerateFromPassword (trace sim.handle p2 sim.start) = 0%nat.
Proof.
  cbv zeta.
  apply (proj1 (proj2 (proj2 (proj2 (proj2
           (@C2_parameters_are_narrowed sim.world sim.handle sim.start
              0 1 65536 8 "mypassword" "mysalt")))))).
  reflexivity.
Defined.

(** C2 as stated fails.  257 threads do not fit 8 bits, and the call is
    the call with 1 thread: the constructor is given 1, and where it
    accepts 1 thread (the tests of the repository expect it to) the call
    succeeds. *)
Lemma C2_out_of_range_accepted :
  let p := GenerateHash 1 257 65536 8 "mypassword" in
  (257 <? 2 ^ 8) = false /\
  p = GenerateHash 1 1 65536 8 "mypassword" /\
  hd_error (trace sim.handle p sim.start) =
    Some (Event (argon2id_NewParameters 1 65536 1 8)
            (fst (sim.handle (argon2id_NewParameters 1 65536 1 8) sim.start))) /\
  snd (run sim.handle p sim.start) = None.
Proof. cbv zeta. repeat split. Qed.

(** ** C3: seconds and milliseconds *)




(** ** C4: kilobytes, megabytes and gigabytes *)




(** ** C5: a fraction of an atomic unit *)




(** ** C6: the fields of a result *)

(** C6, as amended.  In an environment whose clock is monotonic and whose
    parameter constructor stores what it is given, a successful call of
    [GenerateHash] or [GenerateHashWithSalt] returns a [ResultSet] with
    [Characters] the length of [Hash], a [Duration] that is not negative,
    [Key] the key given, and [Time], [Memory], [Length] and [Threads] the
    values given reduced modulo 2^32 and 2^8: the values given, when
    they are within these ranges. *)
Theorem C6_result_fields (W : Type) (h : handler W) (clock : W -> Z) (w : W)
    (seconds threads memory length : Z) (key salt : string) (rs : ResultSet) :
  monotonic_clock h clock ->
  faithful_parameters h ->
  run h (GenerateHash seconds threads memory length key) w = (rs, None) \/
  run h (GenerateHashWithSalt seconds threads memory length key salt) w
    = (rs, None) ->
  Characters rs = len_string (Hash rs) /\
  0 <= Duration rs /\
  Key rs = key /\
  Time rs = uint32 seconds /\
  Threads rs = uint8 threads /\
  Memory rs = uint32 memory /\
  Length rs = uint32 length /\
  (0 <= seconds < 2 ^ 32 -> Time rs = seconds) /\
  (0 <= threads < 2 ^ 8 -> Threads rs = threads) /\
  (0 <= memory < 2 ^ 32 -> Memory rs = memory) /\
  (0 <= length < 2 ^ 32 -> Length rs = length).
Proof.
  intros (Hnow & Hsince & Hmono) Hfaith Hrun.
  assert (exists s, run h (hashCall seconds threads memory length key s) w = (rs, None))
    as [s Hs] by (destruct Hrun; [exists None | exists (Some salt)]; assumption).
  apply hashCall_success in Hs
    as (params & w1 & t0 & w2 & hash & w3 & d & w4 & E1 & E2 & E3 & E4 & ->).
  destruct (Hfaith (uint32 seconds) (uint32 memory) (uint8 threads) (uint32 length)
              w params) as (Ht & Hm & Hp & Hl); [rewrite E1; reflexivity|].
  destruct (salted_fields params s) as (St & Sp & Sm & Sl).
  cbn [Characters Hash Duration Key Time Threads Memory Length].
  rewrite St, Sp, Sm, Sl, Ht, Hm, Hp, Hl.
  assert (Hd : 0 <= d).
  { pose proof (Hnow w1) as N. rewrite E2 in N. cbn in N.
    pose proof (Hsince t0 w3) as S. rewrite E4 in S. cbn in S.
    pose proof (Hmono _ time_Now w1) as M1. rewrite E2 in M1. cbn in M1.
    pose proof (Hmono _ (argon2id_GenerateFromPassword (list_byte_of_string key)
                           (salted params s)) w2) as M2.
    rewrite E3 in M2. cbn in M2. lia. }
  repeat split; auto using uint32_small, uint8_small.
  - unfold len_string, len_bytes. now rewrite length_string_of_list_byte.
  - apply string_of_list_byte_of_string.
Qed.

(** The call of the repository's test, in the simulated environment. *)
Lemma C6_successful_run :
  let rs := fst (run sim.handle
                   (GenerateHashWithSalt 1 1 65536 8 "mypassword" "mysalt")
                   sim.start) in
  Characters rs = len_string (Hash rs) /\ 0 <= Duration rs /\
  Key rs = "mypassword" /\ Time rs = 1 /\ Threads rs = 1 /\
  Memory rs = 65536 /\ Length rs = 8.
Proof.
  cbv zeta.
  pose proof (@C6_result_fields sim.world sim.handle sim.now sim.start
                1 1 65536 8 "mypassword" "mysalt"
                (fst (run sim.handle
                        (GenerateHashWithSalt 1 1 65536 8 "mypassword" "mysalt")
                        sim.start))
                sim_monotonic sim_faithful (or_intror eq_refl))
    as (H1 & H2 & H3 & _ & _ & _ & _ & H4 & H5 & H6 & H7).
  split; [exact H1|]. split; [exact H2|]. split; [exact H3|].
  split; [apply H4; lia|]. split; [apply H5; lia|].
  split; [apply H6; lia | apply H7; lia].
Defined.

(** C6 as stated fails.  A time of 2^32 + 1 and 257 threads make the call
    with time 1 and 1 thread, and where that succeeds the result holds 1
    and 1, not the values given. *)
Lemma C6_wrapped_fields :
  let p := GenerateHash 4294967297 257 65536 8 "mypassword" in
  let r := run sim.handle p sim.start in
  p = GenerateHash 1 1 65536 8 "mypassword" /\
  snd r = None /\ Time (fst r) = 1 /\ Threads (fst r) = 1.
Proof. cbv zeta. repeat split. Qed.

(** ** C7: a fixed salt *)

(** C7.  In an environment whose parameter constructor stores what it is
    given and whose hash, with an explicit salt, depends on the password
    and the parameters only, two successful calls of
    [GenerateHashWithSalt] with the same arguments return the same [Hash]
    (and [Characters]), whatever the state of the environment; the salt
    reported is the salt given.  Each of the two runs calls the hash of
    the primitive once, with the bytes of the key and with parameters
    that hold the values given, reduced to their types, and the bytes of
    the salt given as they are; the [Hash] returned is the answer of that
    call. *)
Theorem C7_fixed_salt_is_deterministic (W : Type) (h : handler W) (w1 w2 : W)
    (seconds threads memory length : Z) (key salt : string)
    (rs1 rs2 : ResultSet) :
  faithful_parameters h ->
  deterministic_hash h ->
  run h (GenerateHashWithSalt seconds threads memory length key salt) w1
    = (rs1, None) ->
  run h (GenerateHashWithSalt seconds threads memory length key salt) w2
    = (rs2, None) ->
  Hash rs1 = Hash rs2 /\ Characters rs1 = Characters rs2 /\
  Salt rs1 = salt /\ Salt rs2 = salt /\
  exists hash,
    Hash rs1 = string_of_list_byte hash /\
    filter is_GenerateFromPassword
      (trace h (GenerateHashWithSalt seconds threads memory length key salt) w1) =
      [Event (argon2id_GenerateFromPassword (list_byte_of_string key)
                {| argon2id.Time := uint32 seconds;
                   argon2id.Memory := uint32 memory;
                   argon2id.Threads := uint8 threads;
                   argon2id.Length := uint32 length;
                   argon2id.Salt := Some (list_byte_of_string salt) |})
         (hash, None)] /\
    filter is_GenerateFromPassword
      (trace h (GenerateHashWithSalt seconds threads memory length key salt) w2) =
      [Event (argon2id_GenerateFromPassword (list_byte_of_string key)
                {| argon2id.Time := uint32 seconds;
                   argon2id.Memory := uint32 memory;
                   argon2id.Threads := uint8 threads;
                   argon2id.Length := uint32 length;
                   argon2id.Salt := Some (list_byte_of_string salt) |})
         (hash, None)].
Proof.
  intros Hfaith Hdet H1 H2.
  destruct (@GenerateHashWithSalt_hash_call W h w1 seconds threads memory length
              key salt rs1 Hfaith H1)
    as (hash1 & u1 & A1 & T1 & HA1 & C1 & S1).
  destruct (@GenerateHashWithSalt_hash_call W h w2 seconds threads memory length
              key salt rs2 Hfaith H2)
    as (hash2 & u2 & A2 & T2 & HA2 & C2 & S2).
  assert (hash1 = hash2).
  { eapply Hdet; [|exact A1|exact A2]. discriminate. }
  subst hash2.
  split; [congruence|]. split; [congruence|]. split; [exact S1|].
  split; [exact S2|]. exists hash1. auto.
Qed.

(** Two runs from different states: another time, other random salts. *)
Lemma C7_two_runs :
  let p := GenerateHashWithSalt 1 1 65536 8 "mypassword" "mysalt" in
  let other := {| sim.now := 1000; sim.entropy := 99;
                  sim.free_memory := 1048576 |} in
  Hash (fst (run sim.handle p sim.start)) = Hash (fst (run sim.handle p other)) /\
  exists hash,
    filter is_GenerateFromPassword (trace sim.handle p sim.start) =
      [Event (argon2id_GenerateFromPassword (list_byte_of_string "mypassword")
                {| argon2id.Time := 1; argon2id.Memory := 65536;
                   argon2id.Threads := 1; argon2id.Length := 8;
                   argon2id.Salt := Some (list_byte_of_string "mysalt") |})
         (hash, None)] /\
    filter is_GenerateFromPassword (trace sim.handle p other) =
      [Event (argon2id_GenerateFromPassword (list_byte_of_string "mypassword")
                {| argon2id.Time := 1; argon2id.Memory := 65536;
                   argon2id.Threads := 1; argon2id.Length := 8;
                   argon2id.Salt := Some (list_byte_of_string "mysalt") |})
         (hash, None)].
Proof.
  cbv zeta.
  destruct (@C7_fixed_salt_is_deterministic sim.world sim.handle sim.start
              {| sim.now := 1000; sim.entropy := 99;
                 sim.free_memory := 1048576 |}
              1 1 65536 8 "mypassword" "mysalt"
              (fst (run sim.handle
                      (GenerateHashWithSalt 1 1 65536 8 "mypassword" "mysalt")
                      sim.start))
              (fst (run sim.handle
                      (GenerateHashWithSalt 1 1 65536 8 "mypassword" "mysalt")
                      {| sim.now := 1000; sim.entropy := 99;
                         sim.free_memory := 1048576 |}))
              sim_faithful sim_deterministic
              ltac:(vm_compute; reflexivity) ltac:(vm_compute; reflexivity))
    as (H1 & _ & _ & _ & hash & _ & T1 & T2).
  split; [exact H1|]. exists hash. split; [exact T1 | exact T2].
Defined.

(** ** C9: failures *)

(** C9.  A call of [GenerateHash] or [GenerateHashWithSalt] that fails
    returns the empty [ResultSet]; its error is the one error the
    primitive answered with during the call; the parameter constructor
    was called once and the hash at most once, so nothing was tried
    again.  And a call that succeeds has met no error: none is recovered
    from silently. *)
Theorem C9_failure_returns_empty_result (W : Type) (h : handler W) (w : W)
    (seconds threads memory length : Z) (key salt : string) (e : error) :
  let p1 := GenerateHash seconds threads memory length key in
  let p2 := GenerateHashWithSalt seconds threads memory length key salt in
  (snd (run h p1 w) = Some e -> terminal_failure h p1 w e) /\
  (snd (run h p2 w) = Some e -> terminal_failure h p2 w e) /\
  (snd (run h p1 w) = None -> errors_answered (trace h p1 w) = []) /\
  (snd (run h p2 w) = None -> errors_answered (trace h p2 w) = []).
Proof.
  cbv zeta. split; [|split; [|split]].
  - apply (hashCall_terminal h seconds threads memory length key None).
  - apply (hashCall_terminal h seconds threads memory length key (Some salt)).
  - apply (hashCall_no_error_swallowed h seconds threads memory length key None).
  - apply (hashCall_no_error_swallowed h seconds threads memory length key
             (Some salt)).
Qed.

(** Parameters that are refused, and a hash that needs more memory than
    there is. *)
Lemma C9_failing_runs :
  terminal_failure sim.handle (GenerateHash 0 1 65536 8 "mypassword") sim.start
    (Argon2idError "argon2id: invalid parameters") /\
  terminal_failure sim.handle
    (GenerateHashWithSalt 1 1 8388608 8 "mypassword" "mysalt") sim.start
    (Argon2idError "argon2id: out of memory").
Proof.
  split.
  - apply (proj1 (C9_failure_returns_empty_result sim.handle sim.start
                    0 1 65536 8 "mypassword" "" _)).
    reflexivity.
  - apply (proj1 (proj2 (C9_failure_returns_empty_result sim.handle sim.start
                           1 1 8388608 8 "mypassword" "mysalt" _))).
    reflexivity.
Defined.

(** ** C10: stamps inside other text *)

(** C10, as amended.  The patterns are not anchored.  When a number
    followed by a unit occurs anywhere in the input, the leftmost such
    stamp is the match: the submatches are the stamp, its number and its
    unit, the result is that of the stamp alone, with its value or with
    its error, and it is never [ErrorMalformedStamp].  Text after the
    stamp is ignored, and so is text before it that holds no digit: with
    such text around it, "1s" is 1000 and "1MB" is 1024. *)
Theorem C10_leftmost_stamp_is_parsed (stamp before after : string) :
  (contains_stamp timeUnits stamp ->
   exists pre num unit post,
     leftmost_stamp timeUnits stamp pre num unit post /\
     regexp.FindStringSubmatch parseTime stamp = [num ++ unit; num; unit] /\
     ParseTime stamp = ParseTime (num ++ unit) /\
     snd (ParseTime stamp) <> Some ErrorMalformedStamp) /\
  (contains_stamp memoryUnits stamp ->
   exists pre num unit post,
     leftmost_stamp memoryUnits stamp pre num unit post /\
     regexp.FindStringSubmatch parseMemory stamp = [num ++ unit; num; unit] /\
     ParseMemory stamp = ParseMemory (num ++ unit) /\
     snd (ParseMemory stamp) <> Some ErrorMalformedStamp) /\
  (no_digits before = true ->
   ParseTime (before ++ "1s" ++ after) = (1000, None) /\
   ParseMemory (before ++ "1MB" ++ after) = (1024, None)).
Proof.
  split; [apply ParseTime_leftmost|]. split; [apply ParseMemory_leftmost|].
  intros Hp. split.
  - change (before ++ "1s" ++ after) with (before ++ "1" ++ "s" ++ after).
    rewrite (@ParseTime_surrounded before "1" "s" after Hp).
    + reflexivity.
    + now apply (number_int (ip:="1")).
    + simpl; auto.
  - change (before ++ "1MB" ++ after) with (before ++ "1" ++ "MB" ++ after).
    rewrite (@ParseMemory_surrounded before "1" "MB" after Hp).
    + reflexivity.
    + now apply (number_int (ip:="1")).
    + simpl; auto.
Qed.

(** Text without digits around "1s" and "1MB". *)
Lemma C10_text_around_a_stamp :
  ParseTime ("timeout=" ++ "1s" ++ " (default)") = (1000, None) /\
  ParseMemory ("mem: " ++ "1MB" ++ "!") = (1024, None).
Proof.
  split.
  - apply (proj2 (proj2 (C10_leftmost_stamp_is_parsed "" "timeout=" " (default)"))).
    reflexivity.
  - apply (proj2 (proj2 (C10_leftmost_stamp_is_parsed "" "mem: " "!"))).
    reflexivity.
Defined.

(** C10 as stated fails.  A stamp that is found is not thereby accepted:
    half a millisecond inside other text is still refused.  And text
    before "1s" is not always ignored: a digit before it belongs to the
    number, and an earlier stamp is the match. *)
Lemma C10_match_is_not_success :
  ParseTime ("x" ++ "0.5" ++ "ms" ++ "y") = (0, Some ErrorSplitAtomic) /\
  ParseMemory ("x" ++ "0.5" ++ "KB" ++ "y") = (0, Some ErrorSplitAtomic) /\
  ParseTime ("2" ++ "1s") = (21000, None) /\
  ParseTime ("7ms " ++ "1s") = (7, None).
Proof. repeat split; vm_compute; reflexivity. Qed.

(** ** Beyond the claims *)

(** In both parsers the test [len(details) != 3] never decides:
    [FindStringSubmatch] with either pattern answers nil or three
    strings, and [ParseTime] and [ParseMemory] return
    [ErrorMalformedStamp] exactly when it answers nil. *)
Lemma FindStringSubmatch_three (s : string) :
  (regexp.FindStringSubmatch parseTime s = [] \/
   List.length (regexp.FindStringSubmatch parseTime s) = 3%nat) /\
  (regexp.FindStringSubmatch parseMemory s = [] \/
   List.length (regexp.FindStringSubmatch parseMemory s) = 3%nat) /\
  (snd (ParseTime s) = Some ErrorMalformedStamp <->
   regexp.FindStringSubmatch parseTime s = []) /\
  (snd (ParseMemory s) = Some ErrorMalformedStamp <->
   regexp.FindStringSubmatch parseMemory s = []).
Proof.
  split; [|split; [|split; [apply ParseTime_nil | apply ParseMemory_nil]]].
  - rewrite FindStringSubmatch_time.
    destruct (scan_from timeUnits s) as [[pre [[num u] rest]]|]; cbn; auto.
  - rewrite FindStringSubmatch_memory.
    destruct (scan_from memoryUnits s) as [[pre [[num u] rest]]|]; cbn; auto.
Qed.

(** The clock is read right before and right after the hash, and after
    the parameters are built: a successful call makes four calls, and
    [Duration] is the answer of [time.Since] for the instant [time.Now]
    gave. *)
Theorem Duration_spans_the_hash_call (W : Type) (h : handler W) (w : W)
    (seconds threads memory length : Z) (key salt : string) (rs : ResultSet) :
  let c := argon2id_NewParameters (uint32 seconds) (uint32 memory)
             (uint8 threads) (uint32 length) in
  let p1 := GenerateHash seconds threads memory length key in
  let p2 := GenerateHashWithSalt seconds threads memory length key salt in
  (run h p1 w = (rs, None) ->
   exists params t0 hash,
     trace h p1 w =
     [Event c (params, None);
      Event time_Now t0;
      Event (argon2id_GenerateFromPassword (list_byte_of_string key) params)
        (hash, None);
      Event (time_Since t0) (Duration rs)]) /\
  (run h p2 w = (rs, None) ->
   exists params t0 hash,
     trace h p2 w =
     [Event c (params, None);
      Event time_Now t0;
      Event (argon2id_GenerateFromPassword (list_byte_of_string key)
               (argon2id.withSalt params (list_byte_of_string salt)))
        (hash, None);
      Event (time_Since t0) (Duration rs)]).
Proof.
  cbv zeta. split; unfold run, trace.
  - rewrite exec_GenerateHash. cbv zeta.
    destruct (h _ (argon2id_NewParameters _ _ _ _) w) as [[params err] w1].
    cbn [fst snd]. destruct err as [msg|]; [discriminate|].
    rewrite exec_generateHash.
    destruct (h _ time_Now w1) as [t0 w2].
    destruct (h _ (argon2id_GenerateFromPassword _ _) w2) as [[hash err] w3].
    destruct (h _ (time_Since t0) w3) as [d w4]. cbn [fst snd].
    destruct err as [msg|]; [discriminate|].
    intros H; inversion H; subst. exists params, t0, hash. reflexivity.
  - rewrite exec_GenerateHashWithSalt. cbv zeta.
    destruct (h _ (argon2id_NewParameters _ _ _ _) w) as [[params err] w1].
    cbn [fst snd]. destruct err as [msg|]; [discriminate|].
    rewrite exec_generateHash.
    destruct (h _ time_Now w1) as [t0 w2].
    destruct (h _ (argon2id_GenerateFromPassword _ _) w2) as [[hash err] w3].
    destruct (h _ (time_Since t0) w3) as [d w4]. cbn [fst snd].
    destruct err as [msg|]; [discriminate|].
    intros H; inversion H; subst. exists params, t0, hash. reflexivity.
Qed.

(** A run with the parameters of the tests of the repository. *)
Lemma Duration_of_a_run :
  let p := GenerateHashWithSalt 1 1 65536 8 "mypassword" "mysalt" in
  let c := argon2id_NewParameters 1 65536 1 8 in
  exists params t0 hash,
    trace sim.handle p sim.start =
    [Event c (params, None);
     Event time_Now t0;
     Event (argon2id_GenerateFromPassword (list_byte_of_string "mypassword")
              (argon2id.withSalt params (list_byte_of_string "mysalt")))
       (hash, None);
     Event (time_Since t0) (Duration (fst (run sim.handle p sim.start)))].
Proof.
  cbv zeta.
  apply (proj2 (@Duration_spans_the_hash_call sim.world sim.handle sim.start
                  1 1 65536 8 "mypassword" "mysalt"
                  (fst (run sim.handle
                          (GenerateHashWithSalt 1 1 65536 8 "mypassword" "mysalt")
                          sim.start)))).
  vm_compute. reflexivity.
Defined.

(** The [Salt] of a result is the salt the hash was computed with: the
    one in the parameters the constructor answered for [GenerateHash],
    and the one given for [GenerateHashWithSalt], whatever the
    constructor had put there. *)
Theorem Salt_is_the_salt_hashed_with (W : Type) (h : handler W) (w : W)
    (seconds threads memory length : Z) (key salt : string) (rs : ResultSet) :
  let p1 := GenerateHash seconds threads memory length key in
  let p2 := GenerateHashWithSalt seconds threads memory length key salt in
  (run h p1 w = (rs, None) ->
   exists params hash,
     In (Event (argon2id_GenerateFromPassword (list_byte_of_string key) params)
           (hash, None))
        (trace h p1 w) /\
     hd_error (trace h p1 w) =
       Some (Event (argon2id_NewParameters (uint32 seconds) (uint32 memory)
                      (uint8 threads) (uint32 length)) (params, None)) /\
     Salt rs = string_of_list_byte (argon2id.saltBytes params)) /\
  (run h p2 w = (rs, None) ->
   exists params hash,
     In (Event (argon2id_GenerateFromPassword (list_byte_of_string key) params)
           (hash, None))
        (trace h p2 w) /\
     argon2id.Salt params = Some (list_byte_of_string salt) /\
     Salt rs = salt).
Proof.
  cbv zeta. split; unfold run, trace.
  - rewrite exec_GenerateHash. cbv zeta.
    destruct (h _ (argon2id_NewParameters _ _ _ _) w) as [[params err] w1].
    cbn [fst snd]. destruct err as [msg|]; [discriminate|].
    rewrite exec_generateHash.
    destruct (h _ time_Now w1) as [t0 w2].
    destruct (h _ (argon2id_GenerateFromPassword _ _) w2) as [[hash err] w3].
    destruct (h _ (time_Since t0) w3) as [d w4]. cbn [fst snd].
    destruct err as [msg|]; [discriminate|].
    intros H; inversion H; subst. exists params, hash.
    split; [right; right; left; reflexivity|]. split; reflexivity.
  - rewrite exec_GenerateHashWithSalt. cbv zeta.
    destruct (h _ (argon2id_NewParameters _ _ _ _) w) as [[params err] w1].
    cbn [fst snd]. destruct err as [msg|]; [discriminate|].
    rewrite exec_generateHash.
    destruct (h _ time_Now w1) as [t0 w2].
    destruct (h _ (argon2id_GenerateFromPassword _ _) w2) as [[hash err] w3].
    destruct (h _ (time_Since t0) w3) as [d w4]. cbn [fst snd].
    destruct err as [msg|]; [discriminate|].
    intros H; inversion H; subst.
    exists (argon2id.withSalt params (list_byte_of_string salt)), hash.
    split; [right; right; left; reflexivity|]. split; [reflexivity|].
    cbn. apply string_of_list_byte_of_string.
Qed.

(** The salt given replaces the one the constructor generated. *)
Lemma Salt_of_a_run :
  let p := GenerateHashWithSalt 1 1 65536 8 "mypassword" "mysalt" in
  exists params hash,
    In (Event (argon2id_GenerateFromPassword (list_byte_of_string "mypassword")
                 params) (hash, None))
       (trace sim.handle p sim.start) /\
    argon2id.Salt params = Some (list_byte_of_string "mysalt") /\
    Salt (fst (run sim.handle p sim.start)) = "mysalt".
Proof.
  cbv zeta.
  apply (proj2 (@Salt_is_the_salt_hashed_with sim.world sim.handle sim.start
                  1 1 65536 8 "mypassword" "mysalt"
                  (fst (run sim.handle
                          (GenerateHashWithSalt 1 1 65536 8 "mypassword" "mysalt")
                          sim.start)))).
  vm_compute. reflexivity.
Defined.

(** ** The command, run by run *)

Lemma exec_bind (W A B : Type) (h : handler W) (p : prog A) (f : A -> prog B)
    (w : W) :
  exec h (bind p f) w =
  let '(a, w1, t1) := exec h p w in
  let '(b, w2, t2) := exec h (f a) w1 in
  (b, w2, (t1 ++ t2)%list).
Proof.
  revert w. induction p as [a | X c k IH]; intros w; cbn [bind exec].
  - destruct (exec h (f a) w) as [[b w2] t2]. reflexivity.
  - destruct (h X c w) as [x w']. rewrite IH.
    destruct (exec h (k x) w') as [[a w1] t1].
    destruct (exec h (f a) w1) as [[b w2] t2]. reflexivity.
Qed.

Section CommandRuns.

Variable Quote : string -> string.
Variable W : Type.
Variable h : handler W.

Lemma exec_command (args : list string) (w : W) :
  exec h (command Quote args) w =
  if (List.length args <? 5)%nat
  then (("aph: not enough arguments provided" ++ newline, 1), w, [])
  else
    match parsed args with
    | inr e => ((Error Quote e ++ newline, 1), w, [])
    | inl (seconds, threads, memory, length) =>
        match List.length args with
        | 5%nat =>
            let '(r, w', t) :=
              exec h (GenerateHash seconds threads memory length
                        (nth 4 args "")) w in
            (finish Quote
               (fun rs => base64_RawStdEncoding_EncodeToString
                            (list_byte_of_string (Salt rs))) r, w', t)
        | 6%nat =>
            let '(r, w', t) :=
              exec h (GenerateHashWithSalt seconds threads memory length
                        (nth 4 args "") (nth 5 args "")) w in
            (finish Quote Salt r, w', t)
        | _ => ((report emptyResultSet "", 0), w, [])
        end
    end.
Proof.
  unfold command, main, parsed.
  destruct (List.length args <? 5)%nat eqn:L; [reflexivity|].
  destruct (ParseTime (nth 0 args "")) as [seconds [e|]]; [reflexivity|].
  destruct (strconv_Atoi (nth 1 args "")) as [threads [e|]]; [reflexivity|].
  destruct (ParseMemory (nth 2 args "")) as [memory [e|]]; [reflexivity|].
  destruct (strconv_Atoi (nth 3 args "")) as [length [e|]]; [reflexivity|].
  apply Nat.ltb_ge in L.
  unfold printAndExit, lift_err, within.
  unfold cmd_bind, cmd_ret, fmt_Print, fmt_Println, os_Exit.
  cbn [bind fst snd].
  destruct (List.length args) as [|[|[|[|[|[|[|n]]]]]]] eqn:E; try lia;
    try reflexivity.
  - rewrite !exec_bind.
    destruct (exec h (GenerateHash _ _ _ _ _) w) as [[[rs err] w'] t].
    unfold finish. cbn [fst snd exec bind].
    destruct err as [e|]; cbn [exec bind fst snd];
      rewrite ?app_nil_r; reflexivity.
  - rewrite !exec_bind.
    destruct (exec h (GenerateHashWithSalt _ _ _ _ _ _) w) as [[[rs err] w'] t].
    unfold finish. cbn [fst snd exec bind].
    destruct err as [e|]; cbn [exec bind fst snd];
      rewrite ?app_nil_r; reflexivity.
Qed.

End CommandRuns.

Lemma parsed_ok (args : list string) (seconds threads memory length : Z) :
  ParseTime (nth 0 args "") = (seconds, None) ->
  strconv_Atoi (nth 1 args "") = (threads, None) ->
  ParseMemory (nth 2 args "") = (memory, None) ->
  strconv_Atoi (nth 3 args "") = (length, None) ->
  parsed args = inl (seconds, threads, memory, length).
Proof. intros H1 H2 H3 H4. unfold parsed. now rewrite H1, H2, H3, H4. Qed.

(** Nothing is hashed before every argument has been read: with fewer
    than five arguments, or with one that does not parse, [main] prints
    one message and ends with status 1 without a call to the clock or
    to the primitive.  The message is that of the first argument that
    fails, in the order time, threads, memory, length. *)
Theorem main_rejects_before_hashing (Quote : string -> string) (W : Type)
    (h : handler W) (w : W) (args : list string)
    (seconds threads memory : Z) (e : error) (ne : strconv.NumError) :
  let p := command Quote args in
  let stop msg := run h p w = (msg ++ newline, 1) /\ trace h p w = [] in
  ((List.length args < 5)%nat ->
   stop "aph: not enough arguments provided") /\
  ((5 <= List.length args)%nat ->
   (snd (ParseTime (nth 0 args "")) = Some e -> stop (Error Quote e)) /\
   (ParseTime (nth 0 args "") = (seconds, None) ->
    (snd (strconv_Atoi (nth 1 args "")) = Some ne ->
     stop (Error Quote (StrconvError ne))) /\
    (strconv_Atoi (nth 1 args "") = (threads, None) ->
     (snd (ParseMemory (nth 2 args "")) = Some e -> stop (Error Quote e)) /\
     (ParseMemory (nth 2 args "") = (memory, None) ->
      snd (strconv_Atoi (nth 3 args "")) = Some ne ->
      stop (Error Quote (StrconvError ne)))))).
Proof.
  cbv zeta. unfold run, trace. rewrite exec_command. split.
  - intros L. apply Nat.ltb_lt in L. rewrite L. split; reflexivity.
  - intros L. apply Nat.ltb_ge in L. rewrite L. unfold parsed. split.
    + destruct (ParseTime (nth 0 args "")) as [s0 [e0|]]; cbn [snd];
        intros H; inversion H; subst. split; reflexivity.
    + intros ->. split.
      * destruct (strconv_Atoi (nth 1 args "")) as [t0 [e0|]]; cbn [snd];
          intros H; inversion H; subst. split; reflexivity.
      * intros ->. split.
        -- destruct (ParseMemory (nth 2 args "")) as [m0 [e0|]]; cbn [snd];
             intros H; inversion H; subst. split; reflexivity.
        -- intros ->.
           destruct (strconv_Atoi (nth 3 args "")) as [l0 [e0|]]; cbn [snd];
             intros H; inversion H; subst. split; reflexivity.
Qed.

(** Four arguments; a bad stamp before a bad number; a bad length. *)
Lemma main_rejected_arguments :
  let stop args msg :=
    run sim.handle (command quoted args) sim.start = (msg ++ newline, 1) /\
    trace sim.handle (command quoted args) sim.start = [] in
  stop ["1s"; "2"; "64MB"; "32"] "aph: not enough arguments provided" /\
  stop ["1"; "two"; "64mb"; "32"; "mypassword"]
    "aph: provided stamp was malformed" /\
  stop ["1s"; "2"; "64MB"; "3.5"; "mypassword"]
    ("strconv.Atoi: parsing " ++ quoted "3.5" ++ ": invalid syntax").
Proof.
  cbv zeta. split; [|split].
  - apply (proj1 (@main_rejects_before_hashing quoted sim.world sim.handle
                    sim.start ["1s"; "2"; "64MB"; "32"] 0 0 0
                    ErrorMalformedStamp
                    {| strconv.Func := ""; strconv.Num := "";
                       strconv.Err_ := strconv.ErrSyntax |})).
    simpl. lia.
  - apply (proj1 (proj2 (@main_rejects_before_hashing quoted sim.world
                           sim.handle sim.start
                           ["1"; "two"; "64mb"; "32"; "mypassword"] 0 0 0
                           ErrorMalformedStamp
                           {| strconv.Func := ""; strconv.Num := "";
                              strconv.Err_ := strconv.ErrSyntax |})
                    (le_n 5))).
    reflexivity.
  - apply (proj2 (proj2 (proj2 (proj2
             (@main_rejects_before_hashing quoted sim.world sim.handle
                sim.start ["1s"; "2"; "64MB"; "3.5"; "mypassword"]
                1000 2 65536 ErrorMalformedStamp
                {| strconv.Func := "Atoi"; strconv.Num := "3.5";
                   strconv.Err_ := strconv.ErrSyntax |})
             (le_n 5)) eq_refl) eq_refl)); reflexivity.
Defined.

Lemma length_ge_5 (A : Type) (l : list A) :
  (5 <= List.length l)%nat -> (List.length l <? 5)%nat = false.
Proof. intros H. apply Nat.ltb_ge. exact H. Qed.

(** With seven arguments or more, [main] matches neither case of its
    switch: when the first four arguments parse, nothing is hashed and
    neither the clock nor the primitive is called, the report of the
    empty [ResultSet] is printed and the status is 0. *)
Theorem main_seven_arguments_hash_nothing (Quote : string -> string) (W : Type)
    (h : handler W) (w : W) (args : list string)
    (seconds threads memory length : Z) :
  (7 <= List.length args)%nat ->
  ParseTime (nth 0 args "") = (seconds, None) ->
  strconv_Atoi (nth 1 args "") = (threads, None) ->
  ParseMemory (nth 2 args "") = (memory, None) ->
  strconv_Atoi (nth 3 args "") = (length, None) ->
  trace h (command Quote args) w = [] /\
  run h (command Quote args) w =
  ("Generation Results:" ++ newline ++
   "Time: 0ms" ++ newline ++
   "Threads: 0" ++ newline ++
   "Memory: 0KB" ++ newline ++
   "Length: 0" ++ newline ++
   newline ++
   "Key: " ++ newline ++
   "Salt: " ++ newline ++
   newline ++
   "Hash: " ++ newline ++
   "Hash Length: 0" ++ newline ++
   "Generation Time: 0ms" ++ newline, 0).
Proof.
  intros L H1 H2 H3 H4. unfold run, trace. rewrite exec_command.
  rewrite length_ge_5 by lia.
  rewrite (parsed_ok args H1 H2 H3 H4).
  destruct (List.length args) as [|[|[|[|[|[|[|n]]]]]]]; try lia.
  split; reflexivity.
Qed.

(** A seventh argument after the salt. *)
Lemma main_seven_arguments :
  let args := ["1s"; "2"; "64MB"; "32"; "mypassword"; "mysalt"; "again"] in
  trace sim.handle (command quoted args) sim.start = [] /\
  snd (run sim.handle (command quoted args) sim.start) = 0.
Proof.
  cbv zeta.
  pose proof (@main_seven_arguments_hash_nothing quoted sim.world sim.handle
                sim.start
                ["1s"; "2"; "64MB"; "32"; "mypassword"; "mysalt"; "again"]
                1000 2 65536 32 (le_n 7) eq_refl eq_refl eq_refl eq_refl)
    as [T R].
  split; [exact T | rewrite R; reflexivity].
Defined.

(** With five or six arguments that parse, [main] makes the calls of one
    call of [GenerateHash] or of [GenerateHashWithSalt], and no other.
    The first is the parameter constructor, and what it is given as the
    time cost is the number of milliseconds of the time stamp; the
    number of kilobytes, the threads and the length are reduced like it
    modulo 2^32 and 2^8. *)
Theorem main_hashes_once_with_milliseconds (Quote : string -> string)
    (W : Type) (h : handler W) (w : W) (args : list string)
    (seconds threads memory length : Z) :
  ParseTime (nth 0 args "") = (seconds, None) ->
  strconv_Atoi (nth 1 args "") = (threads, None) ->
  ParseMemory (nth 2 args "") = (memory, None) ->
  strconv_Atoi (nth 3 args "") = (length, None) ->
  let c := argon2id_NewParameters (uint32 seconds) (uint32 memory)
             (uint8 threads) (uint32 length) in
  (List.length args = 5%nat ->
   trace h (command Quote args) w =
     trace h (GenerateHash seconds threads memory length (nth 4 args "")) w /\
   hd_error (trace h (command Quote args) w) = Some (Event c (fst (h _ c w)))) /\
  (List.length args = 6%nat ->
   trace h (command Quote args) w =
     trace h (GenerateHashWithSalt seconds threads memory length
                (nth 4 args "") (nth 5 args "")) w /\
   hd_error (trace h (command Quote args) w) = Some (Event c (fst (h _ c w)))).
Proof.
  intros H1 H2 H3 H4. cbv zeta.
  split; intros L.
  - assert (T : trace h (command Quote args) w =
                trace h (GenerateHash seconds threads memory length
                           (nth 4 args "")) w).
    { unfold trace. rewrite exec_command, L, (parsed_ok args H1 H2 H3 H4).
      cbn [Nat.ltb Nat.leb].
      destruct (exec h (GenerateHash _ _ _ _ _) w) as [[r w'] t]. reflexivity. }
    split; [exact T|]. rewrite T.
    apply (hashCall_constructor h w seconds threads memory length
             (nth 4 args "") None).
  - assert (T : trace h (command Quote args) w =
                trace h (GenerateHashWithSalt seconds threads memory length
                           (nth 4 args "") (nth 5 args "")) w).
    { unfold trace. rewrite exec_command, L, (parsed_ok args H1 H2 H3 H4).
      cbn [Nat.ltb Nat.leb].
      destruct (exec h (GenerateHashWithSalt _ _ _ _ _ _) w) as [[r w'] t].
      reflexivity. }
    split; [exact T|]. rewrite T.
    apply (hashCall_constructor h w seconds threads memory length
             (nth 4 args "") (Some (nth 5 args ""))).
Qed.

(** The command line of the README: one second is a time cost of 1000.
    And a thread count of -1 is 255 threads, 4096 GB are no memory. *)
Lemma main_README_parameters :
  hd_error (trace sim.handle
              (command quoted ["1s"; "2"; "64MB"; "32"; "mypassword"]) sim.start) =
    Some (Event (argon2id_NewParameters 1000 65536 2 32)
            (fst (sim.handle (argon2id_NewParameters 1000 65536 2 32)
                    sim.start))) /\
  hd_error (trace sim.handle
              (command quoted ["1s"; "-1"; "4096GB"; "32"; "mypassword"; "mysalt"])
              sim.start) =
    Some (Event (argon2id_NewParameters 1000 0 255 32)
            (fst (sim.handle (argon2id_NewParameters 1000 0 255 32)
                    sim.start))).
Proof.
  split.
  - apply (proj1 (@main_hashes_once_with_milliseconds quoted sim.world
                    sim.handle sim.start
                    ["1s"; "2"; "64MB"; "32"; "mypassword"] 1000 2 65536 32
                    eq_refl eq_refl eq_refl eq_refl)).
    reflexivity.
  - apply (proj2 (@main_hashes_once_with_milliseconds quoted sim.world
                    sim.handle sim.start
                    ["1s"; "-1"; "4096GB"; "32"; "mypassword"; "mysalt"]
                    1000 (-1) 4294967296 32
                    eq_refl eq_refl eq_refl eq_refl)).
    reflexivity.
Defined.

Lemma finish_cases (Quote : string -> string) (pretty : ResultSet -> string)
    (r : ResultSet * option error) :
  (snd r = None /\
   finish Quote pretty r = (report (fst r) (pretty (fst r)), 0)) \/
  (exists e, snd r = Some e /\
             finish Quote pretty r = (Error Quote e ++ newline, 1)).
Proof.
  unfold finish. destruct (snd r) as [e|]; [right; exists e | left]; auto.
Qed.

(** The status of the command is 0 or 1.  It is 0 when [main] has
    printed a report, and then no call of the primitive answered with an
    error; it is 1 when [main] has printed one message and a line feed,
    and whenever a call of the primitive answered with an error. *)
Theorem main_exit_status (Quote : string -> string) (W : Type)
    (h : handler W) (w : W) (args : list string) :
  let out := fst (run h (command Quote args) w) in
  let code := snd (run h (command Quote args) w) in
  let errs := errors_answered (trace h (command Quote args) w) in
  (code = 0 /\ errs = [] /\ exists rs salt, out = report rs salt) \/
  (code = 1 /\ (exists msg, out = msg ++ newline) /\
   forall e, In e errs -> out = e ++ newline).
Proof.
  cbv zeta. unfold run, trace. rewrite exec_command.
  destruct (List.length args <? 5)%nat eqn:L.
  { right. cbn [fst snd errors_answered flat_map]. split; [reflexivity|].
    split; [eauto | intros e []]. }
  destruct (parsed args) as [[[[seconds threads] memory] length]|e].
  2:{ right. cbn [fst snd errors_answered flat_map]. split; [reflexivity|].
      split; [eauto | intros e' []]. }
  apply Nat.ltb_ge in L.
  destruct (List.length args) as [|[|[|[|[|[|[|n]]]]]]]; try lia.
  - pose proof (@hashCall_failure W h seconds threads memory length
                  (nth 4 args "") None w) as F.
    pose proof (@hashCall_no_error_swallowed W h seconds threads memory length
                  (nth 4 args "") None w) as S.
    unfold run, trace in F, S. cbn [hashCall] in F, S.
    destruct (exec h (GenerateHash _ _ _ _ _) w) as [[r w'] t].
    cbn [fst snd] in *.
    destruct (finish_cases Quote
                (fun rs => base64_RawStdEncoding_EncodeToString
                             (list_byte_of_string (Salt rs))) r)
      as [[E ->] | (e & E & ->)]; cbn [fst snd].
    + left. split; [reflexivity|]. split; [auto | eauto].
    + right. split; [reflexivity|]. split; [eauto|].
      destruct (F e E) as (_ & msg & -> & T). cbv zeta in T.
      destruct T as [(params & ->) | (params & t0 & hash & d & ->)];
        cbn; intros e' [<- | []]; reflexivity.
  - pose proof (@hashCall_failure W h seconds threads memory length
                  (nth 4 args "") (Some (nth 5 args "")) w) as F.
    pose proof (@hashCall_no_error_swallowed W h seconds threads memory length
                  (nth 4 args "") (Some (nth 5 args "")) w) as S.
    unfold run, trace in F, S. cbn [hashCall] in F, S.
    destruct (exec h (GenerateHashWithSalt _ _ _ _ _ _) w) as [[r w'] t].
    cbn [fst snd] in *.
    destruct (finish_cases Quote Salt r) as [[E ->] | (e & E & ->)];
      cbn [fst snd].
    + left. split; [reflexivity|]. split; [auto | eauto].
    + right. split; [reflexivity|]. split; [eauto|].
      destruct (F e E) as (_ & msg & -> & T). cbv zeta in T.
      destruct T as [(params & ->) | (params & t0 & hash & d & ->)];
        cbn; intros e' [<- | []]; reflexivity.
  - left. cbn [fst snd errors_answered flat_map].
    split; [reflexivity|]. split; [reflexivity | eauto].
Qed.

(** What a run that hashes prints.  With six arguments and a call of
    [GenerateHashWithSalt] that succeeds, it is the report of the
    [ResultSet] with the salt as it was typed; with five and
    [GenerateHash], the report with the salt of the [ResultSet] in
    base64 without padding; and when the call fails, the message of its
    error, with status 1. *)
Theorem main_prints_the_result (Quote : string -> string) (W : Type)
    (h : handler W) (w : W) (args : list string)
    (seconds threads memory length : Z) (rs : ResultSet) (e : error) :
  ParseTime (nth 0 args "") = (seconds, None) ->
  strconv_Atoi (nth 1 args "") = (threads, None) ->
  ParseMemory (nth 2 args "") = (memory, None) ->
  strconv_Atoi (nth 3 args "") = (length, None) ->
  let key := nth 4 args "" in
  let salt := nth 5 args "" in
  let p1 := GenerateHash seconds threads memory length key in
  let p2 := GenerateHashWithSalt seconds threads memory length key salt in
  (List.length args = 5%nat ->
   (run h p1 w = (rs, None) ->
    run h (command Quote args) w =
      (report rs (base64_RawStdEncoding_EncodeToString
                    (list_byte_of_string (Salt rs))), 0)) /\
   (snd (run h p1 w) = Some e ->
    run h (command Quote args) w = (Error Quote e ++ newline, 1))) /\
  (List.length args = 6%nat ->
   (run h p2 w = (rs, None) ->
    Key rs = key /\ Salt rs = salt /\
    run h (command Quote args) w = (report rs salt, 0)) /\
   (snd (run h p2 w) = Some e ->
    run h (command Quote args) w = (Error Quote e ++ newline, 1))).
Proof.
  intros H1 H2 H3 H4. cbv zeta. split; intros L.
  - unfold run at 2 4. rewrite exec_command, L, (parsed_ok args H1 H2 H3 H4).
    cbn [Nat.ltb Nat.leb]. unfold run.
    destruct (exec h (GenerateHash _ _ _ _ _) w) as [[r w'] t].
    cbn [fst snd]. unfold finish. split.
    + intros ->. reflexivity.
    + intros ->. reflexivity.
  - split.
    + intros R.
      pose proof (@hashCall_success W h seconds threads memory length
                    (nth 4 args "") (Some (nth 5 args "")) w rs R)
        as (params & w1 & t0 & w2 & hash & w3 & d & w4 & _ & _ & _ & _ & E).
      assert (K : Key rs = nth 4 args "" /\ Salt rs = nth 5 args "").
      { rewrite E. cbn [Key Salt salted argon2id.saltBytes argon2id.withSalt
                          argon2id.Salt].
        rewrite !string_of_list_byte_of_string. split; reflexivity. }
      destruct K as [K1 K2]. split; [exact K1|]. split; [exact K2|].
      revert R. unfold run. rewrite exec_command, L, (parsed_ok args H1 H2 H3 H4).
      cbn [Nat.ltb Nat.leb].
      destruct (exec h (GenerateHashWithSalt _ _ _ _ _ _) w) as [[r w'] t].
      cbn [fst snd]. unfold finish. intros ->. cbn [fst snd].
      rewrite K2. reflexivity.
    + unfold run. rewrite exec_command, L, (parsed_ok args H1 H2 H3 H4).
      cbn [Nat.ltb Nat.leb].
      destruct (exec h (GenerateHashWithSalt _ _ _ _ _ _) w) as [[r w'] t].
      cbn [fst snd]. unfold finish. intros ->. reflexivity.
Qed.

(** A run with a salt, and a run that asks for more memory than there
    is. *)
Lemma main_runs_that_hash :
  let args := ["1s"; "2"; "64MB"; "32"; "mypassword"; "mysalt"] in
  let rs := fst (run sim.handle
                   (GenerateHashWithSalt 1000 2 65536 32 "mypassword" "mysalt")
                   sim.start) in
  run sim.handle (command quoted args) sim.start = (report rs "mysalt", 0) /\
  run sim.handle (command quoted ["1ms"; "1"; "64GB"; "32"; "mypassword"])
    sim.start = ("argon2id: out of memory" ++ newline, 1).
Proof.
  cbv zeta. split.
  - apply (proj1 (proj2 (@main_prints_the_result quoted sim.world sim.handle
                           sim.start
                           ["1s"; "2"; "64MB"; "32"; "mypassword"; "mysalt"]
                           1000 2 65536 32 _ ErrorMalformedStamp
                           eq_refl eq_refl eq_refl eq_refl) eq_refl)).
    reflexivity.
  - apply (proj2 (proj1 (@main_prints_the_result quoted sim.world sim.handle
                           sim.start
                           ["1ms"; "1"; "64GB"; "32"; "mypassword"]
                           1 1 67108864 32 emptyResultSet
                           (Argon2idError "argon2id: out of memory")
                           eq_refl eq_refl eq_refl eq_refl) eq_refl)).
    reflexivity.
Defined.

(** ** Stamps that cannot be well formed *)

Lemma lacks_app (c : ascii) (s t : string) :
  lacks c (s ++ t) = lacks c s && lacks c t.
Proof.
  induction s as [|a s IH]; cbn [append lacks]; [reflexivity|].
  rewrite IH. now rewrite andb_assoc.
Qed.

Lemma no_digits_app (s t : string) :
  no_digits (s ++ t) = no_digits s && no_digits t.
Proof.
  induction s as [|a s IH]; cbn [append no_digits]; [reflexivity|].
  rewrite IH. now rewrite andb_assoc.
Qed.

Lemma number_has_digit (num : string) : number num -> no_digits num = false.
Proof.
  intros [ip Hne Hd | ip fp Hne Hd _ _];
    (destruct ip as [|a ip]; [contradiction|]);
    cbn [all_digits append no_digits] in *;
    apply andb_prop in Hd as [-> _]; reflexivity.
Qed.

Lemma stamp_has_digit (units : list string) (s : string) :
  contains_stamp units s -> no_digits s = false.
Proof.
  intros (pre & num & unit & post & Hn & _ & ->).
  rewrite !no_digits_app, (number_has_digit Hn).
  now rewrite andb_false_r.
Qed.

Lemma stamp_has_letter (units : list string) (c : ascii) (s : string) :
  (forall u, In u units -> lacks c u = false) ->
  contains_stamp units s -> lacks c s = false.
Proof.
  intros Hu (pre & num & unit & post & _ & Hin & ->).
  rewrite !lacks_app, (Hu unit Hin). cbn [andb].
  now rewrite !andb_false_r.
Qed.

(** A stamp needs a digit and the letter of its unit, in the case the
    patterns spell it: without a decimal digit both parsers answer
    [ErrorMalformedStamp]; so does [ParseTime] without a lower-case s,
    and [ParseMemory] without an upper-case B. *)
Theorem stamps_need_a_digit_and_a_unit (stamp : string) :
  (no_digits stamp = true ->
   ParseTime stamp = (0, Some ErrorMalformedStamp) /\
   ParseMemory stamp = (0, Some ErrorMalformedStamp)) /\
  (lacks "s" stamp = true ->
   ParseTime stamp = (0, Some ErrorMalformedStamp)) /\
  (lacks "B" stamp = true ->
   ParseMemory stamp = (0, Some ErrorMalformedStamp)).
Proof.
  destruct (ParseTime_errors stamp) as [T1 T2].
  destruct (ParseMemory_errors stamp) as [M1 M2].
  assert (T : ~ contains_stamp timeUnits stamp ->
              ParseTime stamp = (0, Some ErrorMalformedStamp)).
  { intros H. apply T2 in H.
    destruct T1 as [E | [E | [E | (num & _ & E)]]]; rewrite E in *;
      try reflexivity; cbn [fst snd] in *; congruence. }
  assert (M : ~ contains_stamp memoryUnits stamp ->
              ParseMemory stamp = (0, Some ErrorMalformedStamp)).
  { intros H. apply M2 in H.
    destruct M1 as [E | [E | [E | (num & _ & E)]]]; rewrite E in *;
      try reflexivity; cbn [fst snd] in *; congruence. }
  split; [|split].
  - intros H. split; [apply T | apply M]; intros C;
      apply stamp_has_digit in C; congruence.
  - intros H. apply T. intros C.
    apply (@stamp_has_letter timeUnits "s"%char) in C; [congruence|].
    intros u [<- | [<- | []]]; reflexivity.
  - intros H. apply M. intros C.
    apply (@stamp_has_letter memoryUnits "B"%char) in C; [congruence|].
    intros u [<- | [<- | [<- | []]]]; reflexivity.
Qed.

(** Units in the other case, a unit alone, a time with a space. *)
Lemma stamps_without_unit_or_digit :
  ParseMemory "64mb" = (0, Some ErrorMalformedStamp) /\
  ParseTime "10S" = (0, Some ErrorMalformedStamp) /\
  ParseTime "ms" = (0, Some ErrorMalformedStamp) /\
  ParseMemory "GB" = (0, Some ErrorMalformedStamp).
Proof.
  split; [|split; [|split]].
  - apply (proj2 (proj2 (stamps_need_a_digit_and_a_unit "64mb"))). reflexivity.
  - apply (proj1 (proj2 (stamps_need_a_digit_and_a_unit "10S"))). reflexivity.
  - apply (proj1 (proj1 (stamps_need_a_digit_and_a_unit "ms") eq_refl)).
  - apply (proj2 (proj1 (stamps_need_a_digit_and_a_unit "GB") eq_refl)).
Defined.

(** ** The salt in base64 *)

Lemma sextet_in_encodeStd (v : Z) :
  lacks (sextet (Z.land v 63)) encodeStd = false.
Proof.
  change 63 with (Z.ones 6). rewrite Z.land_ones by lia.
  pose proof (Z.mod_pos_bound v (2 ^ 6) ltac:(lia)) as B.
  unfold sextet.
  change (2 ^ 6) with 64 in *.
  assert (N : (Z.to_nat (v mod 64) < 64)%nat) by lia.
  revert N. generalize (Z.to_nat (v mod 64)). intros n N.
  do 64 (destruct n as [|n]; [reflexivity|]). lia.
Qed.

Lemma base64_shape (n : nat) (src : list byte) :
  (List.length src <= n)%nat ->
  String.length (base64_RawStdEncoding_EncodeToString src) =
    ((4 * List.length src + 2) / 3)%nat /\
  in_encodeStd (base64_RawStdEncoding_EncodeToString src) = true.
Proof.
  revert src. induction n as [|n IH]; intros src L.
  - destruct src; [split; reflexivity | simpl in L; lia].
  - destruct src as [|a [|b [|c rest]]].
    + split; reflexivity.
    + cbn [base64_RawStdEncoding_EncodeToString in_encodeStd].
      rewrite !sextet_in_encodeStd. split; reflexivity.
    + cbn [base64_RawStdEncoding_EncodeToString in_encodeStd].
      rewrite !sextet_in_encodeStd. split; reflexivity.
    + destruct (IH rest) as [IL IA]; [simpl in L; lia|].
      cbn [base64_RawStdEncoding_EncodeToString in_encodeStd String.length
             List.length].
      rewrite !sextet_in_encodeStd, IL, IA. split; [|reflexivity].
      replace (4 * S (S (S (List.length rest))) + 2)%nat
        with ((4 * List.length rest + 2) + 4 * 3)%nat by lia.
      rewrite Nat.div_add by lia. lia.
Qed.

(** The salt [main] shows when it was given none: the base64 form of
    [n] bytes has [(4n + 2) / 3] characters, each of the 64 of the
    standard alphabet, and so no padding and no byte of the salt as it
    is. *)
Theorem base64_of_a_salt (src : list byte) :
  String.length (base64_RawStdEncoding_EncodeToString src) =
    ((4 * List.length src + 2) / 3)%nat /\
  in_encodeStd (base64_RawStdEncoding_EncodeToString src) = true.
Proof. apply (base64_shape (n:=List.length src)). apply le_n. Qed.

(** ** Numbers that are not rounded to an infinity *)

Lemma dec_value_bound (s : string) (acc : Z) :
  all_digits s = true -> 0 <= acc ->
  dec_value acc s < (acc + 1) * 10 ^ Z.of_nat (String.length s).
Proof.
  revert acc. induction s as [|c s IH]; intros acc Hd Ha.
  - cbn. lia.
  - cbn [all_digits] in Hd. apply andb_prop in Hd as [Hc Hs].
    pose proof (@digit_val_nonneg c Hc) as B.
    cbn [dec_value String.length]. rewrite Nat2Z.inj_succ, Z.pow_succ_r by lia.
    specialize (IH (10 * acc + digit_val c) Hs ltac:(lia)).
    assert (0 < 10 ^ Z.of_nat (String.length s)) by (apply Z.pow_pos_nonneg; lia).
    nia.
Qed.

(** A number of at most 307 bytes is below [10^307], and so below
    [2^1023]. *)
Lemma readFloat_bound (num : string) :
  number num -> (String.length num <= 307)%nat ->
  exists n k, strconv.readFloat num = Some (n, k) /\
              0 <= n < 2 ^ 1023 * 10 ^ Z.of_nat k.
Proof.
  assert (T : 10 ^ 307 < 2 ^ 1023) by (vm_compute; reflexivity).
  intros [ip Hne Hd | ip fp Hne Hd Hfne Hfd] L.
  - exists (dec_value 0 ip), O. rewrite readFloat_int by assumption.
    split; [reflexivity|].
    pose proof (@dec_value_bound ip 0 Hd ltac:(lia)) as B.
    pose proof (@dec_value_nonneg ip 0 Hd ltac:(lia)) as N.
    assert (10 ^ Z.of_nat (String.length ip) <= 10 ^ 307)
      by (apply Z.pow_le_mono_r; lia).
    cbn [Z.of_nat]. rewrite Z.pow_0_r. lia.
  - exists (dec_value 0 (ip ++ fp)), (String.length fp).
    rewrite readFloat_frac by assumption. split; [reflexivity|].
    assert (Hall : all_digits (ip ++ fp) = true)
      by (rewrite all_digits_app, Hd, Hfd; reflexivity).
    pose proof (@dec_value_bound (ip ++ fp) 0 Hall ltac:(lia)) as B.
    pose proof (@dec_value_nonneg (ip ++ fp) 0 Hall ltac:(lia)) as N.
    rewrite !length_append in L. cbn [String.length] in L.
    rewrite length_append, Nat2Z.inj_add, Z.pow_add_r in B by lia.
    assert (10 ^ Z.of_nat (String.length ip) <= 10 ^ 307)
      by (apply Z.pow_le_mono_r; lia).
    assert (0 < 10 ^ Z.of_nat (String.length fp))
      by (apply Z.pow_pos_nonneg; lia).
    split; [exact N | nia].
Qed.

Lemma ParseFloat_finite (num : string) :
  number num -> (String.length num <= 307)%nat ->
  snd (strconv.ParseFloat num) = None.
Proof.
  intros Hn L. destruct (readFloat_bound Hn L) as (n & k & E & B0 & B1).
  unfold strconv.ParseFloat. rewrite E.
  assert (P : 0 < 10 ^ Z.of_nat k) by (apply Z.pow_pos_nonneg; lia).
  destruct (Z.eq_dec n 0) as [-> | Hz].
  - reflexivity.
  - rewrite of_ratio_finite by lia. reflexivity.
Qed.

Lemma convertTime_short (num u : string) :
  number num -> (String.length num <= 307)%nat ->
  convertTime num u = (fst (convertTime num u), None) \/
  convertTime num u = (0, Some ErrorSplitAtomic).
Proof.
  intros Hn L. pose proof (ParseFloat_finite Hn L) as F.
  unfold convertTime. destruct (strconv.ParseFloat num) as [t err].
  cbn [snd] in F. subst err.
  destruct (u =? "ms")%string; [destruct (math.neq _ _); auto|].
  destruct (u =? "s")%string; auto.
Qed.

Lemma convertMemory_short (num u : string) :
  number num -> (String.length num <= 307)%nat ->
  convertMemory num u = (fst (convertMemory num u), None) \/
  convertMemory num u = (0, Some ErrorSplitAtomic).
Proof.
  intros Hn L. pose proof (ParseFloat_finite Hn L) as F.
  unfold convertMemory. destruct (strconv.ParseFloat num) as [t err].
  cbn [snd] in F. subst err.
  destruct (u =? "KB")%string; [destruct (math.neq _ _); auto|].
  destruct (u =? "MB")%string; auto.
  destruct (u =? "GB")%string; auto.
Qed.

(** The range error of [strconv.ParseFloat] needs a long number: for a
    stamp of at most 307 bytes, [ParseTime] and [ParseMemory] return a
    number, [ErrorMalformedStamp] or [ErrorSplitAtomic], and never an
    error of [strconv]. *)
Theorem short_stamps_meet_no_range_error (stamp : string) :
  (String.length stamp <= 307)%nat ->
  (ParseTime stamp = (fst (ParseTime stamp), None) \/
   ParseTime stamp = (0, Some ErrorMalformedStamp) \/
   ParseTime stamp = (0, Some ErrorSplitAtomic)) /\
  (ParseMemory stamp = (fst (ParseMemory stamp), None) \/
   ParseMemory stamp = (0, Some ErrorMalformedStamp) \/
   ParseMemory stamp = (0, Some ErrorSplitAtomic)).
Proof.
  intros L. rewrite ParseTime_scan, ParseMemory_scan. split.
  - destruct (scan_from timeUnits stamp) as [[pre [[num u] rest]]|] eqn:E;
      [|auto].
    apply scan_from_sound in E as (Hn & _ & ->).
    rewrite !length_append in L.
    destruct (@convertTime_short num u Hn ltac:(lia)) as [C | C]; auto.
  - destruct (scan_from memoryUnits stamp) as [[pre [[num u] rest]]|] eqn:E;
      [|auto].
    apply scan_from_sound in E as (Hn & _ & ->).
    rewrite !length_append in L.
    destruct (@convertMemory_short num u Hn ltac:(lia)) as [C | C]; auto.
Qed.

(** A number of 300 digits is still within binary64. *)
Lemma a_stamp_of_three_hundred_digits :
  let stamp := "1" ++ replicate 299 "0" ++ "ms" in
  ParseTime stamp = (fst (ParseTime stamp), None) \/
  ParseTime stamp = (0, Some ErrorMalformedStamp) \/
  ParseTime stamp = (0, Some ErrorSplitAtomic).
Proof.
  cbv zeta.
  apply (proj1 (@short_stamps_meet_no_range_error
                  ("1" ++ replicate 299 "0" ++ "ms") ltac:(vm_compute; lia))).
Defined.

(** ** Every number is read to within one unit *)

Lemma round_nearest_even_0 (l : location) :
  round_nearest_even 0 l = 0 \/ round_nearest_even 0 l = 1.
Proof. destruct l as [|[]]; cbn; auto. Qed.

(** What [binary_round_aux] answers below [2^1023]: the mantissa is cut
    to 53 bits, or to the least exponent, and the last bit kept is
    rounded up or not. *)
Lemma round_spec (m e : Z) (l : location) :
  0 <= m -> e <= 970 -> m < 2 ^ (1023 - e) ->
  let E := Z.max e (fexp math.prec math.emax (Zdigits2 m + e)) in
  exists M,
    m / 2 ^ (E - e) <= M <= m / 2 ^ (E - e) + 1 /\
    float_is (binary_round_aux math.prec math.emax false m e l) M E.
Proof.
  intros Hm He Hu. cbv zeta. unfold binary_round_aux.
  pose proof (@shr_fexp_spec m e l Hm) as S1. cbv zeta in S1.
  destruct (shr_fexp math.prec math.emax m e l) as [r1 e1].
  cbn [fst snd] in S1. destruct S1 as [E1 M1]. rewrite <- E1 in *.
  pose proof (Zdigits2_le (m:=m) (k:=1023 - e) ltac:(lia) ltac:(lia)) as D.
  assert (B1 : e <= e1 <= 970 /\ -1074 <= e1 /\ Zdigits2 m + e - 53 <= e1).
  { rewrite E1. unfold fexp, emin, math.prec, math.emax. lia. }
  assert (P1 : 0 < 2 ^ (e1 - e)) by (apply Z.pow_pos_nonneg; lia).
  assert (U1 : 0 <= shr_m r1 < 2 ^ (1023 - e1)).
  { rewrite M1. split; [apply Z.div_pos; lia|].
    apply Z.div_lt_upper_bound; [lia|].
    rewrite <- Z.pow_add_r by lia.
    replace (e1 - e + (1023 - e1)) with (1023 - e) by lia. exact Hu. }
  assert (V1 : shr_m r1 < 2 ^ 53).
  { rewrite M1. apply Z.div_lt_upper_bound; [lia|].
    rewrite <- Z.pow_add_r by lia.
    destruct m as [|p|p]; [apply Z.pow_pos_nonneg; lia | | lia].
    pose proof (Zdigits2_bounds p) as [_ Bu].
    assert (2 ^ Zdigits2 (Zpos p) <= 2 ^ (e1 - e + 53))
      by (apply Z.pow_le_mono_r; lia).
    lia. }
  pose proof (round_nearest_even_bounds (shr_m r1) (loc_of_shr_record r1)) as R.
  set (m2 := round_nearest_even (shr_m r1) (loc_of_shr_record r1)) in *.
  exists m2. rewrite <- M1. split; [exact R|].
  pose proof (@shr_fexp_spec m2 e1 loc_Exact ltac:(lia)) as S2. cbv zeta in S2.
  destruct (shr_fexp math.prec math.emax m2 e1 loc_Exact) as [r2 e2].
  cbn [fst snd] in S2. destruct S2 as [E2 M2]. rewrite <- E2 in M2.
  destruct (Z.eq_dec m2 0) as [Z2 | NZ2].
  { left. split; [exact Z2|]. rewrite M2, Z2, Z.div_0_l; [reflexivity|].
    apply Z.pow_nonzero; lia. }
  right. split; [lia|].
  destruct (Z.eq_dec m2 (2 ^ 53)) as [T2 | NT2].
  - assert (D2 : Zdigits2 m2 = 54).
    { rewrite T2. apply Zdigits2_unique; [|apply Z.pow_pos_nonneg; lia].
      change (54 - 1) with 53. split; [lia|]. apply Z.pow_lt_mono_r; lia. }
    assert (F2 : e2 = e1 + 1).
    { rewrite E2, D2. unfold fexp, emin, math.prec, math.emax. lia. }
    rewrite M2, F2, T2. replace (e1 + 1 - e1) with 1 by lia.
    change (2 ^ 53 / 2 ^ 1) with (Zpos 4503599627370496).
    unfold math.emax, math.prec.
    destruct (Z.leb_spec (e1 + 1) (1024 - 53)); [|lia].
    exists 4503599627370496%positive, (e1 + 1).
    split; [reflexivity|]. split; [lia|].
    replace (e1 + 1 - e1) with 1 by lia. reflexivity.
  - assert (U2 : 0 < m2 < 2 ^ 53) by lia.
    pose proof (Zdigits2_le (m:=m2) (k:=53) ltac:(lia) ltac:(lia)) as D2.
    assert (F2 : e2 = e1).
    { rewrite E2. unfold fexp, emin, math.prec, math.emax. lia. }
    rewrite M2, F2, Z.sub_diag, Z.pow_0_r, Z.div_1_r.
    destruct m2 as [|p2|p2]; try lia.
    unfold math.emax, math.prec.
    destruct (Z.leb_spec e1 (1024 - 53)); [|lia].
    exists p2, e1. split; [reflexivity|]. split; [lia|].
    rewrite Z.sub_diag, Z.pow_0_r. lia.
Qed.

(** The binary64 number nearest to [n / d], when that is below [2^B]:
    it is [M / 2^a] with [a] at least [53 - B], one unit of the last
    place from [n / d] at most. *)
Lemma of_ratio_spec (n d B : Z) :
  0 < n -> 0 < d -> 0 <= B <= 53 -> n < 2 ^ B * d ->
  exists M a,
    53 - B <= a /\ 0 <= M /\
    float_is (math.of_ratio n d) M (- a) /\
    (M - 1) * d <= n * 2 ^ a < (M + 1) * d.
Proof.
  intros Hn Hd HB Hu. unfold math.of_ratio.
  destruct n as [|pn|pn]; try lia.
  unfold SFdiv_core_binary.
  set (d1 := Zdigits2 (Zpos pn)). set (d2 := Zdigits2 d).
  set (e' := Z.min _ _).
  assert (PB : 0 < 2 ^ B) by (apply Z.pow_pos_nonneg; lia).
  assert (D12 : d1 - d2 <= B).
  { pose proof (Zdigits2_bounds pn) as [Bl _]. fold d1 in Bl.
    destruct d as [|pd|pd]; try lia.
    pose proof (Zdigits2_bounds pd) as [_ Bu]. fold d2 in Bu.
    assert (0 < d1) by (subst d1; cbn; lia).
    assert (0 < d2) by (subst d2; cbn; lia).
    assert (2 ^ (d1 - 1) < 2 ^ (B + d2)).
    { rewrite (Z.pow_add_r 2 B d2) by lia. nia. }
    apply pow2_lt_inv in H1; lia. }
  assert (He : e' <= B - 53 /\ -1074 <= e').
  { subst e'. unfold fexp, emin, math.prec, math.emax. lia. }
  replace (0 - 0 - e') with (- e') by lia.
  set (m' := match - e' with Z0 => Zpos pn | Zpos _ => Z.shiftl (Zpos pn) (- e')
             | Zneg _ => 0 end).
  assert (Hm : m' = Zpos pn * 2 ^ (- e')).
  { subst m'. destruct (- e') as [|p|p] eqn:E; try lia.
    rewrite Z.shiftl_mul_pow2 by lia. reflexivity. }
  assert (P : 0 < 2 ^ (- e')) by (apply Z.pow_pos_nonneg; lia).
  pose proof (div_sandwich m' Hd) as DS.
  assert (Q : Z.div_eucl m' d = (m' / d, m' mod d)).
  { unfold Z.div, Z.modulo. destruct (Z.div_eucl m' d); reflexivity. }
  rewrite Q. set (q := m' / d) in *.
  assert (Hq : 0 <= q < 2 ^ (B - e')).
  { split; [subst q; apply Z.div_pos; lia|].
    replace (B - e') with (B + - e') by lia. rewrite Z.pow_add_r by lia.
    rewrite Hm in DS. nia. }
  pose proof (Zdigits2_le (m:=q) (k:=B - e') ltac:(lia) Hq) as Dq.
  assert (Hq' : q < 2 ^ (1023 - e')).
  { assert (2 ^ (B - e') <= 2 ^ (1023 - e')) by (apply Z.pow_le_mono_r; lia).
    lia. }
  destruct (@round_spec q e' (new_location d (m' mod d)) (proj1 Hq)
              ltac:(lia) Hq') as (M & HM & F).
  set (E := Z.max e' (fexp math.prec math.emax (Zdigits2 q + e'))) in *.
  assert (HE : e' <= E <= B - 53).
  { subst E. unfold fexp, emin, math.prec, math.emax. lia. }
  assert (PE : 0 < 2 ^ (E - e')) by (apply Z.pow_pos_nonneg; lia).
  pose proof (div_sandwich q PE) as DS2.
  assert (0 <= q / 2 ^ (E - e')) by (apply Z.div_pos; lia).
  exists M, (- E). rewrite Z.opp_involutive.
  split; [lia|]. split; [lia|]. split; [exact F|].
  assert (PA : 0 < 2 ^ (- E)) by (apply Z.pow_pos_nonneg; lia).
  assert (Hp : 2 ^ (- e') = 2 ^ (- E) * 2 ^ (E - e')).
  { rewrite <- Z.pow_add_r by lia. f_equal. lia. }
  rewrite Hm, Hp in DS.
  set (t := 2 ^ (E - e')) in *. set (m1 := q / t) in *.
  set (A := Zpos pn * 2 ^ (- E)) in *.
  assert (L1 : m1 * d * t <= A * t) by nia.
  assert (L2 : A * t < (m1 + 1) * d * t) by nia.
  split.
  - apply Z.mul_le_mono_pos_r in L1; [|exact PE]. nia.
  - apply Z.mul_lt_mono_pos_r in L2; [|exact PE]. nia.
Qed.

(** Two comparisons that differ by a common power of two. *)
Lemma pow_rescale_le (x y p q r s : Z) :
  0 <= p -> 0 <= q -> 0 <= r -> 0 <= s -> p + s = q + r ->
  x * 2 ^ p <= y * 2 ^ q -> x * 2 ^ r <= y * 2 ^ s.
Proof.
  intros Hp Hq Hr Hs E H.
  assert (Pq : 0 < 2 ^ q) by (apply Z.pow_pos_nonneg; lia).
  assert (Ps : 0 < 2 ^ s) by (apply Z.pow_pos_nonneg; lia).
  apply (Z.mul_le_mono_pos_r _ _ (2 ^ q) Pq).
  rewrite <- !Z.mul_assoc, <- !Z.pow_add_r by lia.
  replace (r + q) with (p + s) by lia. replace (s + q) with (q + s) by lia.
  rewrite !Z.pow_add_r, !Z.mul_assoc by lia.
  apply Z.mul_le_mono_pos_r; assumption.
Qed.

Lemma pow_rescale_lt (x y p q r s : Z) :
  0 <= p -> 0 <= q -> 0 <= r -> 0 <= s -> p + s = q + r ->
  x * 2 ^ p < y * 2 ^ q -> x * 2 ^ r < y * 2 ^ s.
Proof.
  intros Hp Hq Hr Hs E H.
  assert (Pq : 0 < 2 ^ q) by (apply Z.pow_pos_nonneg; lia).
  assert (Ps : 0 < 2 ^ s) by (apply Z.pow_pos_nonneg; lia).
  apply (Z.mul_lt_mono_pos_r (2 ^ q) _ _ Pq).
  rewrite <- !Z.mul_assoc, <- !Z.pow_add_r by lia.
  replace (r + q) with (p + s) by lia. replace (s + q) with (q + s) by lia.
  rewrite !Z.pow_add_r, !Z.mul_assoc by lia.
  apply Z.mul_lt_mono_pos_r; assumption.
Qed.

(** The product of [M / 2^a] and the integer [c], when it is below
    [2^B]: it is [M' / 2^b] with [b] at least [53 - B], one unit of
    the last place from the exact product at most. *)
Lemma mul_spec (f : math.float64) (M a c B : Z) :
  float_is f M (- a) -> 0 <= a -> 0 < c < 2 ^ 53 -> 0 <= B <= 53 ->
  c * M < 2 ^ (B + a) ->
  exists M' b,
    53 - B <= b /\ 0 <= M' /\
    float_is (math.mul f (math.of_Z c)) M' (- b) /\
    (M' - 1) * 2 ^ a <= c * M * 2 ^ b < (M' + 1) * 2 ^ a.
Proof.
  intros [[-> ->] | (HM & mm & ee & -> & Hee & Hv)] Ha Hc HB Hu.
  - exists 0, (53 - B). rewrite of_Z_int by lia.
    split; [lia|]. split; [lia|]. split; [left; split; reflexivity|].
    assert (0 < 2 ^ a) by (apply Z.pow_pos_nonneg; lia). lia.
  - replace (ee - - a) with (ee + a) in Hv by lia.
    rewrite of_Z_int by lia. unfold int_float, math.mul. cbn [SFmul xorb].
    destruct (int_float_mantissa Hc) as [Mc Dc].
    pose proof (digits_small Hc) as Dcs.
    set (dc := Zdigits2 c) in *.
    rewrite Pos2Z.inj_mul, Mc.
    set (m := Zpos mm * (c * 2 ^ (53 - dc))). set (e := ee + (dc - 53)).
    assert (Pz : 0 < 2 ^ (ee + a)) by (apply Z.pow_pos_nonneg; lia).
    assert (Pc : 0 < 2 ^ (53 - dc)) by (apply Z.pow_pos_nonneg; lia).
    assert (Hlt : ee < B).
    { assert (2 ^ (ee + a) < 2 ^ (B + a)) by nia.
      apply pow2_lt_inv in H; lia. }
    assert (Hcm : c * Zpos mm < 2 ^ (B - ee)).
    { assert (c * Zpos mm * 2 ^ (ee + a) < 2 ^ (B - ee) * 2 ^ (ee + a)).
      { rewrite <- Z.pow_add_r by lia.
        replace (B - ee + (ee + a)) with (B + a) by lia.
        rewrite <- Hv in Hu. lia. }
      apply Z.mul_lt_mono_pos_r in H; assumption. }
    assert (Hdc : dc + ee <= B).
    { assert (Bc : 2 ^ (dc - 1) <= c).
      { destruct c as [|pc|pc]; try lia. apply (Zdigits2_bounds pc). }
      assert (2 ^ (dc - 1) < 2 ^ (B - ee)) by nia.
      apply pow2_lt_inv in H; lia. }
    assert (Hm : 0 <= m < 2 ^ (B - e)).
    { subst m e. split; [nia|].
      replace (B - (ee + (dc - 53))) with (B - ee + (53 - dc)) by lia.
      rewrite Z.pow_add_r by lia. nia. }
    assert (Hm' : m < 2 ^ (1023 - e)).
    { assert (2 ^ (B - e) <= 2 ^ (1023 - e))
        by (apply Z.pow_le_mono_r; subst e; lia).
      lia. }
    destruct (@round_spec m e loc_Exact (proj1 Hm) ltac:(subst e; lia) Hm')
      as (M' & HM' & F).
    pose proof (Zdigits2_le (m:=m) (k:=B - e) ltac:(subst e; lia) Hm) as Dm.
    set (E := Z.max e (fexp math.prec math.emax (Zdigits2 m + e))) in *.
    assert (HE : e <= E <= B - 53).
    { subst E e. unfold fexp, emin, math.prec, math.emax. lia. }
    assert (PE : 0 < 2 ^ (E - e)) by (apply Z.pow_pos_nonneg; lia).
    pose proof (div_sandwich m PE) as DS.
    assert (0 <= m / 2 ^ (E - e)) by (apply Z.div_pos; lia).
    exists M', (- E). rewrite Z.opp_involutive.
    split; [lia|]. split; [lia|]. split; [exact F|].
    assert (Hm2 : m = c * Zpos mm * 2 ^ (53 - dc)) by (subst m; ring).
    assert (Hv2 : c * M * 2 ^ (- E) = c * Zpos mm * 2 ^ (ee + a + - E)).
    { rewrite <- Hv, (Z.pow_add_r 2 (ee + a) (- E)) by lia. ring. }
    rewrite Hv2. destruct DS as [DS1 DS2].
    assert (PA : 0 < 2 ^ a) by (apply Z.pow_pos_nonneg; lia).
    split.
    + apply (@pow_rescale_le (M' - 1) (c * Zpos mm) (E - e) (53 - dc));
        subst e; try lia.
      rewrite <- Hm2. eapply Z.le_trans; [|exact DS1].
      apply Z.mul_le_mono_nonneg_r; lia.
    + apply (@pow_rescale_lt (c * Zpos mm) (M' + 1) (53 - dc) (E - e));
        subst e; try lia.
      rewrite <- Hm2. eapply Z.lt_le_trans; [exact DS2|].
      apply Z.mul_le_mono_nonneg_r; lia.
Qed.

(** The integer part of [M / 2^b]. *)
Lemma int_spec (f : math.float64) (M b : Z) :
  float_is f M (- b) -> 2 <= b -> M / 2 ^ b < 2 ^ 63 ->
  math.int f = M / 2 ^ b.
Proof.
  intros [[-> ->] | (HM & mm & ee & -> & Hee & Hv)] Hb Hu.
  - rewrite Z.div_0_l; [reflexivity|]. apply Z.pow_nonzero; lia.
  - replace (ee - - b) with (ee + b) in Hv by lia.
    assert (Pz : 0 < 2 ^ (ee + b)) by (apply Z.pow_pos_nonneg; lia).
    assert (Pe : 0 < 2 ^ (- ee)) by (apply Z.pow_pos_nonneg; lia).
    assert (V : M / 2 ^ b = Zpos mm / 2 ^ (- ee)).
    { rewrite <- Hv.
      assert (Q : 2 ^ b = 2 ^ (- ee) * 2 ^ (ee + b)).
      { rewrite <- Z.pow_add_r by lia. f_equal. lia. }
      rewrite Q. apply Z.div_mul_cancel_r; lia. }
    rewrite V in *.
    pose proof (Z.div_pos (Zpos mm) (2 ^ (- ee)) ltac:(lia) Pe) as Q0.
    unfold math.int, math.int_part. cbn [cond_Zopp].
    destruct (Z.leb_spec 0 ee); [lia|].
    rewrite Z.shiftr_div_pow2 by lia.
    unfold math.minInt64, math.maxInt64.
    destruct (Z.leb_spec (- 2 ^ 63) (Zpos mm / 2 ^ (- ee))); [|lia].
    destruct (Z.leb_spec (Zpos mm / 2 ^ (- ee)) (2 ^ 63 - 1));
      [reflexivity | lia].
Qed.

Lemma near_ratio (M a n d : Z) :
  0 < d -> 0 <= a -> (M - 1) * d <= n * 2 ^ a < (M + 1) * d ->
  near M a n d 1 a.
Proof.
  intros Hd Ha [H1 H2].
  assert (P : 0 < 2 ^ a) by (apply Z.pow_pos_nonneg; lia).
  unfold near. split.
  - replace (1 * d * 2 ^ a) with (d * 2 ^ a) by ring.
    apply Z.mul_le_mono_nonneg_r; lia.
  - replace (1 * d * 2 ^ a) with (d * 2 ^ a) by ring.
    apply Z.mul_le_mono_nonneg_r; lia.
Qed.

Lemma near_weaken (X a n d p q q' : Z) :
  0 < d -> 0 <= a -> 0 <= p -> 0 <= q' <= q ->
  near X a n d p q -> near X a n d p q'.
Proof.
  intros Hd Ha Hp Hq [H1 H2].
  assert (P : 0 < 2 ^ a) by (apply Z.pow_pos_nonneg; lia).
  assert (Pq : 0 < 2 ^ q') by (apply Z.pow_pos_nonneg; lia).
  assert (Le : 2 ^ q' <= 2 ^ q) by (apply Z.pow_le_mono_r; lia).
  assert (R : 0 <= p * d * 2 ^ a) by nia.
  unfold near. split.
  - destruct (Z.le_gt_cases 0 (X * d - n * 2 ^ a)); [|nia].
    eapply Z.le_trans; [|exact H1]. apply Z.mul_le_mono_nonneg_l; lia.
  - destruct (Z.le_gt_cases 0 (n * 2 ^ a - X * d)); [|nia].
    eapply Z.le_trans; [|exact H2]. apply Z.mul_le_mono_nonneg_l; lia.
Qed.

Lemma near_scale (X a n d p q c j : Z) :
  0 < d -> 0 <= a -> 0 <= p -> 0 < c <= 2 ^ j -> 0 <= j <= q ->
  near X a n d p q -> near (c * X) a (c * n) d p (q - j).
Proof.
  intros Hd Ha Hp Hc Hj [H1 H2].
  assert (P : 0 < 2 ^ a) by (apply Z.pow_pos_nonneg; lia).
  assert (Pq : 0 < 2 ^ (q - j)) by (apply Z.pow_pos_nonneg; lia).
  assert (Pj : 0 < 2 ^ j) by (apply Z.pow_pos_nonneg; lia).
  assert (Q : 2 ^ q = 2 ^ j * 2 ^ (q - j)).
  { rewrite <- Z.pow_add_r by lia. f_equal. lia. }
  assert (R : 0 <= p * d * 2 ^ a) by nia.
  rewrite Q in H1, H2. unfold near. split.
  - destruct (Z.le_gt_cases 0 (X * d - n * 2 ^ a)); [|nia].
    eapply Z.le_trans; [|exact H1].
    replace (c * X * d - c * n * 2 ^ a) with (c * (X * d - n * 2 ^ a)) by ring.
    rewrite !Z.mul_assoc. apply Z.mul_le_mono_nonneg_r; [lia|].
    rewrite (Z.mul_comm (X * d - n * 2 ^ a)).
    apply Z.mul_le_mono_nonneg_r; lia.
  - destruct (Z.le_gt_cases 0 (n * 2 ^ a - X * d)); [|nia].
    eapply Z.le_trans; [|exact H2].
    replace (c * n * 2 ^ a - c * X * d) with (c * (n * 2 ^ a - X * d)) by ring.
    rewrite !Z.mul_assoc. apply Z.mul_le_mono_nonneg_r; [lia|].
    rewrite (Z.mul_comm (n * 2 ^ a - X * d)).
    apply Z.mul_le_mono_nonneg_r; lia.
Qed.

Lemma near_round (X a n d p q M' b : Z) :
  0 < d -> 0 <= a -> 0 <= p -> 0 <= q <= b ->
  near X a n d p q ->
  (M' - 1) * 2 ^ a <= X * 2 ^ b < (M' + 1) * 2 ^ a ->
  near M' b n d (p + 1) q.
Proof.
  intros Hd Ha Hp Hq [H1 H2] [R1 R2].
  assert (Pa : 0 < 2 ^ a) by (apply Z.pow_pos_nonneg; lia).
  assert (Pb : 0 < 2 ^ b) by (apply Z.pow_pos_nonneg; lia).
  assert (Pq : 0 < 2 ^ q) by (apply Z.pow_pos_nonneg; lia).
  assert (Le : 2 ^ q <= 2 ^ b) by (apply Z.pow_le_mono_r; lia).
  unfold near.
  set (A := 2 ^ a) in *. set (Bb := 2 ^ b) in *. set (Qq := 2 ^ q) in *.
  split.
  - apply (Z.mul_le_mono_pos_r _ _ A Pa).
    assert (S1 : M' * A * (d * Qq) <= (X * Bb + A) * (d * Qq)) by nia.
    assert (S2 : (X * d - n * A) * Qq * Bb <= p * d * A * Bb) by nia.
    nia.
  - apply (Z.mul_le_mono_pos_r _ _ A Pa).
    assert (S1 : (X * Bb - A) * (d * Qq) <= M' * A * (d * Qq)) by nia.
    assert (S2 : (n * A - X * d) * Qq * Bb <= p * d * A * Bb) by nia.
    nia.
Qed.

Lemma near_floor (M b n d p q : Z) :
  0 < d -> 0 <= b -> 0 <= q -> 0 <= p < 2 ^ q -> 0 <= n ->
  near M b n d p q ->
  n / d - 1 <= M / 2 ^ b <= n / d + 1.
Proof.
  intros Hd Hb Hq Hp Hn [H1 H2].
  assert (Pb : 0 < 2 ^ b) by (apply Z.pow_pos_nonneg; lia).
  pose proof (div_sandwich n Hd) as [N1 N2].
  pose proof (div_sandwich M Pb) as [M1 M2].
  set (T := n / d) in *. set (r := M / 2 ^ b) in *.
  set (Bb := 2 ^ b) in *. set (Qq := 2 ^ q) in *.
  assert (G : 0 <= p * d * Bb < Qq * (d * Bb)) by nia.
  split.
  - destruct (Z.le_gt_cases (T - 1) r) as [|C]; [assumption|]. exfalso.
    assert (r + 1 <= T - 1) by lia.
    assert (M + 1 <= (T - 1) * Bb) by nia.
    assert (d * Bb <= n * Bb - M * d) by nia.
    nia.
  - destruct (Z.le_gt_cases r (T + 1)) as [|C]; [assumption|]. exfalso.
    assert (T + 2 <= r) by lia.
    assert ((T + 2) * Bb <= M) by nia.
    assert (d * Bb <= M * d - n * Bb) by nia.
    nia.
Qed.

Lemma float_is_finite (f : math.float64) (M E : Z) :
  float_is f M E -> math.IsInf f = false.
Proof. intros [[_ ->] | (_ & mm & ee & -> & _)]; reflexivity. Qed.

(** [ParseFloat] on a decimal below [2^B]. *)
Lemma ParseFloat_spec (num : string) (n : Z) (k : nat) (B : Z) :
  strconv.readFloat num = Some (n, k) -> 0 <= n ->
  0 <= B <= 53 -> n < 2 ^ B * 10 ^ Z.of_nat k ->
  exists f M a,
    strconv.ParseFloat num = (f, None) /\ float_is f M (- a) /\
    53 - B <= a /\ 0 <= M <= 2 ^ (B + a) /\
    near M a n (10 ^ Z.of_nat k) 1 a.
Proof.
  intros Hr Hn HB Hu. unfold strconv.ParseFloat. rewrite Hr.
  set (d := 10 ^ Z.of_nat k) in *.
  assert (Hd : 0 < d) by (apply Z.pow_pos_nonneg; lia).
  destruct (Z.eq_dec n 0) as [-> | Hz].
  - exists (S754_zero false), 0, (53 - B).
    assert (0 < 2 ^ (B + (53 - B))) by (apply Z.pow_pos_nonneg; lia).
    assert (0 < 2 ^ (53 - B)) by (apply Z.pow_pos_nonneg; lia).
    split; [reflexivity|]. split; [left; split; reflexivity|].
    split; [lia|]. split; [lia|]. apply near_ratio; lia.
  - destruct (@of_ratio_spec n d B ltac:(lia) Hd HB Hu)
      as (M & a & Ha & HM & F & S).
    exists (math.of_ratio n d), M, a.
    rewrite (float_is_finite F).
    split; [reflexivity|]. split; [exact F|]. split; [exact Ha|].
    split; [|apply near_ratio; lia].
    split; [exact HM|].
    assert (Pa : 0 < 2 ^ a) by (apply Z.pow_pos_nonneg; lia).
    assert ((M - 1) * d < 2 ^ (B + a) * d).
    { rewrite Z.pow_add_r by lia. nia. }
    apply Z.mul_lt_mono_pos_r in H; [lia | exact Hd].
Qed.

(** One multiplication by a constant, with the error it adds. *)
Lemma scale_step (f : math.float64) (M a n d p q c j B q' : Z) :
  float_is f M (- a) -> 0 <= a -> 0 <= M -> 0 < d -> 0 <= p ->
  0 < c < 2 ^ 53 -> c <= 2 ^ j -> 0 <= j <= q ->
  0 <= B <= 53 -> c * M < 2 ^ (B + a) ->
  0 <= q' <= q - j -> q' <= 53 - B ->
  near M a n d p q ->
  exists M' b,
    53 - B <= b /\ 0 <= M' /\
    float_is (math.mul f (math.of_Z c)) M' (- b) /\
    near M' b (c * n) d (p + 1) q' /\
    (M' - 1) * 2 ^ a <= c * M * 2 ^ b.
Proof.
  intros F Ha HM Hd Hp Hc Hcj Hj HB Hu Hq' Hq'' N.
  destruct (@mul_spec f M a c B F Ha Hc HB Hu) as (M' & b & Hb & HM' & F' & S).
  exists M', b. split; [exact Hb|]. split; [exact HM'|]. split; [exact F'|].
  split; [|apply S].
  apply (@near_round (c * M) a (c * n) d p q' M' b); try lia.
  apply (@near_weaken (c * M) a (c * n) d p (q - j) q'); try lia.
  apply near_scale; try lia. exact N.
Qed.

Lemma scaled_bound (n c d t : Z) :
  0 < d -> (n * c) / d < t -> n * c < t * d.
Proof.
  intros Hd H. pose proof (div_sandwich (n * c) Hd) as [_ S]. nia.
Qed.

Lemma ParseTime_near_s (num : string) :
  number num -> round_toward_zero_scaled num 1000 < 2 ^ 50 ->
  exists r, ParseTime (num ++ "s") = (r, None) /\
            round_toward_zero_scaled num 1000 - 1 <= r
              <= round_toward_zero_scaled num 1000 + 1.
Proof.
  intros Hnum Hu. destruct (readFloat_number Hnum) as (n & k & Hr).
  rewrite (@scaled_unfold num n k 1000 Hr) in *.
  set (d := 10 ^ Z.of_nat k) in *.
  assert (Hd : 0 < d) by (apply Z.pow_pos_nonneg; lia).
  assert (Hn : 0 <= n).
  { destruct Hnum as [ip Hne Hdg | ip fp Hne Hdg Hfne Hfd].
    - rewrite readFloat_int in Hr by assumption. inversion Hr.
      now apply dec_value_nonneg.
    - rewrite readFloat_frac in Hr by assumption. inversion Hr.
      apply dec_value_nonneg; [|lia].
      rewrite all_digits_app, Hdg, Hfd. reflexivity. }
  apply scaled_bound in Hu; [|exact Hd].
  assert (Hb : n < 2 ^ 41 * d).
  { change (2 ^ 50) with (2 ^ 41 * 512) in Hu. nia. }
  destruct (@ParseFloat_spec num n k 41 Hr Hn ltac:(lia) Hb)
    as (f & M & a & Hf & F & Ha & HM & N).
  fold d in N.
  rewrite (@ParseTime_number_s num f Hnum Hf).
  assert (Pa : 0 < 2 ^ (41 + a)) by (apply Z.pow_pos_nonneg; lia).
  destruct (@scale_step f M a n d 1 12 1000 10 51 2 F ltac:(lia) ltac:(lia)
              Hd ltac:(lia) ltac:(lia) ltac:(lia) ltac:(lia) ltac:(lia)
              ltac:(replace (51 + a) with (10 + (41 + a)) by lia;
                    rewrite (Z.pow_add_r 2 10 (41 + a)) by lia;
                    change (2 ^ 10) with 1024; lia)
              ltac:(lia) ltac:(lia)
              ltac:(apply (@near_weaken M a n d 1 a 12); try lia; exact N))
    as (M' & b & Hb' & HM' & F' & N' & _).
  pose proof (@near_floor M' b (1000 * n) d 2 2 Hd ltac:(lia) ltac:(lia)
                ltac:(change (2 ^ 2) with 4; lia) ltac:(lia) N') as R.
  replace (1000 * n) with (n * 1000) in R by ring.
  assert (T50 : n * 1000 / d < 2 ^ 50).
  { apply Z.div_lt_upper_bound; lia. }
  exists (M' / 2 ^ b). split; [|exact R].
  rewrite (@int_spec _ M' b F') by lia. reflexivity.
Qed.

Lemma ParseMemory_near_MB (num : string) :
  number num -> round_toward_zero_scaled num 1024 < 2 ^ 50 ->
  exists r, ParseMemory (num ++ "MB") = (r, None) /\
            round_toward_zero_scaled num 1024 - 1 <= r
              <= round_toward_zero_scaled num 1024 + 1.
Proof.
  intros Hnum Hu. destruct (readFloat_number Hnum) as (n & k & Hr).
  rewrite (@scaled_unfold num n k 1024 Hr) in *.
  set (d := 10 ^ Z.of_nat k) in *.
  assert (Hd : 0 < d) by (apply Z.pow_pos_nonneg; lia).
  pose proof (readFloat_nonneg Hnum Hr) as Hn.
  apply scaled_bound in Hu; [|exact Hd].
  assert (Hb : n < 2 ^ 40 * d).
  { change (2 ^ 50) with (2 ^ 40 * 1024) in Hu. nia. }
  destruct (@ParseFloat_spec num n k 40 Hr Hn ltac:(lia) Hb)
    as (f & M & a & Hf & F & Ha & HM & N).
  fold d in N.
  rewrite (@ParseMemory_number_MB num f Hnum Hf).
  assert (Pa : 0 < 2 ^ (40 + a)) by (apply Z.pow_pos_nonneg; lia).
  destruct (@scale_step f M a n d 1 13 1024 10 51 2 F ltac:(lia) ltac:(lia)
              Hd ltac:(lia) ltac:(lia) ltac:(lia) ltac:(lia) ltac:(lia)
              ltac:(replace (51 + a) with (11 + (40 + a)) by lia;
                    rewrite (Z.pow_add_r 2 11 (40 + a)) by lia;
                    change (2 ^ 11) with 2048; lia)
              ltac:(lia) ltac:(lia)
              ltac:(apply (@near_weaken M a n d 1 a 13); try lia; exact N))
    as (M' & b & Hb' & HM' & F' & N' & _).
  pose proof (@near_floor M' b (1024 * n) d 2 2 Hd ltac:(lia) ltac:(lia)
                ltac:(change (2 ^ 2) with 4; lia) ltac:(lia) N') as R.
  replace (1024 * n) with (n * 1024) in R by ring.
  assert (T50 : n * 1024 / d < 2 ^ 50).
  { apply Z.div_lt_upper_bound; lia. }
  exists (M' / 2 ^ b). split; [|exact R].
  rewrite (@int_spec _ M' b F') by lia. reflexivity.
Qed.

Lemma ParseMemory_near_GB (num : string) :
  number num -> round_toward_zero_scaled num (1024 * 1024) < 2 ^ 50 ->
  exists r, ParseMemory (num ++ "GB") = (r, None) /\
            round_toward_zero_scaled num (1024 * 1024) - 1 <= r
              <= round_toward_zero_scaled num (1024 * 1024) + 1.
Proof.
  intros Hnum Hu. destruct (readFloat_number Hnum) as (n & k & Hr).
  rewrite (@scaled_unfold num n k (1024 * 1024) Hr) in *.
  set (d := 10 ^ Z.of_nat k) in *.
  assert (Hd : 0 < d) by (apply Z.pow_pos_nonneg; lia).
  pose proof (readFloat_nonneg Hnum Hr) as Hn.
  apply scaled_bound in Hu; [|exact Hd].
  assert (Hb : n < 2 ^ 30 * d).
  { change (2 ^ 50) with (2 ^ 30 * (1024 * 1024)) in Hu. nia. }
  destruct (@ParseFloat_spec num n k 30 Hr Hn ltac:(lia) Hb)
    as (f & M & a & Hf & F & Ha & HM & N).
  fold d in N.
  rewrite (@ParseMemory_number_GB num f Hnum Hf).
  assert (Pa : 0 < 2 ^ (30 + a)) by (apply Z.pow_pos_nonneg; lia).
  destruct (@scale_step f M a n d 1 23 1024 10 41 12 F ltac:(lia) ltac:(lia)
              Hd ltac:(lia) ltac:(lia) ltac:(lia) ltac:(lia) ltac:(lia)
              ltac:(replace (41 + a) with (11 + (30 + a)) by lia;
                    rewrite (Z.pow_add_r 2 11 (30 + a)) by lia;
                    change (2 ^ 11) with 2048; lia)
              ltac:(lia) ltac:(lia)
              ltac:(apply (@near_weaken M a n d 1 a 23); try lia; exact N))
    as (M' & b & Hb' & HM' & F' & N' & S').
  assert (Pb : 0 < 2 ^ b) by (apply Z.pow_pos_nonneg; lia).
  assert (HM'b : M' <= 2 ^ (40 + b) + 1).
  { assert (P2 : 0 < 2 ^ a) by (apply Z.pow_pos_nonneg; lia).
    assert ((M' - 1) * 2 ^ a <= 2 ^ (40 + b) * 2 ^ a).
    { eapply Z.le_trans; [exact S'|].
      rewrite (Z.pow_add_r 2 40 b), (Z.pow_add_r 2 30 a) in * by lia.
      change (2 ^ 40) with (1024 * 2 ^ 30). nia. }
    apply Z.mul_le_mono_pos_r in H; [lia | exact P2]. }
  assert (Big : 1024 < 2 ^ (40 + b)).
  { assert (2 ^ 11 <= 2 ^ (40 + b)) by (apply Z.pow_le_mono_r; lia).
    change (2 ^ 11) with 2048 in H. lia. }
  destruct (@scale_step _ M' b (1024 * n) d 2 12 1024 10 51 2 F'
              ltac:(lia) HM' Hd ltac:(lia) ltac:(lia) ltac:(lia) ltac:(lia)
              ltac:(lia)
              ltac:(replace (51 + b) with (11 + (40 + b)) by lia;
                    rewrite (Z.pow_add_r 2 11 (40 + b)) by lia;
                    change (2 ^ 11) with 2048; lia)
              ltac:(lia) ltac:(lia) N')
    as (M'' & g & Hg & HM'' & F'' & N'' & _).
  pose proof (@near_floor M'' g (1024 * (1024 * n)) d 3 2 Hd ltac:(lia)
                ltac:(lia) ltac:(change (2 ^ 2) with 4; lia) ltac:(lia) N'')
    as R.
  replace (1024 * (1024 * n)) with (n * (1024 * 1024)) in R by ring.
  assert (T50 : n * (1024 * 1024) / d < 2 ^ 50).
  { apply Z.div_lt_upper_bound; lia. }
  exists (M'' / 2 ^ g). split; [|exact R].
  rewrite (@int_spec _ M'' g F'') by lia. reflexivity.
Qed.

(** With an atomic unit, a number below [2^50] that is accepted. *)
Lemma atomic_near (num : string) :
  number num -> round_toward_zero_scaled num 1 < 2 ^ 50 ->
  exists f r,
    strconv.ParseFloat num = (f, None) /\ math.int f = r /\
    round_toward_zero_scaled num 1 - 1 <= r
      <= round_toward_zero_scaled num 1 + 1.
Proof.
  intros Hnum Hu. destruct (readFloat_number Hnum) as (n & k & Hr).
  rewrite (@scaled_unfold num n k 1 Hr) in *.
  set (d := 10 ^ Z.of_nat k) in *.
  assert (Hd : 0 < d) by (apply Z.pow_pos_nonneg; lia).
  pose proof (readFloat_nonneg Hnum Hr) as Hn.
  apply scaled_bound in Hu; [|exact Hd].
  destruct (@ParseFloat_spec num n k 50 Hr Hn ltac:(lia) ltac:(lia))
    as (f & M & a & Hf & F & Ha & HM & N).
  fold d in N.
  pose proof (@near_floor M a n d 1 2 Hd ltac:(lia) ltac:(lia)
                ltac:(change (2 ^ 2) with 4; lia) Hn
                ltac:(apply (@near_weaken M a n d 1 a 2); try lia; exact N))
    as R.
  rewrite Z.mul_1_r in *.
  assert (T50 : n / d < 2 ^ 50).
  { apply Z.div_lt_upper_bound; lia. }
  exists f, (M / 2 ^ a). split; [exact Hf|]. split; [|exact R].
  apply (@int_spec f M a F); lia.
Qed.

(** [ParseTime] is one millisecond from the exact result at most: for a
    number [num] whose value in milliseconds is below 2^50, "<num>s"
    gives round-toward-zero(value x 1000), or one more, or one less; and
    "<num>ms" gives [ErrorSplitAtomic], or round-toward-zero(value) to
    within one. *)
Theorem ParseTime_within_one_millisecond (num : string) :
  number num ->
  (round_toward_zero_scaled num 1000 < 2 ^ 50 ->
   exists r, ParseTime (num ++ "s") = (r, None) /\
     round_toward_zero_scaled num 1000 - 1 <= r
       <= round_toward_zero_scaled num 1000 + 1) /\
  (round_toward_zero_scaled num 1 < 2 ^ 50 ->
   ParseTime (num ++ "ms") = (0, Some ErrorSplitAtomic) \/
   exists r, ParseTime (num ++ "ms") = (r, None) /\
     round_toward_zero_scaled num 1 - 1 <= r
       <= round_toward_zero_scaled num 1 + 1).
Proof.
  intros Hnum. split; [now apply ParseTime_near_s|].
  intros Hu. destruct (atomic_near Hnum Hu) as (f & r & Hf & Hi & R).
  rewrite (@ParseTime_number_ms num f Hnum Hf).
  destruct (math.neq (math.Trunc f) f); [left; reflexivity|].
  right. exists r. rewrite Hi. split; [reflexivity | exact R].
Qed.

(** 1.001 seconds, 2.675 seconds, a third of a second to 20 places. *)
Lemma ParseTime_rounded_stamps :
  (exists r, ParseTime ("1.001" ++ "s") = (r, None) /\
             1001 - 1 <= r <= 1001 + 1) /\
  (exists r, ParseTime ("2.675" ++ "s") = (r, None) /\
             2675 - 1 <= r <= 2675 + 1) /\
  (exists r, ParseTime ("0.33333333333333333333" ++ "s") = (r, None) /\
             333 - 1 <= r <= 333 + 1).
Proof.
  split; [|split].
  - apply (proj1 (@ParseTime_within_one_millisecond "1.001"
                    (number_frac (ip:="1") (fp:="001")
                       ltac:(discriminate) eq_refl ltac:(discriminate)
                       eq_refl))).
    vm_compute. reflexivity.
  - apply (proj1 (@ParseTime_within_one_millisecond "2.675"
                    (number_frac (ip:="2") (fp:="675")
                       ltac:(discriminate) eq_refl ltac:(discriminate)
                       eq_refl))).
    vm_compute. reflexivity.
  - apply (proj1 (@ParseTime_within_one_millisecond "0.33333333333333333333"
                    (number_frac (ip:="0") (fp:="33333333333333333333")
                       ltac:(discriminate) eq_refl ltac:(discriminate)
                       eq_refl))).
    vm_compute. reflexivity.
Defined.

(** [ParseMemory] is one kilobyte from the exact result at most: for a
    number [num] whose value in kilobytes is below 2^50, "<num>MB" gives
    round-toward-zero(value x 1024) and "<num>GB"
    round-toward-zero(value x 1024 x 1024), or one more, or one less;
    and "<num>KB" gives [ErrorSplitAtomic], or round-toward-zero(value)
    to within one. *)
Theorem ParseMemory_within_one_kilobyte (num : string) :
  number num ->
  (round_toward_zero_scaled num 1024 < 2 ^ 50 ->
   exists r, ParseMemory (num ++ "MB") = (r, None) /\
     round_toward_zero_scaled num 1024 - 1 <= r
       <= round_toward_zero_scaled num 1024 + 1) /\
  (round_toward_zero_scaled num (1024 * 1024) < 2 ^ 50 ->
   exists r, ParseMemory (num ++ "GB") = (r, None) /\
     round_toward_zero_scaled num (1024 * 1024) - 1 <= r
       <= round_toward_zero_scaled num (1024 * 1024) + 1) /\
  (round_toward_zero_scaled num 1 < 2 ^ 50 ->
   ParseMemory (num ++ "KB") = (0, Some ErrorSplitAtomic) \/
   exists r, ParseMemory (num ++ "KB") = (r, None) /\
     round_toward_zero_scaled num 1 - 1 <= r
       <= round_toward_zero_scaled num 1 + 1).
Proof.
  intros Hnum. split; [now apply ParseMemory_near_MB|].
  split; [now apply ParseMemory_near_GB|].
  intros Hu. destruct (atomic_near Hnum Hu) as (f & r & Hf & Hi & R).
  rewrite (@ParseMemory_number_KB num f Hnum Hf).
  destruct (math.neq (math.Trunc f) f); [left; reflexivity|].
  right. exists r. rewrite Hi. split; [reflexivity | exact R].
Qed.

(** A tenth of a megabyte, 1.1 gigabytes. *)
Lemma ParseMemory_rounded_stamps :
  (exists r, ParseMemory ("0.1" ++ "MB") = (r, None) /\
             102 - 1 <= r <= 102 + 1) /\
  (exists r, ParseMemory ("1.1" ++ "GB") = (r, None) /\
             1153433 - 1 <= r <= 1153433 + 1).
Proof.
  split.
  - apply (proj1 (@ParseMemory_within_one_kilobyte "0.1"
                    (number_frac (ip:="0") (fp:="1")
                       ltac:(discriminate) eq_refl ltac:(discriminate)
                       eq_refl))).
    vm_compute. reflexivity.
  - apply (proj1 (proj2 (@ParseMemory_within_one_kilobyte "1.1"
                    (number_frac (ip:="1") (fp:="1")
                       ltac:(discriminate) eq_refl ltac:(discriminate)
                       eq_refl)))).
    vm_compute. reflexivity.
Defined.

(** ** Fractions that are not lost *)

(** A binary64 number that is no integer differs from its integer
    part. *)
Lemma Trunc_differs (mm : positive) (ee : Z) :
  ee < 0 -> Zpos mm mod 2 ^ (- ee) <> 0 -> Zpos mm / 2 ^ (- ee) < 2 ^ 53 ->
  math.neq (math.Trunc (S754_finite false mm ee)) (S754_finite false mm ee)
  = true.
Proof.
  intros He Hmod Hu.
  assert (Pe : 0 < 2 ^ (- ee)) by (apply Z.pow_pos_nonneg; lia).
  unfold math.Trunc. destruct (Z.leb_spec 0 ee); [lia|].
  cbn [cond_Zopp]. rewrite Z.shiftr_div_pow2 by lia.
  change (binary_normalize math.prec math.emax (Zpos mm / 2 ^ (- ee)) 0 false)
    with (math.of_Z (Zpos mm / 2 ^ (- ee))).
  pose proof (Z.div_pos (Zpos mm) (2 ^ (- ee)) ltac:(lia) Pe) as Q0.
  set (N := Zpos mm / 2 ^ (- ee)) in *.
  destruct (Z.eq_dec N 0) as [-> | NZ]; [reflexivity|].
  rewrite of_Z_int by lia. unfold int_float, math.neq, SFeqb.
  cbn [SFcompare].
  destruct (Z.compare_spec (Zdigits2 N - 53) ee) as [E | E | E];
    try reflexivity.
  change (Pos.compare_cont Eq (Z.to_pos (N * 2 ^ (53 - Zdigits2 N))) mm)
    with (Pos.compare (Z.to_pos (N * 2 ^ (53 - Zdigits2 N))) mm).
  destruct (Pos.compare_spec (Z.to_pos (N * 2 ^ (53 - Zdigits2 N))) mm)
    as [E2 | E2 | E2]; try reflexivity.
  exfalso. apply Hmod.
  destruct (@int_float_mantissa N ltac:(lia)) as [Hm _].
  rewrite <- E2, Hm. replace (53 - Zdigits2 N) with (- ee) by lia.
  apply Z.mod_mul. lia.
Qed.

(** A bound [B] on the binary size of [n / d] that loses at most one
    bit. *)
Lemma binary_size (n d : Z) :
  0 < n < 10 ^ 15 -> 0 < d ->
  exists B, 0 <= B <= 50 /\ n < 2 ^ B * d /\
            (2 ^ B * d <= d \/ 2 ^ B * d <= 2 * n).
Proof.
  intros Hn Hd. destruct (Z.lt_ge_cases n d) as [C | C].
  - exists 0. rewrite Z.pow_0_r. split; [lia|]. split; [lia|]. left. lia.
  - pose proof (div_sandwich n Hd) as [S1 S2].
    assert (Q : 0 < n / d) by (apply Z.div_str_pos; lia).
    pose proof (Z.log2_spec (n / d) Q) as [L1 L2].
    pose proof (Z.log2_nonneg (n / d)) as L0.
    set (q := n / d) in *. set (l := Z.log2 q) in *.
    rewrite Z.pow_succ_r in L2 by lia.
    assert (Pl : 0 < 2 ^ l) by (apply Z.pow_pos_nonneg; lia).
    assert (Hq : q < 10 ^ 15) by nia.
    assert (Hl : l < 50).
    { apply (@pow2_lt_inv l 50); [lia|].
      assert (10 ^ 15 < 2 ^ 50) by (vm_compute; reflexivity). lia. }
    exists (l + 1). rewrite Z.pow_add_r, Z.pow_1_r by lia.
    split; [lia|]. split; [nia|]. right. nia.
Qed.

(** A number of at most 15 digits with a fraction is not rounded to an
    integer. *)
Lemma short_fraction_kept (num : string) (n : Z) (k : nat) :
  strconv.readFloat num = Some (n, k) ->
  0 <= n < 10 ^ 15 -> (k <= 14)%nat -> n mod 10 ^ Z.of_nat k <> 0 ->
  exists f, strconv.ParseFloat num = (f, None) /\
            math.neq (math.Trunc f) f = true.
Proof.
  intros Hr Hn Hk Hfrac.
  set (d := 10 ^ Z.of_nat k) in *.
  assert (Hd : 0 < d) by (apply Z.pow_pos_nonneg; lia).
  assert (Hd14 : d <= 10 ^ 14) by (apply Z.pow_le_mono_r; lia).
  assert (Hn0 : 0 < n).
  { destruct (Z.eq_dec n 0) as [-> | ]; [|lia].
    rewrite Z.mod_0_l in Hfrac by lia. congruence. }
  destruct (@binary_size n d ltac:(lia) Hd) as (B & HB & Hu & Ht).
  destruct (@ParseFloat_spec num n k B Hr ltac:(lia) ltac:(lia) Hu)
    as (f & M & a & Hf & F & Ha & HM & N).
  exists f. split; [exact Hf|].
  assert (PB : 0 < 2 ^ B) by (apply Z.pow_pos_nonneg; lia).
  assert (Pa : 0 < 2 ^ a) by (apply Z.pow_pos_nonneg; lia).
  assert (T53 : 2 * 10 ^ 15 < 2 ^ 53) by (vm_compute; reflexivity).
  assert (T14 : 10 ^ 14 < 2 ^ 53) by (vm_compute; reflexivity).
  assert (Big : d < 2 ^ a).
  { assert (2 ^ 53 <= 2 ^ a * 2 ^ B).
    { rewrite <- Z.pow_add_r by lia. apply Z.pow_le_mono_r; lia. }
    assert (2 ^ B * d < 2 ^ 53) by lia.
    nia. }
  destruct N as [N1 N2]. fold d in N1, N2.
  assert (S1 : M * d - n * 2 ^ a <= d).
  { replace (1 * d * 2 ^ a) with (d * 2 ^ a) in N1 by ring.
    apply Z.mul_le_mono_pos_r in N1; assumption. }
  assert (S2 : n * 2 ^ a - M * d <= d).
  { replace (1 * d * 2 ^ a) with (d * 2 ^ a) in N2 by ring.
    apply Z.mul_le_mono_pos_r in N2; assumption. }
  assert (Hnot : M mod 2 ^ a <> 0).
  { intros Z0. apply Hfrac.
    apply Z.mod_divide in Z0; [|lia]. destruct Z0 as [q ->].
    assert (n = q * d); [|subst n; apply Z.mod_mul; lia].
    destruct (Z.lt_trichotomy n (q * d)) as [C | [C | C]]; [|assumption|].
    - exfalso. assert (1 <= q * d - n) by lia. nia.
    - exfalso. assert (1 <= n - q * d) by lia. nia. }
  destruct F as [[-> ->] | (HM0 & mm & ee & -> & Hee & Hv)].
  { exfalso. apply Hnot. apply Z.mod_0_l. lia. }
  replace (ee - - a) with (ee + a) in Hv by lia.
  assert (Pz : 0 < 2 ^ (ee + a)) by (apply Z.pow_pos_nonneg; lia).
  assert (Pe : 0 < 2 ^ (- ee)) by (apply Z.pow_pos_nonneg; lia).
  assert (Q : 2 ^ a = 2 ^ (- ee) * 2 ^ (ee + a)).
  { rewrite <- Z.pow_add_r by lia. f_equal. lia. }
  apply Trunc_differs; [lia | |].
  - intros Z0. apply Hnot.
    apply Z.mod_divide in Z0; [|lia]. destruct Z0 as [q Hq].
    rewrite <- Hv, Hq, Q.
    replace (q * 2 ^ (- ee) * 2 ^ (ee + a))
      with (q * (2 ^ (- ee) * 2 ^ (ee + a))) by ring.
    apply Z.mod_mul. lia.
  - assert (V : Zpos mm / 2 ^ (- ee) = M / 2 ^ a).
    { rewrite <- Hv, Q. symmetry. apply Z.div_mul_cancel_r; lia. }
    rewrite V.
    assert (M / 2 ^ a <= 2 ^ B).
    { apply Z.div_le_upper_bound; [lia|].
      rewrite (Z.pow_add_r 2 B a) in HM by lia. lia. }
    assert (2 ^ B <= 2 ^ 50) by (apply Z.pow_le_mono_r; lia).
    assert (2 ^ 50 < 2 ^ 53) by (apply Z.pow_lt_mono_r; lia).
    lia.
Qed.

(** A number of at most 15 bytes, with an atomic unit: what both
    parsers do with the binary64 number they read. *)
Lemma atomic_short (num : string) :
  number num -> (String.length num <= 15)%nat ->
  exists f, strconv.ParseFloat num = (f, None) /\
    (if math.neq (math.Trunc f) f then (0, Some ErrorSplitAtomic)
     else (math.int f, None)) =
    (if has_fraction num then (0, Some ErrorSplitAtomic)
     else (round_toward_zero_scaled num 1, None)).
Proof.
  intros Hnum L. destruct (readFloat_number Hnum) as (n & k & Hr).
  pose proof (readFloat_nonneg Hnum Hr) as Hn.
  set (d := 10 ^ Z.of_nat k).
  assert (Hd : 0 < d) by (apply Z.pow_pos_nonneg; lia).
  assert (T : 10 ^ 15 < 2 ^ 53) by (vm_compute; reflexivity).
  assert (Bn : n < 10 ^ 15 /\ (k <= 14)%nat).
  { destruct Hnum as [ip Hne Hdg | ip fp Hne Hdg Hfne Hfd].
    - rewrite readFloat_int in Hr by assumption. inversion Hr; subst.
      pose proof (@dec_value_bound ip 0 Hdg ltac:(lia)) as B.
      assert (10 ^ Z.of_nat (String.length ip) <= 10 ^ 15)
        by (apply Z.pow_le_mono_r; lia).
      lia.
    - rewrite readFloat_frac in Hr by assumption. inversion Hr; subst.
      assert (Hall : all_digits (ip ++ fp) = true)
        by (rewrite all_digits_app, Hdg, Hfd; reflexivity).
      pose proof (@dec_value_bound (ip ++ fp) 0 Hall ltac:(lia)) as B.
      rewrite !length_append in L. cbn [String.length] in L.
      rewrite length_append in B.
      assert (String.length ip <> 0)%nat by (destruct ip; [congruence | discriminate]).
      assert (10 ^ Z.of_nat (String.length ip + String.length fp) <= 10 ^ 15)
        by (apply Z.pow_le_mono_r; lia).
      lia. }
  destruct Bn as [Bn Bk].
  unfold has_fraction. rewrite (@scaled_unfold num n k 1 Hr), Hr, Z.mul_1_r.
  fold d. destruct (Z.eqb_spec (n mod d) 0) as [E | E]; cbn [negb].
  - destruct (Z.eq_dec n 0) as [-> | Hz].
    + exists (S754_zero false). unfold strconv.ParseFloat. rewrite Hr.
      split; reflexivity.
    + assert (Hc : n = n / d * d).
      { pose proof (Z.div_mod n d ltac:(lia)). lia. }
      assert (Hcp : 0 < n / d) by nia.
      assert (Hcu : n / d < 2 ^ 53).
      { pose proof (Z.div_le_upper_bound n d n Hd ltac:(nia)). lia. }
      assert (Dy : dyadic num (n / d) 0).
      { exists n, k. rewrite Z.pow_0_r. fold d. repeat split; try lia.
        exact Hr. }
      destruct (@atomic_exact num (@dyadic_exact num (n / d) 0 Dy Hcu))
        as (f & Hf & EQ).
      exists f. split; [exact Hf|]. rewrite EQ.
      unfold has_fraction. rewrite (@scaled_unfold num n k 1 Hr), Hr, Z.mul_1_r.
      fold d. rewrite E. reflexivity.
  - destruct (@short_fraction_kept num n k Hr ltac:(lia) Bk E)
      as (f & Hf & Hne).
    exists f. split; [exact Hf|]. rewrite Hne. reflexivity.
Qed.

(** Up to 15 bytes the test for a fraction is exact: for a number of
    at most 15 bytes, "<num>ms" and "<num>KB" give
    [ErrorSplitAtomic] exactly when the value has a non-zero fractional
    part, and the value otherwise. *)
Theorem fifteen_digits_of_an_atomic_unit (num : string) :
  number num -> (String.length num <= 15)%nat ->
  ParseTime (num ++ "ms") =
    (if has_fraction num then (0, Some ErrorSplitAtomic)
     else (round_toward_zero_scaled num 1, None)) /\
  ParseMemory (num ++ "KB") =
    (if has_fraction num then (0, Some ErrorSplitAtomic)
     else (round_toward_zero_scaled num 1, None)).
Proof.
  intros Hnum L. destruct (atomic_short Hnum L) as (f & Hf & E).
  rewrite (@ParseTime_number_ms num f Hnum Hf).
  rewrite (@ParseMemory_number_KB num f Hnum Hf).
  split; exact E.
Qed.

(** Fifteen bytes, with a fraction in the last digit, and a fraction
    of zeros. *)
Lemma stamps_of_fifteen_digits :
  ParseTime ("9999999999999.9" ++ "ms") = (0, Some ErrorSplitAtomic) /\
  ParseMemory ("0.0000000000001" ++ "KB") = (0, Some ErrorSplitAtomic) /\
  ParseMemory ("4096.00" ++ "KB") = (4096, None).
Proof.
  split; [|split].
  - apply (proj1 (@fifteen_digits_of_an_atomic_unit "9999999999999.9"
                    (number_frac (ip:="9999999999999") (fp:="9")
                       ltac:(discriminate) eq_refl ltac:(discriminate)
                       eq_refl)
                    ltac:(vm_compute; lia))).
  - apply (proj2 (@fifteen_digits_of_an_atomic_unit "0.0000000000001"
                    (number_frac (ip:="0") (fp:="0000000000001")
                       ltac:(discriminate) eq_refl ltac:(discriminate)
                       eq_refl)
                    ltac:(vm_compute; lia))).
  - apply (proj2 (@fifteen_digits_of_an_atomic_unit "4096.00"
                    (number_frac (ip:="4096") (fp:="00")
                       ltac:(discriminate) eq_refl ltac:(discriminate)
                       eq_refl)
                    ltac:(vm_compute; lia))).
Defined.
